(** * Service Weaver: component handles and per-method metrics

    A shallow embedding of [component.go] (package [weaver]) and of
    [runtime/codegen/metrics.go] (package [codegen]), with the properties
    the specification states about them.

    Go pointers are addresses into an explicit heap, package-level variables
    are fields of the process state, and a Go panic is the result [None]. *)

From stdpp Require Import gmap strings list.
From Stdlib Require Import ZArith Lia.

Local Open Scope Z_scope.

(** ** Go's [time] package (standard library), as far as [metrics.go] uses it *)

Module time.

(** A [Time] obtained from [time.Now()] carries a reading of the process's
    monotonic clock, in nanoseconds ([ext]); for such a [Time],
    [time.Since(t)] is [subMono(now, t.ext)] and uses no other field. *)
Record Time := { ext : Z }.

(** A [Duration] is an [int64] count of nanoseconds. *)
Definition Duration := Z.

Definition minDuration : Duration := - 2 ^ 63.
Definition maxDuration : Duration := 2 ^ 63 - 1.

(** Two's-complement [int64] wrap-around. *)
Definition wrap64 (z : Z) : Z := (z + 2 ^ 63) mod 2 ^ 64 - 2 ^ 63.

Definition int64_range (z : Z) : Prop := - 2 ^ 63 <= z <= 2 ^ 63 - 1.

(** [subMono t u]: the difference of two monotonic readings, saturated. *)
Definition subMono (t u : Z) : Duration :=
  let d := wrap64 (t - u) in
  if (d <? 0) && (u <? t) then maxDuration
  else if (0 <? d) && (t <? u) then minDuration
  else d.

(** [Duration.Microseconds]: integer division, truncated toward zero. *)
Definition Microseconds (d : Duration) : Z := d ÷ 1000.

End time.

(** ** Package [codegen]: [runtime/codegen/metrics.go] *)

Module codegen.

Definition loc := positive.

Record MethodLabels := {
  Caller : string;      (* full calling component name *)
  Component : string;   (* full callee component name *)
  Method : string;      (* callee component method's name *)
  Remote : bool         (* is this a remote call? *)
}.

#[global] Instance MethodLabels_eq_dec : EqDecision MethodLabels.
Proof. solve_decision. Defined.

#[global] Instance MethodLabels_countable : Countable MethodLabels.
Proof.
  refine (inj_countable'
            (fun l => (Caller l, Component l, Method l, Remote l))
            (fun t => match t with
                      | (a, b, c, d) => Build_MethodLabels a b c d
                      end) _).
  intros []; reflexivity.
Defined.

(** The names under which the five metric maps of the [var] block are
    created. *)
Definition MethodCounts_name : string := "serviceweaver_method_count".
Definition MethodErrors_name : string := "serviceweaver_method_error_count".
Definition MethodLatencies_name : string := "serviceweaver_method_latency_micros".
Definition MethodBytesRequest_name : string := "serviceweaver_method_bytes_request".
Definition MethodBytesReply_name : string := "serviceweaver_method_bytes_reply".

(** MethodMetrics contains metrics for a single component method.  The five
    instruments are pointers. *)
Record MethodMetrics := {
  remote : bool;
  Count : loc;          (* see MethodCounts *)
  ErrorCount : loc;     (* see MethodErrors *)
  Latency : loc;        (* see MethodLatencies *)
  BytesRequest : loc;   (* see MethodBytesRequest *)
  BytesReply : loc      (* see MethodBytesReply *)
}.

(** MethodCallHandle holds information needed to finalize metric updates
    for a method call. *)
Record MethodCallHandle := { start : time.Time }.

(** Modelled from the spec: package [metrics] ([Counter], [Histogram] and
    the metric maps) is not among the sources.  Every instrument is created
    under a metric name and a label set, and holds a value: the count of a
    counter, the observations of a histogram. *)
Record Metric (V : Type) := {
  m_name : string;
  m_labels : MethodLabels;
  m_value : V
}.
Arguments m_name {V} _.
Arguments m_labels {V} _.
Arguments m_value {V} _.

Definition with_value {V} (f : V -> V) (c : Metric V) : Metric V :=
  {| m_name := m_name c; m_labels := m_labels c; m_value := f (m_value c) |}.

(** Modelled from the spec: [metrics.CounterMap.Get] and
    [metrics.HistogramMap.Get], not among the sources.  "Metric instances are
    looked up/created lazily by the key and are never removed": the
    instrument registered under the labels is returned, and created (with
    the value [zero], at a fresh address) on first use. *)
Definition MetricMap_Get {V} (zero : V) (name : string) (labels : MethodLabels)
    (entries : gmap MethodLabels loc) (heap : gmap loc (Metric V))
    : loc * gmap MethodLabels loc * gmap loc (Metric V) :=
  match entries !! labels with
  | Some p => (p, entries, heap)
  | None =>
      let p := fresh (dom heap) in
      (p, <[labels := p]> entries,
       <[p := {| m_name := name; m_labels := labels; m_value := zero |}]> heap)
  end.

(** The identity of the instrument behind a pointer: the metric name and the
    label set it was created under. *)
Definition metric_id {V} (heap : gmap loc (Metric V)) (p : loc)
    : option (string * MethodLabels) :=
  (fun c => (m_name c, m_labels c)) <$> heap !! p.

(** Every entry of a metric map points to a live instrument created under
    the map's name and the entry's labels. *)
Definition registered {V} (name : string) (entries : gmap MethodLabels loc)
    (heap : gmap loc (Metric V)) : Prop :=
  forall l p, entries !! l = Some p -> metric_id heap p = Some (name, l).

Section Metrics.

(** Go's [float64] and the conversion [float64(n)] of an integer. *)
Context (float64 : Type) (float64_of_int : Z -> float64).

(** Modelled from the spec: a counter is an invocation count, a histogram
    the observations recorded so far, oldest first. *)
Definition Counter := Metric Z.
Definition Histogram := Metric (list float64).

(** The process state the metrics code reads and writes: the heap of
    counters and of histograms, the five package-level metric maps (label
    set to instrument), and the monotonic clock. *)
Record world := {
  counters : gmap loc Counter;
  histograms : gmap loc Histogram;
  MethodCounts : gmap MethodLabels loc;
  MethodErrors : gmap MethodLabels loc;
  MethodLatencies : gmap MethodLabels loc;
  MethodBytesRequest : gmap MethodLabels loc;
  MethodBytesReply : gmap MethodLabels loc;
  clock : Z
}.

Definition set_counters (f : gmap loc Counter -> gmap loc Counter) (w : world) : world :=
  {| counters := f (counters w); histograms := histograms w;
     MethodCounts := MethodCounts w; MethodErrors := MethodErrors w;
     MethodLatencies := MethodLatencies w;
     MethodBytesRequest := MethodBytesRequest w;
     MethodBytesReply := MethodBytesReply w; clock := clock w |}.

Definition set_histograms (f : gmap loc Histogram -> gmap loc Histogram) (w : world) : world :=
  {| counters := counters w; histograms := f (histograms w);
     MethodCounts := MethodCounts w; MethodErrors := MethodErrors w;
     MethodLatencies := MethodLatencies w;
     MethodBytesRequest := MethodBytesRequest w;
     MethodBytesReply := MethodBytesReply w; clock := clock w |}.

Definition set_MethodCounts (m : gmap MethodLabels loc) (w : world) : world :=
  {| counters := counters w; histograms := histograms w;
     MethodCounts := m; MethodErrors := MethodErrors w;
     MethodLatencies := MethodLatencies w;
     MethodBytesRequest := MethodBytesRequest w;
     MethodBytesReply := MethodBytesReply w; clock := clock w |}.

Definition set_MethodErrors (m : gmap MethodLabels loc) (w : world) : world :=
  {| counters := counters w; histograms := histograms w;
     MethodCounts := MethodCounts w; MethodErrors := m;
     MethodLatencies := MethodLatencies w;
     MethodBytesRequest := MethodBytesRequest w;
     MethodBytesReply := MethodBytesReply w; clock := clock w |}.

Definition set_MethodLatencies (m : gmap MethodLabels loc) (w : world) : world :=
  {| counters := counters w; histograms := histograms w;
     MethodCounts := MethodCounts w; MethodErrors := MethodErrors w;
     MethodLatencies := m;
     MethodBytesRequest := MethodBytesRequest w;
     MethodBytesReply := MethodBytesReply w; clock := clock w |}.

Definition set_MethodBytesRequest (m : gmap MethodLabels loc) (w : world) : world :=
  {| counters := counters w; histograms := histograms w;
     MethodCounts := MethodCounts w; MethodErrors := MethodErrors w;
     MethodLatencies := MethodLatencies w;
     MethodBytesRequest := m;
     MethodBytesReply := MethodBytesReply w; clock := clock w |}.

Definition set_MethodBytesReply (m : gmap MethodLabels loc) (w : world) : world :=
  {| counters := counters w; histograms := histograms w;
     MethodCounts := MethodCounts w; MethodErrors := MethodErrors w;
     MethodLatencies := MethodLatencies w;
     MethodBytesRequest := MethodBytesRequest w;
     MethodBytesReply := m; clock := clock w |}.

Definition set_clock (c : Z) (w : world) : world :=
  {| counters := counters w; histograms := histograms w;
     MethodCounts := MethodCounts w; MethodErrors := MethodErrors w;
     MethodLatencies := MethodLatencies w;
     MethodBytesRequest := MethodBytesRequest w;
     MethodBytesReply := MethodBytesReply w; clock := c |}.

(** The state of a process before any metric is used: the [var] block has
    created five empty metric maps. *)
Definition init_world (now : Z) : world :=
  {| counters := ∅; histograms := ∅;
     MethodCounts := ∅; MethodErrors := ∅; MethodLatencies := ∅;
     MethodBytesRequest := ∅; MethodBytesReply := ∅; clock := now |}.

(** Computations over the process state that may panic. *)
Definition M (A : Type) : Type := world -> option (A * world).

Definition ret {A} (a : A) : M A := fun w => Some (a, w).

Definition bind {A B} (c : M A) (k : A -> M B) : M B :=
  fun w => match c w with
           | Some (a, w') => k a w'
           | None => None
           end.

Definition when (b : bool) (c : M unit) : M unit :=
  if b then c else ret tt.

Notation "'do' x <- c ; k" := (bind c (fun x => k))
  (at level 10, x name, c at level 100, k at level 200).
Notation "'do_' c ; k" := (bind c (fun _ => k))
  (at level 10, c at level 100, k at level 200).

(** Modelled from the spec: [metrics.Counter.Inc], not among the sources.  It
    raises the counter behind the pointer by one; a pointer to no counter
    (nil) panics. *)
Definition Counter_Inc (p : loc) : M unit := fun w =>
  match counters w !! p with
  | Some _ => Some (tt, set_counters (alter (with_value (fun v => v + 1)) p) w)
  | None => None
  end.

(** Modelled from the spec: [metrics.Histogram.Put], not among the sources.  It
    records one observation in the histogram behind the pointer; a pointer
    to no histogram (nil) panics. *)
Definition Histogram_Put (p : loc) (v : float64) : M unit := fun w =>
  match histograms w !! p with
  | Some _ => Some (tt, set_histograms (alter (with_value (fun o => o ++ [v])) p) w)
  | None => None
  end.

Definition MethodCounts_Get (labels : MethodLabels) : M loc := fun w =>
  let '(p, e, h) := MetricMap_Get 0 MethodCounts_name labels (MethodCounts w) (counters w) in
  Some (p, set_MethodCounts e (set_counters (fun _ => h) w)).

Definition MethodErrors_Get (labels : MethodLabels) : M loc := fun w =>
  let '(p, e, h) := MetricMap_Get 0 MethodErrors_name labels (MethodErrors w) (counters w) in
  Some (p, set_MethodErrors e (set_counters (fun _ => h) w)).

Definition MethodLatencies_Get (labels : MethodLabels) : M loc := fun w =>
  let '(p, e, h) := MetricMap_Get [] MethodLatencies_name labels (MethodLatencies w) (histograms w) in
  Some (p, set_MethodLatencies e (set_histograms (fun _ => h) w)).

Definition MethodBytesRequest_Get (labels : MethodLabels) : M loc := fun w =>
  let '(p, e, h) := MetricMap_Get [] MethodBytesRequest_name labels (MethodBytesRequest w) (histograms w) in
  Some (p, set_MethodBytesRequest e (set_histograms (fun _ => h) w)).

Definition MethodBytesReply_Get (labels : MethodLabels) : M loc := fun w =>
  let '(p, e, h) := MetricMap_Get [] MethodBytesReply_name labels (MethodBytesReply w) (histograms w) in
  Some (p, set_MethodBytesReply e (set_histograms (fun _ => h) w)).

(** MethodMetricsFor returns metrics for the specified method. *)
Definition MethodMetricsFor (labels : MethodLabels) : M MethodMetrics :=
  do c <- MethodCounts_Get labels;
  do e <- MethodErrors_Get labels;
  do l <- MethodLatencies_Get labels;
  do rq <- MethodBytesRequest_Get labels;
  do rp <- MethodBytesReply_Get labels;
  ret {| remote := Remote labels; Count := c; ErrorCount := e;
         Latency := l; BytesRequest := rq; BytesReply := rp |}.

(** [time.Now()] and [time.Since(t)], reading the process's monotonic
    clock. *)
Definition time_Now : M time.Time := fun w => Some ({| time.ext := clock w |}, w).

Definition time_Since (t : time.Time) : M time.Duration := fun w =>
  Some (time.subMono (clock w) (time.ext t), w).

(** Begin starts metric update recording for a call to method m. *)
Definition Begin (m : MethodMetrics) : M MethodCallHandle :=
  do t <- time_Now;
  ret {| start := t |}.

(** End ends metric update recording for a call to method m. *)
Definition End (m : MethodMetrics) (h : MethodCallHandle) (failed : bool)
    (requestBytes replyBytes : Z) : M unit :=
  do d <- time_Since (start h);
  let latency := time.Microseconds d in
  do_ Counter_Inc (Count m);
  do_ when failed (Counter_Inc (ErrorCount m));
  do_ Histogram_Put (Latency m) (float64_of_int latency);
  when (remote m)
    (do_ Histogram_Put (BytesRequest m) (float64_of_int requestBytes);
     Histogram_Put (BytesReply m) (float64_of_int replyBytes)).

(** *** Reading the instruments *)

Definition counter_value (w : world) (p : loc) : Z :=
  from_option m_value 0 (counters w !! p).

Definition observations (w : world) (p : loc) : list float64 :=
  from_option m_value [] (histograms w !! p).

(** *** Well-formed states and bundles *)

(** The process state is consistent: the five metric maps own instruments of
    their own name, and the monotonic clock is an [int64]. *)
Record world_ok (w : world) : Prop := {
  ok_counts : registered MethodCounts_name (MethodCounts w) (counters w);
  ok_errors : registered MethodErrors_name (MethodErrors w) (counters w);
  ok_latencies : registered MethodLatencies_name (MethodLatencies w) (histograms w);
  ok_request : registered MethodBytesRequest_name (MethodBytesRequest w) (histograms w);
  ok_reply : registered MethodBytesReply_name (MethodBytesReply w) (histograms w);
  ok_clock : time.int64_range (clock w)
}.

(** The data model's [MethodMetrics]: five instruments, that is, five live
    pointers to five different objects. *)
Definition five_instruments (m : MethodMetrics) (w : world) : Prop :=
  is_Some (counters w !! Count m) /\
  is_Some (counters w !! ErrorCount m) /\
  is_Some (histograms w !! Latency m) /\
  is_Some (histograms w !! BytesRequest m) /\
  is_Some (histograms w !! BytesReply m) /\
  Count m <> ErrorCount m /\
  Latency m <> BytesRequest m /\
  Latency m <> BytesReply m /\
  BytesRequest m <> BytesReply m.

(** [m] is the bundle of the five instruments registered under [labels]. *)
Definition bundle_for (labels : MethodLabels) (m : MethodMetrics) (w : world) : Prop :=
  remote m = Remote labels /\
  metric_id (counters w) (Count m) = Some (MethodCounts_name, labels) /\
  metric_id (counters w) (ErrorCount m) = Some (MethodErrors_name, labels) /\
  metric_id (histograms w) (Latency m) = Some (MethodLatencies_name, labels) /\
  metric_id (histograms w) (BytesRequest m) = Some (MethodBytesRequest_name, labels) /\
  metric_id (histograms w) (BytesReply m) = Some (MethodBytesReply_name, labels).

(** *** The effect of [End] on the two heaps, and the latency it measures *)

Definition End_counters (m : MethodMetrics) (failed : bool) (cs : gmap loc (Metric Z)) :=
  let cs1 := alter (with_value (fun v => v + 1)) (Count m) cs in
  if failed then alter (with_value (fun v => v + 1)) (ErrorCount m) cs1 else cs1.

Definition End_histograms (m : MethodMetrics) (latency requestBytes replyBytes : Z)
    (hs : gmap loc (Metric (list float64))) :=
  let hs1 := alter (with_value (fun o => o ++ [float64_of_int latency])) (Latency m) hs in
  if remote m then
    alter (with_value (fun o => o ++ [float64_of_int replyBytes])) (BytesReply m)
      (alter (with_value (fun o => o ++ [float64_of_int requestBytes])) (BytesRequest m) hs1)
  else hs1.

Definition End_latency (h : MethodCallHandle) (w : world) : Z :=
  time.Microseconds (time.subMono (clock w) (time.ext (start h))).

(** [grows w w']: instruments were created, none was touched, no time
    passed.  [extends w w']: every instrument of [w] is still the same
    object in [w'], and the clock did not run backwards. *)
Definition grows (w w' : world) : Prop :=
  counters w ⊆ counters w' /\ histograms w ⊆ histograms w' /\ clock w' = clock w.

Definition extends (w w' : world) : Prop :=
  (forall p x, metric_id (counters w) p = Some x -> metric_id (counters w') p = Some x) /\
  (forall p x, metric_id (histograms w) p = Some x -> metric_id (histograms w') p = Some x) /\
  clock w <= clock w'.

(** [keeps w w']: the metric maps, the clock and the identity of every
    instrument are the same; only values have moved. *)
Definition keeps (w w' : world) : Prop :=
  MethodCounts w' = MethodCounts w /\ MethodErrors w' = MethodErrors w /\
  MethodLatencies w' = MethodLatencies w /\
  MethodBytesRequest w' = MethodBytesRequest w /\
  MethodBytesReply w' = MethodBytesReply w /\
  clock w' = clock w /\
  (forall p, metric_id (counters w') p = metric_id (counters w) p) /\
  (forall p, metric_id (histograms w') p = metric_id (histograms w) p).

(** [registers labels m w]: the five metric maps hold the instruments of
    [m] under [labels]. *)
Definition registers (labels : MethodLabels) (m : MethodMetrics) (w : world) : Prop :=
  remote m = Remote labels /\
  MethodCounts w !! labels = Some (Count m) /\
  MethodErrors w !! labels = Some (ErrorCount m) /\
  MethodLatencies w !! labels = Some (Latency m) /\
  MethodBytesRequest w !! labels = Some (BytesRequest m) /\
  MethodBytesReply w !! labels = Some (BytesReply m).

(** *** How the process state evolves

    Between two operations on a bundle, time passes (the monotonic clock
    never runs backwards) and the same or other callers run the operations
    of this file. *)
Inductive step : world -> world -> Prop :=
  | step_tick w d :
      0 <= d -> time.int64_range (clock w + d) ->
      step w (set_clock (clock w + d) w)
  | step_MethodMetricsFor labels w m w' :
      MethodMetricsFor labels w = Some (m, w') -> step w w'
  | step_Begin m w h w' :
      Begin m w = Some (h, w') -> step w w'
  | step_End m h failed requestBytes replyBytes w w' :
      End m h failed requestBytes replyBytes w = Some (tt, w') -> step w w'.

Definition elapses : world -> world -> Prop := rtc step.

(** *** A caller's loop

    A caller that ends a list of calls on one bundle, one after the other;
    a call is its handle, whether it failed, and its request and reply
    sizes. *)
Fixpoint End_each (m : MethodMetrics)
    (calls : list (MethodCallHandle * bool * Z * Z)) : M unit :=
  match calls with
  | [] => ret tt
  | (h, failed, requestBytes, replyBytes) :: calls' =>
      do_ End m h failed requestBytes replyBytes;
      End_each m calls'
  end.

End Metrics.

Arguments counters {float64} _.
Arguments histograms {float64} _.
Arguments MethodCounts {float64} _.
Arguments MethodErrors {float64} _.
Arguments MethodLatencies {float64} _.
Arguments MethodBytesRequest {float64} _.
Arguments MethodBytesReply {float64} _.
Arguments clock {float64} _.
Arguments set_clock {float64} _ _.
Arguments set_counters {float64} _ _.
Arguments set_histograms {float64} _ _.
Arguments ret {float64 A} _ _.
Arguments bind {float64 A B} _ _ _.
Arguments when {float64} _ _ _.
Arguments Counter_Inc {float64} _ _.
Arguments Histogram_Put {float64} _ _ _.
Arguments MethodMetricsFor {float64} _ _.
Arguments time_Now {float64} _.
Arguments time_Since {float64} _ _.
Arguments Begin {float64} _ _.
Arguments End {float64} _ _ _ _ _ _ _.
Arguments End_histograms {float64} _ _ _ _ _ _.
Arguments End_latency {float64} _ _.
Arguments grows {float64} _ _.
Arguments extends {float64} _ _.
Arguments keeps {float64} _ _.
Arguments counter_value {float64} _ _.
Arguments observations {float64} _ _.
Arguments world_ok {float64} _.
Arguments five_instruments {float64} _ _.
Arguments bundle_for {float64} _ _ _.
Arguments step {float64} _ _ _.
Arguments elapses {float64} _ _ _.
Arguments registers {float64} _ _ _.
Arguments End_each {float64} _ _ _ _.

(** *** Calls in progress

    Callers run concurrently: between two statements of a call of
    [MethodMetricsFor] or [End], other callers execute statements of
    theirs.  A call in progress is at one of its statements.

    Modelled from the spec: one call into package [metrics] ([Get], [Inc],
    [Put]) is one step; the instruments have atomic increment and observe
    semantics, safe under arbitrary concurrent access. *)

Section Calls.

Context {float64 : Type} (float64_of_int : Z -> float64).

(** The statement of [End] that is next, once [latency] has been
    computed. *)
Inductive End_pc :=
  | AtCount            (* m.Count.Inc() *)
  | AtErrorCount       (* if failed { m.ErrorCount.Inc() } *)
  | AtLatency          (* m.Latency.Put(float64(latency)) *)
  | AtBytesRequest     (* m.BytesRequest.Put(float64(requestBytes)) *)
  | AtBytesReply.      (* m.BytesReply.Put(float64(replyBytes)) *)

(** A call of [End]: the receiver, the local variable [latency] and the
    arguments; and the label set its receiver was made for. *)
Record ending := {
  e_labels : MethodLabels;
  e_metrics : MethodMetrics;
  e_latency : Z;
  e_failed : bool;
  e_requestBytes : Z;
  e_replyBytes : Z
}.

(** A call of [MethodMetricsFor(labels)] has evaluated the first fields of
    the struct literal and holds the instruments it [got]; a call of [End]
    is at a statement; a call that has returned stays in the list. *)
Inductive call :=
  | Getting (labels : MethodLabels) (got : list loc)
  | Ending (e : ending) (pc : End_pc)
  | Returned.

(** The process: its state, the bundles [MethodMetricsFor] has returned so
    far (each with the label set it was asked for; callers leave a bundle
    as it was returned), and the calls. *)
Record program := {
  state : world float64;
  issued : list (MethodLabels * MethodMetrics);
  calls : list call
}.

Definition set_state (w : world float64) (P : program) : program :=
  {| state := w; issued := issued P; calls := calls P |}.

Definition set_call (i : nat) (c : call) (P : program) : program :=
  {| state := state P; issued := issued P; calls := <[i := c]> (calls P) |}.

Definition add_call (c : call) (P : program) : program :=
  {| state := state P; issued := issued P; calls := calls P ++ [c] |}.

Definition issue (labels : MethodLabels) (m : MethodMetrics) (P : program) : program :=
  {| state := state P; issued := (labels, m) :: issued P; calls := calls P |}.

(** The process continues with the result of a call into package metrics;
    a panic ends it. *)
Definition after {A} (r : option (A * world float64))
    (k : A -> world float64 -> program) : option program :=
  match r with
  | Some (a, w) => Some (k a w)
  | None => None
  end.

(** The next statement of call [i]. *)
Definition next (i : nat) (P : program) : option program :=
  match calls P !! i with
  | Some (Getting labels got) =>
      match got with
      | [] =>
          after (MethodCounts_Get float64 labels (state P))
            (fun c w => set_call i (Getting labels [c]) (set_state w P))
      | [c] =>
          after (MethodErrors_Get float64 labels (state P))
            (fun e w => set_call i (Getting labels [c; e]) (set_state w P))
      | [c; e] =>
          after (MethodLatencies_Get float64 labels (state P))
            (fun l w => set_call i (Getting labels [c; e; l]) (set_state w P))
      | [c; e; l] =>
          after (MethodBytesRequest_Get float64 labels (state P))
            (fun rq w => set_call i (Getting labels [c; e; l; rq]) (set_state w P))
      | [c; e; l; rq] =>
          after (MethodBytesReply_Get float64 labels (state P))
            (fun rp w =>
               issue labels
                 {| remote := Remote labels; Count := c; ErrorCount := e;
                    Latency := l; BytesRequest := rq; BytesReply := rp |}
                 (set_call i Returned (set_state w P)))
      | _ => None
      end
  | Some (Ending e pc) =>
      let m := e_metrics e in
      match pc with
      | AtCount =>
          after (Counter_Inc (Count m) (state P))
            (fun _ w => set_call i (Ending e AtErrorCount) (set_state w P))
      | AtErrorCount =>
          after (when (e_failed e) (Counter_Inc (ErrorCount m)) (state P))
            (fun _ w => set_call i (Ending e AtLatency) (set_state w P))
      | AtLatency =>
          after (Histogram_Put (Latency m) (float64_of_int (e_latency e)) (state P))
            (fun _ w =>
               set_call i (if remote m then Ending e AtBytesRequest else Returned)
                 (set_state w P))
      | AtBytesRequest =>
          after (Histogram_Put (BytesRequest m) (float64_of_int (e_requestBytes e))
                   (state P))
            (fun _ w => set_call i (Ending e AtBytesReply) (set_state w P))
      | AtBytesReply =>
          after (Histogram_Put (BytesReply m) (float64_of_int (e_replyBytes e))
                   (state P))
            (fun _ w => set_call i Returned (set_state w P))
      end
  | _ => None
  end.

(** Call [i] runs on its own, for at most [n] statements, until it has
    returned. *)
Fixpoint alone (n i : nat) (P : program) : option program :=
  match n with
  | O => Some P
  | S n' =>
      match calls P !! i with
      | Some Returned => Some P
      | _ =>
          match next i P with
          | Some P' => alone n' i P'
          | None => None
          end
      end
  end.

(** What happens in the process: time passes; a caller calls
    [MethodMetricsFor], [Begin], or [End] on a bundle that
    [MethodMetricsFor] has returned, with any handle and arguments ([End]
    begins by computing [latency]); a call in progress executes its next
    statement. *)
Inductive step_calls : program -> program -> Prop :=
  | calls_tick P d :
      0 <= d -> time.int64_range (clock (state P) + d) ->
      step_calls P (set_state (set_clock (clock (state P) + d) (state P)) P)
  | calls_MethodMetricsFor P labels :
      step_calls P (add_call (Getting labels []) P)
  | calls_Begin P m h w :
      Begin m (state P) = Some (h, w) -> step_calls P (set_state w P)
  | calls_End P labels m h failed requestBytes replyBytes d w :
      (labels, m) ∈ issued P ->
      time_Since (start h) (state P) = Some (d, w) ->
      step_calls P
        (add_call
           (Ending {| e_labels := labels; e_metrics := m;
                      e_latency := time.Microseconds d; e_failed := failed;
                      e_requestBytes := requestBytes;
                      e_replyBytes := replyBytes |} AtCount)
           (set_state w P))
  | calls_next P i P' :
      next i P = Some P' -> step_calls P P'.

Definition runs : program -> program -> Prop := rtc step_calls.

Definition init_program (now : Z) : program :=
  {| state := init_world float64 now; issued := []; calls := [] |}.

(** How many statements of [End] a call at [pc] has executed. *)
Definition End_rank (pc : End_pc) : nat :=
  match pc with
  | AtCount => 0
  | AtErrorCount => 1
  | AtLatency => 2
  | AtBytesRequest => 3
  | AtBytesReply => 4
  end.

(** [ahead on l cs]: the number of calls of [End] in progress on the bundle
    of [l] that satisfy [on]; with [counted], [failed_counted], [timed] and
    [sized], the calls whose increment of the invocation count, of the error
    count, whose latency and whose request size have been recorded while the
    call has not returned. *)
Definition ahead (on : ending -> End_pc -> bool) (l : MethodLabels)
    (cs : list call) : Z :=
  foldr (fun c n =>
           match c with
           | Ending e pc =>
               if bool_decide (e_labels e = l) && on e pc then 1 + n else n
           | _ => n
           end) 0 cs.

Definition counted (e : ending) (pc : End_pc) : bool := (0 <? End_rank pc)%nat.
Definition failed_counted (e : ending) (pc : End_pc) : bool :=
  e_failed e && (1 <? End_rank pc)%nat.
Definition timed (e : ending) (pc : End_pc) : bool := (2 <? End_rank pc)%nat.
Definition sized (e : ending) (pc : End_pc) : bool := (3 <? End_rank pc)%nat.

(** What a metric map reads for a label set: the size of the value of the
    instrument it holds for it; zero when it holds none. *)
Definition reading {V} (size : V -> Z) (entries : gmap MethodLabels loc)
    (heap : gmap loc (Metric V)) (l : MethodLabels) : Z :=
  match entries !! l with
  | Some p =>
      match heap !! p with
      | Some c => size (m_value c)
      | None => 0
      end
  | None => 0
  end.

Definition count_at (entries : world float64 -> gmap MethodLabels loc)
    (w : world float64) (l : MethodLabels) : Z :=
  reading (fun v => v) (entries w) (counters w) l.

Definition seen_at (entries : world float64 -> gmap MethodLabels loc)
    (w : world float64) (l : MethodLabels) : Z :=
  reading (fun o : list float64 => Z.of_nat (length o)) (entries w) (histograms w) l.

(** [grown w w']: the metric maps have kept every entry.
    [same_readings w w']: and they read the same for every label set. *)
Definition grown (w w' : world float64) : Prop :=
  MethodCounts w ⊆ MethodCounts w' /\ MethodErrors w ⊆ MethodErrors w' /\
  MethodLatencies w ⊆ MethodLatencies w' /\
  MethodBytesRequest w ⊆ MethodBytesRequest w' /\
  MethodBytesReply w ⊆ MethodBytesReply w'.

Definition same_readings (w w' : world float64) : Prop :=
  forall l,
    count_at MethodCounts w' l = count_at MethodCounts w l /\
    count_at MethodErrors w' l = count_at MethodErrors w l /\
    seen_at MethodLatencies w' l = seen_at MethodLatencies w l /\
    seen_at MethodBytesRequest w' l = seen_at MethodBytesRequest w l /\
    seen_at MethodBytesReply w' l = seen_at MethodBytesReply w l.

(** The books of a label set: the calls of [End] that have returned account
    for the same number in the invocation count, the latency histogram and,
    for a remote label set, the two byte-size histograms; and for at most
    that many errors. *)
Definition books (l : MethodLabels) (P : program) : Prop :=
  let w := state P in
  let returned := count_at MethodCounts w l - ahead counted l (calls P) in
  0 <= count_at MethodErrors w l - ahead failed_counted l (calls P) <= returned /\
  seen_at MethodLatencies w l - ahead timed l (calls P) = returned /\
  if Remote l
  then seen_at MethodBytesRequest w l - ahead sized l (calls P) = returned /\
       seen_at MethodBytesReply w l = returned
  else seen_at MethodBytesRequest w l = 0 /\
       seen_at MethodBytesReply w l = 0.

(** What a call of [MethodMetricsFor] holds is what the metric maps hold
    for its labels. *)
Definition getting_ok (l : MethodLabels) (got : list loc) (w : world float64) : Prop :=
  match got with
  | [] => True
  | [c] => MethodCounts w !! l = Some c
  | [c; e] => MethodCounts w !! l = Some c /\ MethodErrors w !! l = Some e
  | [c; e; lt] =>
      MethodCounts w !! l = Some c /\ MethodErrors w !! l = Some e /\
      MethodLatencies w !! l = Some lt
  | [c; e; lt; rq] =>
      MethodCounts w !! l = Some c /\ MethodErrors w !! l = Some e /\
      MethodLatencies w !! l = Some lt /\ MethodBytesRequest w !! l = Some rq
  | _ => False
  end.

(** A call of [End] runs on a bundle that [MethodMetricsFor] returned for
    its label set, and is past the latency only on a remote bundle. *)
Definition call_ok (P : program) (c : call) : Prop :=
  match c with
  | Getting l got => getting_ok l got (state P)
  | Ending e pc =>
      (e_labels e, e_metrics e) ∈ issued P /\
      (timed e pc = true -> remote (e_metrics e) = true)
  | Returned => True
  end.

Record program_ok (P : program) : Prop := {
  ok_state : world_ok (state P);
  ok_issued : forall l m, (l, m) ∈ issued P -> registers l m (state P);
  ok_calls : Forall (call_ok P) (calls P);
  ok_books : forall l, books l P
}.

End Calls.

Arguments program : clear implicits.
Arguments init_program : clear implicits.

(** *** A sample state

    The state of a process in which [MethodMetricsFor] has been called once,
    for a remote method, with integers standing for [float64]
    observations; and the bundle that call returned. *)
Definition sample_labels : MethodLabels :=
  {| Caller := "main"; Component := "cache"; Method := "Get"; Remote := true |}.

Definition sample_metrics : MethodMetrics :=
  {| remote := true; Count := 1%positive; ErrorCount := 2%positive;
     Latency := 1%positive; BytesRequest := 2%positive;
     BytesReply := 3%positive |}.

Definition sample_metric {V} (name : string) (v : V) : Metric V :=
  {| m_name := name; m_labels := sample_labels; m_value := v |}.

Definition sample_world : world Z :=
  {| counters :=
       <[2%positive := sample_metric MethodErrors_name 0]>
         (<[1%positive := sample_metric MethodCounts_name 0]> ∅);
     histograms :=
       <[3%positive := sample_metric MethodBytesReply_name []]>
         (<[2%positive := sample_metric MethodBytesRequest_name []]>
            (<[1%positive := sample_metric MethodLatencies_name []]> ∅));
     MethodCounts := {[ sample_labels := 1%positive ]};
     MethodErrors := {[ sample_labels := 2%positive ]};
     MethodLatencies := {[ sample_labels := 1%positive ]};
     MethodBytesRequest := {[ sample_labels := 2%positive ]};
     MethodBytesReply := {[ sample_labels := 3%positive ]};
     clock := 1000000 |}.

(** The same method called locally: a second label set, the bundle
    [MethodMetricsFor] returns for it in the sample state, and the state
    after that call. *)
Definition sample_labels_local : MethodLabels :=
  {| Caller := "main"; Component := "cache"; Method := "Get"; Remote := false |}.

Definition sample_metrics_local : MethodMetrics :=
  {| remote := false; Count := 3%positive; ErrorCount := 4%positive;
     Latency := 4%positive; BytesRequest := 5%positive;
     BytesReply := 6%positive |}.

Definition sample_metric_local {V} (name : string) (v : V) : Metric V :=
  {| m_name := name; m_labels := sample_labels_local; m_value := v |}.

Definition sample_world_both : world Z :=
  {| counters :=
       <[4%positive := sample_metric_local MethodErrors_name 0]>
         (<[3%positive := sample_metric_local MethodCounts_name 0]>
            (counters sample_world));
     histograms :=
       <[6%positive := sample_metric_local MethodBytesReply_name []]>
         (<[5%positive := sample_metric_local MethodBytesRequest_name []]>
            (<[4%positive := sample_metric_local MethodLatencies_name []]>
               (histograms sample_world)));
     MethodCounts := <[sample_labels_local := 3%positive]> (MethodCounts sample_world);
     MethodErrors := <[sample_labels_local := 4%positive]> (MethodErrors sample_world);
     MethodLatencies :=
       <[sample_labels_local := 4%positive]> (MethodLatencies sample_world);
     MethodBytesRequest :=
       <[sample_labels_local := 5%positive]> (MethodBytesRequest sample_world);
     MethodBytesReply :=
       <[sample_labels_local := 6%positive]> (MethodBytesReply sample_world);
     clock := 1000000 |}.

(** A state with a call in progress: [MethodMetricsFor] has returned the
    bundle of the remote method, and a failed call of [End] on it has
    executed [m.Count.Inc()] and nothing else. *)
Definition sample_ending : ending :=
  {| e_labels := sample_labels; e_metrics := sample_metrics; e_latency := 0;
     e_failed := true; e_requestBytes := 10; e_replyBytes := 20 |}.

Definition sample_program : program Z :=
  {| state := set_counters (alter (with_value (fun v => v + 1)) 1%positive)
                sample_world;
     issued := [(sample_labels, sample_metrics)];
     calls := [Returned; Ending sample_ending AtErrorCount] |}.

End codegen.

(** ** Go's [net] package (standard library), as far as [component.go] uses it *)

Module net.

(** The interface [net.Addr]; [String] is the string form of the address. *)
Record Addr := { Addr_Network : string; Addr_String : string }.

(** The interface [net.Listener]; [Addr] is the listener's network address,
    the one its socket is bound to. *)
Record Listener := { Listener_Addr : Addr }.

End net.

(** ** Go's [sync] package (standard library), as far as [component.go] uses it *)

Module sync.

(** [sync.Once]: the [done] flag and the mutex [m] that serializes the slow
    path of [Do].  A held mutex records the caller that holds it. *)
Record Once := { done : bool; m : option nat }.

End sync.

(** ** Package [weaver]: [component.go] *)

Module weaver.

(** *** Ref *)

(** Ref[T] is a field that can be placed inside a component implementation
    struct; it holds a handle to the component of type T. *)
Record Ref (T : Type) := { value : T }.
Arguments value {T} _.

(** Get returns a handle to the component of type T. *)
Definition Ref_Get {T} (r : Ref T) : T := value r.

(** *** Listener *)

(** Listener is a network listener: the embedded [net.Listener] (nil in a
    Listener that was never filled in) and the address of the proxy that
    forwards to it. *)
Record Listener := {
  Listener_Listener : option net.Listener;   (* underlying listener *)
  proxyAddr : string                         (* address of proxy *)
}.

(** String returns the address clients should dial to connect to the
    listener.  Calling [Addr] through a nil embedded interface panics. *)
Definition Listener_String (l : Listener) : option string :=
  if decide (proxyAddr l <> "") then Some (proxyAddr l)
  else match Listener_Listener l with
       | Some nl => Some (net.Addr_String (net.Listener_Addr nl))
       | None => None
       end.

(** ProxyAddr returns the dialable address of the proxy that forwards
    traffic to this listener, or the empty string if there is none. *)
Definition Listener_ProxyAddr (l : Listener) : string := proxyAddr l.

(** *** WithConfig *)

(** WithConfig[T] is embedded inside a component implementation; the
    runtime initializes the contents of T from the application config. *)
Record WithConfig (T : Type) := { config : T }.
Arguments config {T} _.

(** Config returns the configuration information for the component that
    embeds this WithConfig. *)
Definition WithConfig_Config {T} (wc : WithConfig T) : T := config wc.

(** The values a flat configuration table holds, and the types of the
    fields they are bound to. *)
Inductive cfg_kind := KInt | KString | KBool.

Inductive cfg_value :=
  | VInt (n : Z)
  | VString (s : string)
  | VBool (b : bool).

Definition kind_of (v : cfg_value) : cfg_kind :=
  match v with
  | VInt _ => KInt
  | VString _ => KString
  | VBool _ => KBool
  end.

(** Go's zero value of a field type. *)
Definition zero_value (k : cfg_kind) : cfg_value :=
  match k with
  | KInt => VInt 0
  | KString => VString ""
  | KBool => VBool false
  end.

#[global] Instance cfg_kind_eq_dec : EqDecision cfg_kind.
Proof. solve_decision. Defined.

(** A configuration struct type T: its fields, in declaration order; and a
    value of it: one value per field, in the same order. *)
Definition cfg_struct := list (string * cfg_kind).
Definition cfg_record := list (string * cfg_value).

Inductive cfg_error :=
  | UnknownKeys (keys : gset string)
  | TypeMismatch (field : string).

Definition field_names (T : cfg_struct) : gset string := list_to_set (T.*1).

(** Modelled from the spec: binding a component's section of the
    application config file into its configuration type is done by the
    runtime's config code, not among the sources.  "Unknown keys in the file are a
    startup error; fields absent from the file take their zero value."  A
    key whose value is not of the field's type is an error as well. *)
Definition bind_field (section : gmap string cfg_value) (f : string) (k : cfg_kind)
    : cfg_error + cfg_value :=
  match section !! f with
  | None => inr (zero_value k)
  | Some v => if decide (kind_of v = k) then inr v else inl (TypeMismatch f)
  end.

Fixpoint bind_fields (T : cfg_struct) (section : gmap string cfg_value)
    : cfg_error + cfg_record :=
  match T with
  | [] => inr []
  | (f, k) :: T' =>
      match bind_field section f k with
      | inl e => inl e
      | inr v =>
          match bind_fields T' section with
          | inl e => inl e
          | inr r => inr ((f, v) :: r)
          end
      end
  end.

Definition bind_config (T : cfg_struct) (section : gmap string cfg_value)
    : cfg_error + WithConfig cfg_record :=
  let unknown := dom section ∖ field_names T in
  if decide (unknown = ∅)
  then match bind_fields T section with
       | inl e => inl e
       | inr r => inr {| config := r |}
       end
  else inl (UnknownKeys unknown).

(** The value of a field of a configuration record (field selection). *)
Fixpoint field (r : cfg_record) (f : string) : option cfg_value :=
  match r with
  | [] => None
  | (g, v) :: r' => if decide (g = f) then Some v else field r' f
  end.

(** *** Routing declarations: [routedBy], [WithRouter], [RoutedBy], [Unrouted]

    Whether an implementation struct is routed is a fact about Go method
    sets.  A struct type is modelled by the methods declared on it and the
    types it embeds; a method name denotes the method declared at the
    shallowest embedding depth, provided there is exactly one there. *)

Inductive go_type :=
  | if_youre_seeing_this_you_probably_forgot_to_run_weaver_generate
  | Named (name : string).

#[global] Instance go_type_eq_dec : EqDecision go_type.
Proof. solve_decision. Defined.

(** A method: its name and the types of its parameters. *)
Definition method_decl : Type := string * list go_type.

#[local] Unset Elimination Schemes.
Inductive struct_type :=
  | Struct (methods : list method_decl) (embedded : list struct_type).
#[local] Set Elimination Schemes.

(** [componentImpl] and its methods [routedBy], [rep] and [Logger]. *)
Definition componentImpl_type : struct_type :=
  Struct [("routedBy", [if_youre_seeing_this_you_probably_forgot_to_run_weaver_generate]);
          ("rep", []); ("Logger", [])] [].



(** The signatures of the methods called [f] that sit [d] embeddings deep. *)
Fixpoint methods_at (d : nat) (f : string) (s : struct_type) : list (list go_type) :=
  match s with
  | Struct ms es =>
      match d with
      | O => snd <$> filter (fun md => md.1 = f) ms
      | S d' => flat_map (methods_at d' f) es
      end
  end.

Fixpoint depth (s : struct_type) : nat :=
  match s with
  | Struct _ es => S (fold_right (fun e h => Nat.max (depth e) h) O es)
  end.

(** Go's selector rule, searching from depth [d] downwards. *)
Fixpoint select_from (fuel d : nat) (f : string) (s : struct_type)
    : option (list go_type) :=
  match methods_at d f s with
  | [sig] => Some sig
  | _ :: _ :: _ => None
  | [] =>
      match fuel with
      | O => None
      | S fuel' => select_from fuel' (S d) f s
      end
  end.

Definition method_of (f : string) (s : struct_type) : option (list go_type) :=
  select_from (depth s) 0 f s.

(** An interface is the list of the methods it asks for; a struct type
    implements it when each of them is in its method set with that
    signature. *)
Definition interface : Type := list method_decl.

Definition implements (s : struct_type) (i : interface) : bool :=
  forallb (fun md => bool_decide (method_of md.1 s = Some md.2)) i.


(** Unrouted is the interface implemented by instances that don't embed
    weaver.WithRouter[T]. *)
Definition Unrouted : interface :=
  [("routedBy", [if_youre_seeing_this_you_probably_forgot_to_run_weaver_generate])].




(** *** component and its four lazy cells *)

Definition error : Type := option string.      (* nil, or an error *)
Definition ptr : Type := option positive.      (* nil, or an address *)

(** component represents a Service Weaver component and all corresponding
    metadata.  The fields that are read-only once initialized are
    represented by [info] (the registration, by its name); [logger] and
    [tracer], written together with [impl], and [local] and [load] are left
    out. *)
Record component := {
  info : string;
  registerInit : sync.Once;   (* used to register the component *)
  registerErr : error;        (* non-nil if registration fails *)
  implInit : sync.Once;       (* used to initialize impl, logger *)
  implErr : error;            (* non-nil if impl creation fails *)
  impl : ptr;                 (* only ever non-nil if this component is local *)
  clientInit : sync.Once;     (* used to initialize client *)
  client : ptr;               (* only ever non-nil if remote or routed *)
  stubInit : sync.Once;       (* used to initialize stub *)
  stubErr : error;            (* non-nil if stub creation fails *)
  stub : ptr                  (* only ever non-nil if remote or routed *)
}.

(** The four lazy cells: registration completion, implementation, client
    and stub. *)
Inductive cell := registerCell | implCell | clientCell | stubCell.

#[global] Instance cell_eq_dec : EqDecision cell.
Proof. solve_decision. Defined.

(** The [sync.Once] that guards a cell. *)
Definition once (k : cell) (c : component) : sync.Once :=
  match k with
  | registerCell => registerInit c
  | implCell => implInit c
  | clientCell => clientInit c
  | stubCell => stubInit c
  end.

Definition set_once (k : cell) (o : sync.Once) (c : component) : component :=
  {| info := info c;
     registerInit := if decide (k = registerCell) then o else registerInit c;
     registerErr := registerErr c;
     implInit := if decide (k = implCell) then o else implInit c;
     implErr := implErr c; impl := impl c;
     clientInit := if decide (k = clientCell) then o else clientInit c;
     client := client c;
     stubInit := if decide (k = stubCell) then o else stubInit c;
     stubErr := stubErr c; stub := stub c |}.

(** The result of a cell: the value and the error an access returns.  The
    registration cell has no value field and the client cell no error field;
    the missing half is nil. *)
Definition outcome : Type := ptr * error.

Definition cached (k : cell) (c : component) : outcome :=
  match k with
  | registerCell => (None, registerErr c)
  | implCell => (impl c, implErr c)
  | clientCell => (client c, None)
  | stubCell => (stub c, stubErr c)
  end.

Definition store (k : cell) (r : outcome) (c : component) : component :=
  {| info := info c;
     registerInit := registerInit c;
     registerErr := if decide (k = registerCell) then r.2 else registerErr c;
     implInit := implInit c;
     implErr := if decide (k = implCell) then r.2 else implErr c;
     impl := if decide (k = implCell) then r.1 else impl c;
     clientInit := clientInit c;
     client := if decide (k = clientCell) then r.1 else client c;
     stubInit := stubInit c;
     stubErr := if decide (k = stubCell) then r.2 else stubErr c;
     stub := if decide (k = stubCell) then r.1 else stub c |}.

(** A component as it is created on first resolution: nothing initialized. *)
Definition new_component (name : string) : component :=
  let fresh_once := {| sync.done := false; sync.m := None |} in
  {| info := name;
     registerInit := fresh_once; registerErr := None;
     implInit := fresh_once; implErr := None; impl := None;
     clientInit := fresh_once; client := None;
     stubInit := fresh_once; stubErr := None; stub := None |}.

(** *** Implements and the accessors of componentImpl *)

(** componentImpl is a fully instantiated Service Weaver component that is
    running locally on this process. *)
Record componentImpl := {
  componentImpl_component : ptr;   (* passed to component constructor *)
  componentImpl_impl : ptr;        (* user implementation of component *)
  serverStub : ptr                 (* handles calls from other processes *)
}.

(** The [Implements[T]] embedded in an implementation struct: the embedded
    pointer to a componentImpl (the field [component_interface_type] is
    never read or written). *)
Record Implements := { Implements_componentImpl : ptr }.

(** The objects the accessors reach: the [Implements] embedded in each
    implementation struct, the [componentImpl] objects and, for each
    [component] object, its field [logger]. *)
Record objects := {
  embeddings : gmap positive Implements;
  componentImpls : gmap positive componentImpl;
  loggers : gmap positive ptr
}.

(** setInstance is used during component initialization to fill
    Implements.component.  The store through a nil receiver panics. *)
Definition setInstance (i : ptr) (c : ptr) (o : objects) : option objects :=
  match i with
  | None => None
  | Some a =>
      match embeddings o !! a with
      | None => None
      | Some _ =>
          Some {| embeddings :=
                    <[a := {| Implements_componentImpl := c |}]> (embeddings o);
                  componentImpls := componentImpls o;
                  loggers := loggers o |}
      end
  end.

(** [rep] returns [c.component]; reading the field of a nil receiver
    panics. *)
Definition rep (c : ptr) (o : objects) : option ptr :=
  match c with
  | None => None
  | Some a => componentImpl_component <$> componentImpls o !! a
  end.

(** Logger returns a logger that associates its log entries with this
    component: [c.component.logger], two dereferences. *)
Definition Logger (c : ptr) (o : objects) : option ptr :=
  match c with
  | None => None
  | Some a =>
      match componentImpls o !! a with
      | None => None
      | Some ci =>
          match componentImpl_component ci with
          | None => None
          | Some b => loggers o !! b
          end
      end
  end.

(** [x.rep()] and [x.Logger()] on an implementation struct [x]: the methods
    are promoted through the embedded [Implements] and the pointer it
    embeds, and are called with that pointer as the receiver. *)
Definition promoted {A} (f : ptr -> objects -> option A) (i : positive)
    (o : objects) : option A :=
  match embeddings o !! i with
  | None => None
  | Some e => f (Implements_componentImpl e) o
  end.

(** *** Concurrent callers

    A caller resolves a qualified name to the component and then accesses
    one of its cells.  Its progress is a program counter; the callers of a
    process take steps in any order. *)
Inductive pc :=
  | Start                                (* nothing done yet *)
  | AtDo (c : positive)                  (* holds the component; calls Once.Do *)
  | AtLock (c : positive)                (* Do saw done == 0; waits for the mutex *)
  | InLock (c : positive)                (* holds the mutex; re-checks done *)
  | Running (c : positive)               (* executes initFn, holding the mutex *)
  | Ran (c : positive)                   (* initFn has returned; sets done *)
  | Unlocking (c : positive)             (* releases the mutex *)
  | AtRead (c : positive)                (* Do has returned; reads the result *)
  | Returned (c : positive) (r : outcome).

Record thread := {
  t_name : string;      (* the qualified name it resolves *)
  t_cell : cell;        (* the cell it accesses *)
  t_pc : pc
}.

Definition at_pc (t : thread) (p : pc) : thread :=
  {| t_name := t_name t; t_cell := t_cell t; t_pc := p |}.

(** The component a caller holds, once it has resolved the name. *)
Definition holds (p : pc) : option positive :=
  match p with
  | Start => None
  | AtDo c | AtLock c | InLock c | Running c | Ran c | Unlocking c
  | AtRead c | Returned c _ => Some c
  end.

(** The callers inside the slow path of [Do] (they hold the mutex), and
    among them those inside [initFn]. *)
Definition in_slow_path (p : pc) : bool :=
  match p with
  | InLock _ | Running _ | Ran _ | Unlocking _ => true
  | _ => false
  end.

Definition in_initFn (p : pc) : bool :=
  match p with
  | Running _ | Ran _ => true
  | _ => false
  end.

(** The process: the resolver's table, the components, the log of the
    initializer executions (one entry per execution started), and the
    callers. *)
Record process := {
  componentsByName : gmap string positive;
  heap : gmap positive component;
  runs : list (positive * cell);
  threads : list thread
}.

Definition set_thread (i : nat) (t : thread) (s : process) : process :=
  {| componentsByName := componentsByName s; heap := heap s; runs := runs s;
     threads := <[i := t]> (threads s) |}.

Definition set_component (c : positive) (comp : component) (s : process) : process :=
  {| componentsByName := componentsByName s; heap := <[c := comp]> (heap s);
     runs := runs s; threads := threads s |}.

Definition log_run (c : positive) (k : cell) (s : process) : process :=
  {| componentsByName := componentsByName s; heap := heap s;
     runs := runs s ++ [(c, k)]; threads := threads s |}.

(** Modelled from the spec: the Resolver is not among the sources.  "Given a
    qualified name, returns the per-process singleton Component handle,
    creating it on first demand and memoizing it in a process-wide table."
    The lookup-or-create is one atomic step. *)
Definition getComponent (name : string) (s : process) : positive * process :=
  match componentsByName s !! name with
  | Some c => (c, s)
  | None =>
      let c := fresh (dom (heap s)) in
      (c, {| componentsByName := <[name := c]> (componentsByName s);
             heap := <[c := new_component name]> (heap s);
             runs := runs s; threads := threads s |})
  end.

(** Modelled from the spec: the accessors that run the four [sync.Once]
    cells are not among the sources.  They follow the protocol [GetOrInit(cell,
    initFn)]: [once.Do(func() { fields = initFn() })] and then a read of the
    fields.  [step_thread i r s] is the next step of caller [i], where [r] is
    what [initFn] returns should this step be the one in which it returns;
    [None] when the caller is blocked or has returned.  [Do] is Go's: a fast
    path on [done], then lock, re-check, run, set [done], unlock. *)
Definition step_thread (i : nat) (r : outcome) (s : process) : option process :=
  match threads s !! i with
  | None => None
  | Some t =>
      let k := t_cell t in
      match t_pc t with
      | Start =>
          let '(c, s') := getComponent (t_name t) s in
          Some (set_thread i (at_pc t (AtDo c)) s')
      | AtDo c =>
          match heap s !! c with
          | None => None
          | Some comp =>
              if sync.done (once k comp)
              then Some (set_thread i (at_pc t (AtRead c)) s)
              else Some (set_thread i (at_pc t (AtLock c)) s)
          end
      | AtLock c =>
          match heap s !! c with
          | None => None
          | Some comp =>
              match sync.m (once k comp) with
              | Some _ => None
              | None =>
                  let o := {| sync.done := sync.done (once k comp); sync.m := Some i |} in
                  Some (set_thread i (at_pc t (InLock c))
                          (set_component c (set_once k o comp) s))
              end
          end
      | InLock c =>
          match heap s !! c with
          | None => None
          | Some comp =>
              if sync.done (once k comp)
              then Some (set_thread i (at_pc t (Unlocking c)) s)
              else Some (set_thread i (at_pc t (Running c)) (log_run c k s))
          end
      | Running c =>
          match heap s !! c with
          | None => None
          | Some comp =>
              Some (set_thread i (at_pc t (Ran c))
                      (set_component c (store k r comp) s))
          end
      | Ran c =>
          match heap s !! c with
          | None => None
          | Some comp =>
              let o := {| sync.done := true; sync.m := sync.m (once k comp) |} in
              Some (set_thread i (at_pc t (Unlocking c))
                      (set_component c (set_once k o comp) s))
          end
      | Unlocking c =>
          match heap s !! c with
          | None => None
          | Some comp =>
              let o := {| sync.done := sync.done (once k comp); sync.m := None |} in
              Some (set_thread i (at_pc t (AtRead c))
                      (set_component c (set_once k o comp) s))
          end
      | AtRead c =>
          match heap s !! c with
          | None => None
          | Some comp => Some (set_thread i (at_pc t (Returned c (cached k comp))) s)
          end
      | Returned _ _ => None
      end
  end.

(** One step of the process: some caller takes its next step. *)
Definition step (s s' : process) : Prop :=
  exists i r, step_thread i r s = Some s'.

Definition steps : process -> process -> Prop := rtc step.

(** A schedule names the caller that moves next, and what its initializer
    returns if it completes at that step. *)
Fixpoint exec (schedule : list (nat * outcome)) (s : process) : option process :=
  match schedule with
  | [] => Some s
  | (i, r) :: rest =>
      match step_thread i r s with
      | Some s' => exec rest s'
      | None => None
      end
  end.

(** The process before any caller has moved. *)
Definition init_process (ts : list (string * cell)) : process :=
  {| componentsByName := ∅; heap := ∅; runs := [];
     threads := (fun nk => {| t_name := nk.1; t_cell := nk.2; t_pc := Start |}) <$> ts |}.

(** How often the initializer of cell [k] of component [c] was started. *)
Definition runs_of (s : process) (c : positive) (k : cell) : nat :=
  length (filter (fun e => e = (c, k)) (runs s)).

(** How far a caller is from having returned. *)
Definition rank (p : pc) : nat :=
  match p with
  | Start => 8
  | AtDo _ => 7
  | AtLock _ => 6
  | InLock _ => 5
  | Running _ => 4
  | Ran _ => 3
  | Unlocking _ => 2
  | AtRead _ => 1
  | Returned _ _ => 0
  end%nat.

Definition work_left (s : process) : nat :=
  sum_list ((fun t => rank (t_pc t)) <$> threads s).

Definition returned (t : thread) : bool :=
  match t_pc t with
  | Returned _ _ => true
  | _ => false
  end.

(** *** The invariant of the process *)

(** What holds of caller [i] at each point of its program: it holds the
    component its name resolves to, and the cell it accesses is in the state
    that point of [Do] implies. *)
Definition thread_ok (s : process) (i : nat) (t : thread) : Prop :=
  match holds (t_pc t) with
  | None => True
  | Some c =>
      componentsByName s !! t_name t = Some c /\
      exists comp, heap s !! c = Some comp /\
        let o := once (t_cell t) comp in
        match t_pc t with
        | InLock _ => sync.m o = Some i
        | Running _ | Ran _ =>
            sync.m o = Some i /\ sync.done o = false /\
            runs_of s c (t_cell t) = 1%nat
        | Unlocking _ => sync.m o = Some i /\ sync.done o = true
        | AtRead _ => sync.done o = true
        | Returned _ r => sync.done o = true /\ r = cached (t_cell t) comp
        | _ => True
        end
  end.

(** What holds of cell [k] of a component: the mutex is held by a caller in
    the slow path of this cell's [Do]; a done cell has run its initializer
    once; a cell that is not done and whose mutex holder (if any) is not
    inside [initFn] has not run it. *)
Definition cell_ok (s : process) (c : positive) (comp : component) (k : cell) : Prop :=
  (forall i, sync.m (once k comp) = Some i ->
     exists t, threads s !! i = Some t /\ t_cell t = k /\
               holds (t_pc t) = Some c /\ in_slow_path (t_pc t) = true) /\
  (sync.done (once k comp) = true -> runs_of s c k = 1%nat) /\
  (sync.done (once k comp) = false ->
   (forall i t, sync.m (once k comp) = Some i -> threads s !! i = Some t ->
                in_initFn (t_pc t) = false) ->
   runs_of s c k = 0%nat).

Record process_ok (s : process) : Prop := {
  ok_threads : forall i t, threads s !! i = Some t -> thread_ok s i t;
  ok_cells : forall c comp k, heap s !! c = Some comp -> cell_ok s c comp k;
  ok_table : forall n c, componentsByName s !! n = Some c -> is_Some (heap s !! c);
  ok_fresh : forall c k, heap s !! c = None -> runs_of s c k = 0%nat
}.

(** [settled_for j s s']: nothing that caller [j] relies on was undone
    between [s] and [s']: the table still resolves, a cell whose mutex [j]
    holds is as it was, and a done cell is still done, with the same
    result. *)
Definition settled_for (j : nat) (s s' : process) : Prop :=
  (forall n c, componentsByName s !! n = Some c -> componentsByName s' !! n = Some c) /\
  forall c comp k, heap s !! c = Some comp ->
    exists comp', heap s' !! c = Some comp' /\
      (sync.m (once k comp) = Some j ->
       once k comp' = once k comp /\ runs_of s' c k = runs_of s c k) /\
      (sync.done (once k comp) = true ->
       sync.done (once k comp') = true /\ cached k comp' = cached k comp).

(** The initializer of cell [k] of component [c] has completed with the
    result [r0]: it was run once, the fields hold [r0], and either [done] is
    set or the caller that ran it is about to set it. *)
Definition completed (s : process) (c : positive) (k : cell) (r0 : outcome) : Prop :=
  exists comp, heap s !! c = Some comp /\ cached k comp = r0 /\
    runs_of s c k = 1%nat /\
    (sync.done (once k comp) = true \/
     exists i t, threads s !! i = Some t /\ t_cell t = k /\ t_pc t = Ran c).

(** *** A sample run: [n] callers resolve the same name at once

    Every caller resolves the name and finds the implementation cell not
    done; caller 0 then takes the mutex and runs the factory, which fails;
    the others take the mutex in turn, find the cell done and return. *)
Definition sample_failure : outcome := (None, Some "factory failed").

Definition sample_name : string := "example.com/cache/Cache".

Definition sample_callers (n : nat) : list (string * cell) :=
  replicate n (sample_name, implCell).

Definition sample_arrival (n : nat) : list (nat * outcome) :=
  flat_map (fun i => replicate 2 (i, sample_failure)) (seq 0 n).

Definition sample_first : list (nat * outcome) :=
  replicate 3 (O, sample_failure).

Definition sample_rest (n : nat) : list (nat * outcome) :=
  replicate 3 (O, sample_failure)
  ++ flat_map (fun i => replicate 4 (i, sample_failure)) (seq 1 (n - 1)).

(** The state when the factory has just failed in caller 0 and the others
    wait for the mutex, and the state when all have returned. *)
Definition sample_caller (p : pc) : thread :=
  {| t_name := sample_name; t_cell := implCell; t_pc := p |}.

Definition sample_mid (n : nat) : process :=
  {| componentsByName := {[ sample_name := 1%positive ]};
     heap :=
       {[ 1%positive :=
            store implCell sample_failure
              (set_once implCell {| sync.done := false; sync.m := Some O |}
                 (new_component sample_name)) ]};
     runs := [(1%positive, implCell)];
     threads :=
       sample_caller (Ran 1%positive)
       :: replicate (n - 1) (sample_caller (AtLock 1%positive)) |}.

Definition sample_final (n : nat) : process :=
  {| componentsByName := {[ sample_name := 1%positive ]};
     heap :=
       {[ 1%positive :=
            store implCell sample_failure
              (set_once implCell {| sync.done := true; sync.m := None |}
                 (new_component sample_name)) ]};
     runs := [(1%positive, implCell)];
     threads := replicate n (sample_caller (Returned 1%positive sample_failure)) |}.

End weaver.

(** * Properties *)

(** ** Per-method metrics *)

Section MetricsProperties.

Import codegen.

Context {float64 : Type} (float64_of_int : Z -> float64).

Implicit Types (w : world float64) (m : MethodMetrics) (p q : loc).

Lemma Counter_Inc_live p w :
  is_Some (counters w !! p) ->
  Counter_Inc p w
  = Some (tt, set_counters (alter (with_value (fun v => v + 1)) p) w).
Proof. intros [c Hc]. unfold Counter_Inc. now rewrite Hc. Qed.

Lemma Histogram_Put_live p (v : float64) w :
  is_Some (histograms w !! p) ->
  Histogram_Put p v w
  = Some (tt, set_histograms (alter (with_value (fun o => o ++ [v])) p) w).
Proof. intros [c Hc]. unfold Histogram_Put. now rewrite Hc. Qed.

Lemma counter_value_inc_eq (cs : gmap loc (Metric Z)) p :
  is_Some (cs !! p) ->
  from_option m_value 0 (alter (with_value (fun v => v + 1)) p cs !! p)
  = from_option m_value 0 (cs !! p) + 1.
Proof. intros [c Hc]. rewrite lookup_alter_eq, Hc. reflexivity. Qed.

Lemma observations_put_eq (hs : gmap loc (Metric (list float64))) p v :
  is_Some (hs !! p) ->
  from_option m_value [] (alter (with_value (fun o => o ++ [v])) p hs !! p)
  = from_option m_value [] (hs !! p) ++ [v].
Proof. intros [c Hc]. rewrite lookup_alter_eq, Hc. reflexivity. Qed.

Lemma End_live m h failed requestBytes replyBytes w :
  is_Some (counters w !! Count m) ->
  is_Some (counters w !! ErrorCount m) ->
  is_Some (histograms w !! Latency m) ->
  is_Some (histograms w !! BytesRequest m) ->
  is_Some (histograms w !! BytesReply m) ->
  End float64_of_int m h failed requestBytes replyBytes w
  = Some (tt, set_histograms
                (End_histograms float64_of_int m (End_latency h w) requestBytes replyBytes)
                (set_counters (End_counters m failed) w)).
Proof.
  intros Hc He Hl Hq Hp.
  unfold End, bind, time_Since, End_counters, End_histograms, End_latency.
  rewrite (Counter_Inc_live _ _ Hc).
  destruct failed; simpl.
  - rewrite Counter_Inc_live
      by (simpl; now apply lookup_alter_is_Some).
    rewrite Histogram_Put_live by exact Hl.
    destruct (remote m); simpl; [|reflexivity].
    unfold bind.
    rewrite Histogram_Put_live
      by (simpl; now apply lookup_alter_is_Some).
    rewrite Histogram_Put_live
      by (simpl; now do 2 apply lookup_alter_is_Some).
    reflexivity.
  - unfold ret. rewrite Histogram_Put_live by exact Hl.
    destruct (remote m); simpl; [|reflexivity].
    unfold bind.
    rewrite Histogram_Put_live
      by (simpl; now apply lookup_alter_is_Some).
    rewrite Histogram_Put_live
      by (simpl; now do 2 apply lookup_alter_is_Some).
    reflexivity.
Qed.

Lemma five_instruments_live m w :
  five_instruments m w ->
  is_Some (counters w !! Count m) /\ is_Some (counters w !! ErrorCount m) /\
  is_Some (histograms w !! Latency m) /\
  is_Some (histograms w !! BytesRequest m) /\
  is_Some (histograms w !! BytesReply m).
Proof. unfold five_instruments. tauto. Qed.

Lemma End_counters_Count m failed w :
  five_instruments m w ->
  from_option m_value 0 (End_counters m failed (counters w) !! Count m)
  = counter_value w (Count m) + 1.
Proof.
  intros (Hc & _ & _ & _ & _ & Hce & _). unfold End_counters, counter_value.
  destruct failed.
  - rewrite lookup_alter_ne by congruence. now apply counter_value_inc_eq.
  - now apply counter_value_inc_eq.
Qed.

Lemma End_counters_ErrorCount m failed w :
  five_instruments m w ->
  from_option m_value 0 (End_counters m failed (counters w) !! ErrorCount m)
  = counter_value w (ErrorCount m) + (if failed then 1 else 0).
Proof.
  intros (_ & He & _ & _ & _ & Hce & _). unfold End_counters, counter_value.
  destruct failed.
  - rewrite counter_value_inc_eq by (apply lookup_alter_is_Some; exact He).
    now rewrite lookup_alter_ne by exact Hce.
  - rewrite lookup_alter_ne by exact Hce. symmetry. apply Z.add_0_r.
Qed.

Lemma End_histograms_Latency m latency requestBytes replyBytes w :
  five_instruments m w ->
  from_option m_value []
    (End_histograms float64_of_int m latency requestBytes replyBytes
       (histograms w) !! Latency m)
  = observations w (Latency m) ++ [float64_of_int latency].
Proof.
  intros (_ & _ & Hl & _ & _ & _ & Hlq & Hlp & _).
  unfold End_histograms, observations. destruct (remote m).
  - rewrite !lookup_alter_ne by congruence. now apply observations_put_eq.
  - now apply observations_put_eq.
Qed.

Lemma End_histograms_BytesRequest m latency requestBytes replyBytes w :
  five_instruments m w ->
  from_option m_value []
    (End_histograms float64_of_int m latency requestBytes replyBytes
       (histograms w) !! BytesRequest m)
  = observations w (BytesRequest m)
    ++ (if remote m then [float64_of_int requestBytes] else []).
Proof.
  intros (_ & _ & _ & Hq & _ & _ & Hlq & _ & Hqp).
  unfold End_histograms, observations. destruct (remote m).
  - rewrite lookup_alter_ne by congruence.
    rewrite observations_put_eq by (apply lookup_alter_is_Some; exact Hq).
    now rewrite lookup_alter_ne by exact Hlq.
  - rewrite lookup_alter_ne by exact Hlq. now rewrite app_nil_r.
Qed.

Lemma End_histograms_BytesReply m latency requestBytes replyBytes w :
  five_instruments m w ->
  from_option m_value []
    (End_histograms float64_of_int m latency requestBytes replyBytes
       (histograms w) !! BytesReply m)
  = observations w (BytesReply m)
    ++ (if remote m then [float64_of_int replyBytes] else []).
Proof.
  intros (_ & _ & _ & _ & Hp & _ & _ & Hlp & Hqp).
  unfold End_histograms, observations. destruct (remote m).
  - rewrite observations_put_eq by (do 2 apply lookup_alter_is_Some; exact Hp).
    now rewrite !lookup_alter_ne by congruence.
  - rewrite lookup_alter_ne by exact Hlp. now rewrite app_nil_r.
Qed.

Lemma End_five_instruments m h failed requestBytes replyBytes w :
  five_instruments m w ->
  End float64_of_int m h failed requestBytes replyBytes w
  = Some (tt, set_histograms
                (End_histograms float64_of_int m (End_latency h w) requestBytes replyBytes)
                (set_counters (End_counters m failed) w)).
Proof.
  intros Hm. destruct (five_instruments_live _ _ Hm) as (Hc & He & Hl & Hq & Hp).
  now apply End_live.
Qed.

Lemma Begin_eq m w :
  Begin m w = Some ({| start := {| time.ext := clock w |} |}, w).
Proof. reflexivity. Qed.

(** C4. For a [MethodMetrics] [m] (five instruments, as the data model has
    it), [m.End(h, failed, requestBytes, replyBytes)] returns, the invocation
    count has grown by exactly one, the error count by one when [failed] and
    by nothing otherwise, and the latency histogram has gained exactly one
    observation. *)
Theorem End_count_error_latency m h failed requestBytes replyBytes w :
  five_instruments m w ->
  exists w',
    End float64_of_int m h failed requestBytes replyBytes w = Some (tt, w') /\
    counter_value w' (Count m) = counter_value w (Count m) + 1 /\
    counter_value w' (ErrorCount m)
    = counter_value w (ErrorCount m) + (if failed then 1 else 0) /\
    observations w' (Latency m)
    = observations w (Latency m) ++ [float64_of_int (End_latency h w)].
Proof.
  intros Hm. eexists. split; [now apply End_five_instruments|].
  split; [|split].
  - exact (End_counters_Count m failed w Hm).
  - exact (End_counters_ErrorCount m failed w Hm).
  - exact (End_histograms_Latency m _ requestBytes replyBytes w Hm).
Qed.

(** C9. [m.Begin()] returns a handle holding the clock reading of the moment
    and leaves the whole process state, hence every instrument (invocation
    count, error count and the three histograms), as it was. *)
Theorem Begin_changes_nothing m w :
  exists h,
    Begin m w = Some (h, w) /\ start h = {| time.ext := clock w |}.
Proof. eexists. split; reflexivity. Qed.

(** *** Elapsed time *)

Lemma subMono_nonneg t u :
  time.int64_range t -> time.int64_range u -> u <= t ->
  0 <= time.subMono t u.
Proof.
  unfold time.int64_range, time.subMono, time.wrap64,
    time.maxDuration, time.minDuration.
  intros Ht Hu Hle.
  destruct (Z_lt_le_dec (t - u) (2 ^ 63)) as [Hs | Hb].
  - replace ((t - u + 2 ^ 63) mod 2 ^ 64 - 2 ^ 63) with (t - u)
      by (rewrite Z.mod_small; lia).
    destruct (t - u <? 0) eqn:E1; [apply Z.ltb_lt in E1; lia|].
    simpl. destruct (t <? u) eqn:E2; [apply Z.ltb_lt in E2; lia|].
    rewrite andb_false_r. lia.
  - replace ((t - u + 2 ^ 63) mod 2 ^ 64 - 2 ^ 63) with (t - u - 2 ^ 64).
    + destruct (t - u - 2 ^ 64 <? 0) eqn:E1; [|apply Z.ltb_ge in E1; lia].
      destruct (u <? t) eqn:E2; [simpl; lia|apply Z.ltb_ge in E2; lia].
    + replace (t - u + 2 ^ 63) with ((t - u - 2 ^ 63) + 1 * 2 ^ 64) by lia.
      rewrite Z.mod_add by lia. rewrite Z.mod_small; lia.
Qed.

Lemma Microseconds_nonneg d : 0 <= d -> 0 <= time.Microseconds d.
Proof. intros Hd. unfold time.Microseconds. apply Z.quot_pos; lia. Qed.

(** *** Instrument identities are stable *)

Lemma metric_id_weaken {V} (h h' : gmap loc (Metric V)) p x :
  h ⊆ h' -> metric_id h p = Some x -> metric_id h' p = Some x.
Proof.
  unfold metric_id. intros Hsub Hid.
  destruct (h !! p) as [c|] eqn:Hc; [|discriminate].
  now rewrite (lookup_weaken _ _ _ _ Hc Hsub).
Qed.

Lemma metric_id_alter {V} (f : V -> V) (h : gmap loc (Metric V)) q p :
  metric_id (alter (with_value f) q h) p = metric_id h p.
Proof.
  unfold metric_id. destruct (decide (q = p)) as [->|Hne].
  - rewrite lookup_alter_eq. now destruct (h !! p).
  - now rewrite lookup_alter_ne.
Qed.

Lemma metric_id_live {V} (h : gmap loc (Metric V)) p x :
  metric_id h p = Some x -> is_Some (h !! p).
Proof. unfold metric_id. destruct (h !! p); [eauto|discriminate]. Qed.

Lemma registered_weaken {V} name entries (h h' : gmap loc (Metric V)) :
  h ⊆ h' -> registered name entries h -> registered name entries h'.
Proof. intros Hsub Hr l p Hl. eapply metric_id_weaken; eauto. Qed.

Lemma MetricMap_Get_extends {V} (zero : V) name labels entries heap p e' h' :
  MetricMap_Get zero name labels entries heap = (p, e', h') -> heap ⊆ h'.
Proof.
  unfold MetricMap_Get. destruct (entries !! labels).
  - intros [= _ _ <-]. reflexivity.
  - intros [= _ _ <-]. apply insert_subseteq.
    apply not_elem_of_dom, is_fresh.
Qed.

Lemma MetricMap_Get_registered {V} (zero : V) name labels entries heap p e' h' :
  registered name entries heap ->
  MetricMap_Get zero name labels entries heap = (p, e', h') ->
  registered name e' h' /\ metric_id h' p = Some (name, labels).
Proof.
  intros Hr Hget. pose proof (MetricMap_Get_extends _ _ _ _ _ _ _ _ Hget) as Hsub.
  revert Hget Hsub. unfold MetricMap_Get.
  destruct (entries !! labels) as [q|] eqn:Hq.
  - intros [= <- <- <-] _. split; [exact Hr|]. now apply Hr.
  - intros [= <- <- <-] Hsub.
    assert (Hnew : metric_id
              (<[fresh (dom heap) :=
                   {| m_name := name; m_labels := labels; m_value := zero |}]> heap)
              (fresh (dom heap)) = Some (name, labels)).
    { unfold metric_id. now rewrite lookup_insert_eq. }
    split; [|exact Hnew].
    intros l q Hl. destruct (decide (labels = l)) as [->|Hne].
    + rewrite lookup_insert_eq in Hl. injection Hl as <-. exact Hnew.
    + rewrite lookup_insert_ne in Hl by exact Hne.
      eapply metric_id_weaken; [exact Hsub|]. now apply Hr.
Qed.

(** *** The five lookups of [MethodMetricsFor] *)

Lemma grows_trans w1 w2 w3 : grows w1 w2 -> grows w2 w3 -> grows w1 w3.
Proof.
  intros (Hc & Hh & Hk) (Hc' & Hh' & Hk'). repeat split.
  - now transitivity (counters w2).
  - now transitivity (histograms w2).
  - congruence.
Qed.

Ltac solve_Get_spec Hok :=
  let p := fresh "p" in let e := fresh "e" in let h := fresh "h" in
  let Hget := fresh "Hget" in
  match goal with
  | |- context [MetricMap_Get ?z ?n ?l ?en ?hp] =>
      destruct (MetricMap_Get z n l en hp) as [[p e] h] eqn:Hget
  end;
  pose proof (MetricMap_Get_extends _ _ _ _ _ _ _ _ Hget);
  destruct Hok as [H1 H2 H3 H4 H5 H6];
  first
    [ destruct (MetricMap_Get_registered _ _ _ _ _ _ _ _ H1 Hget)
    | destruct (MetricMap_Get_registered _ _ _ _ _ _ _ _ H2 Hget)
    | destruct (MetricMap_Get_registered _ _ _ _ _ _ _ _ H3 Hget)
    | destruct (MetricMap_Get_registered _ _ _ _ _ _ _ _ H4 Hget)
    | destruct (MetricMap_Get_registered _ _ _ _ _ _ _ _ H5 Hget) ];
  eexists _, _; split; [reflexivity|];
  split; [|split; [assumption|repeat split; simpl; (assumption || reflexivity)]];
  constructor; simpl; eauto using registered_weaken.

Lemma MethodCounts_Get_spec labels w :
  world_ok w ->
  exists p w', MethodCounts_Get float64 labels w = Some (p, w') /\ world_ok w' /\
    metric_id (counters w') p = Some (MethodCounts_name, labels) /\ grows w w'.
Proof. intros Hok. unfold MethodCounts_Get. solve_Get_spec Hok. Qed.

Lemma MethodErrors_Get_spec labels w :
  world_ok w ->
  exists p w', MethodErrors_Get float64 labels w = Some (p, w') /\ world_ok w' /\
    metric_id (counters w') p = Some (MethodErrors_name, labels) /\ grows w w'.
Proof. intros Hok. unfold MethodErrors_Get. solve_Get_spec Hok. Qed.

Lemma MethodLatencies_Get_spec labels w :
  world_ok w ->
  exists p w', MethodLatencies_Get float64 labels w = Some (p, w') /\ world_ok w' /\
    metric_id (histograms w') p = Some (MethodLatencies_name, labels) /\ grows w w'.
Proof. intros Hok. unfold MethodLatencies_Get. solve_Get_spec Hok. Qed.

Lemma MethodBytesRequest_Get_spec labels w :
  world_ok w ->
  exists p w', MethodBytesRequest_Get float64 labels w = Some (p, w') /\ world_ok w' /\
    metric_id (histograms w') p = Some (MethodBytesRequest_name, labels) /\ grows w w'.
Proof. intros Hok. unfold MethodBytesRequest_Get. solve_Get_spec Hok. Qed.

Lemma MethodBytesReply_Get_spec labels w :
  world_ok w ->
  exists p w', MethodBytesReply_Get float64 labels w = Some (p, w') /\ world_ok w' /\
    metric_id (histograms w') p = Some (MethodBytesReply_name, labels) /\ grows w w'.
Proof. intros Hok. unfold MethodBytesReply_Get. solve_Get_spec Hok. Qed.

Lemma grows_extends w w' : grows w w' -> extends w w'.
Proof.
  intros (Hc & Hh & Hk). repeat split.
  - intros p x. now apply metric_id_weaken.
  - intros p x. now apply metric_id_weaken.
  - lia.
Qed.

Lemma extends_refl w : extends w w.
Proof. repeat split; auto. lia. Qed.

Lemma extends_trans w1 w2 w3 : extends w1 w2 -> extends w2 w3 -> extends w1 w3.
Proof.
  intros (Hc & Hh & Hk) (Hc' & Hh' & Hk'). repeat split; auto. lia.
Qed.

Lemma MethodMetricsFor_spec labels w :
  world_ok w ->
  exists m w', MethodMetricsFor labels w = Some (m, w') /\ world_ok w' /\
    bundle_for labels m w' /\ grows w w'.
Proof.
  intros Hok0.
  destruct (MethodCounts_Get_spec labels _ Hok0) as (c & w1 & E1 & Hok1 & Ic & G1).
  destruct (MethodErrors_Get_spec labels _ Hok1) as (e & w2 & E2 & Hok2 & Ie & G2).
  destruct (MethodLatencies_Get_spec labels _ Hok2) as (l & w3 & E3 & Hok3 & Il & G3).
  destruct (MethodBytesRequest_Get_spec labels _ Hok3) as (rq & w4 & E4 & Hok4 & Iq & G4).
  destruct (MethodBytesReply_Get_spec labels _ Hok4) as (rp & w5 & E5 & Hok5 & Ip & G5).
  exists {| remote := Remote labels; Count := c; ErrorCount := e;
            Latency := l; BytesRequest := rq; BytesReply := rp |}, w5.
  split; [|split; [exact Hok5|split]].
  - unfold MethodMetricsFor, bind. now rewrite E1, E2, E3, E4, E5.
  - pose proof (grows_extends _ _ G2) as (X2 & _ & _).
    pose proof (grows_extends _ _ G3) as (X3 & _ & _).
    pose proof (grows_extends _ _ G4) as (X4 & Y4 & _).
    pose proof (grows_extends _ _ G5) as (X5 & Y5 & _).
    unfold bundle_for; simpl. repeat split; auto 10.
  - eauto using grows_trans.
Qed.

Lemma bundle_for_extends labels m w w' :
  extends w w' -> bundle_for labels m w -> bundle_for labels m w'.
Proof.
  intros (Hc & Hh & _) (Hr & H1 & H2 & H3 & H4 & H5).
  unfold bundle_for. repeat split; auto.
Qed.

(** The bundle registered under a label set has five instruments: the five
    metric names differ. *)
Lemma bundle_for_five_instruments labels m w :
  bundle_for labels m w -> five_instruments m w.
Proof.
  intros (Hr & H1 & H2 & H3 & H4 & H5).
  unfold five_instruments.
  repeat split; eauto using metric_id_live; intros Heq.
  - rewrite Heq, H2 in H1. discriminate.
  - rewrite Heq, H4 in H3. discriminate.
  - rewrite Heq, H5 in H3. discriminate.
  - rewrite Heq, H5 in H4. discriminate.
Qed.

(** *** What a step preserves *)

Lemma keeps_refl w : keeps w w.
Proof. unfold keeps. tauto. Qed.

Lemma keeps_trans w1 w2 w3 : keeps w1 w2 -> keeps w2 w3 -> keeps w1 w3.
Proof.
  unfold keeps.
  intros (A1 & A2 & A3 & A4 & A5 & A6 & A7 & A8)
         (B1 & B2 & B3 & B4 & B5 & B6 & B7 & B8).
  repeat split; congruence.
Qed.

Lemma keeps_extends w w' : keeps w w' -> extends w w'.
Proof.
  intros (_ & _ & _ & _ & _ & Hk & Hc & Hh). repeat split.
  - intros p x. now rewrite Hc.
  - intros p x. now rewrite Hh.
  - lia.
Qed.

Lemma keeps_world_ok w w' : keeps w w' -> world_ok w -> world_ok w'.
Proof.
  intros (A1 & A2 & A3 & A4 & A5 & A6 & A7 & A8) [H1 H2 H3 H4 H5 H6].
  constructor; unfold registered in *.
  - rewrite A1. intros l p Hl. rewrite A7. eauto.
  - rewrite A2. intros l p Hl. rewrite A7. eauto.
  - rewrite A3. intros l p Hl. rewrite A8. eauto.
  - rewrite A4. intros l p Hl. rewrite A8. eauto.
  - rewrite A5. intros l p Hl. rewrite A8. eauto.
  - now rewrite A6.
Qed.

Lemma bind_Some {A B} (c : M float64 A) (k : A -> M float64 B) w b w'' :
  bind c k w = Some (b, w'') ->
  exists a w', c w = Some (a, w') /\ k a w' = Some (b, w'').
Proof.
  unfold bind. destruct (c w) as [[a w']|]; [eauto|discriminate].
Qed.

Lemma Counter_Inc_keeps p w u w' : Counter_Inc p w = Some (u, w') -> keeps w w'.
Proof.
  unfold Counter_Inc. destruct (counters w !! p); [|discriminate].
  intros [= _ <-]. unfold keeps; simpl. repeat split; auto.
  intros q. apply metric_id_alter.
Qed.

Lemma Histogram_Put_keeps p v w u w' :
  Histogram_Put p v w = Some (u, w') -> keeps w w'.
Proof.
  unfold Histogram_Put. destruct (histograms w !! p); [|discriminate].
  intros [= _ <-]. unfold keeps; simpl. repeat split; auto.
  intros q. apply metric_id_alter.
Qed.

Lemma End_keeps m h failed requestBytes replyBytes w u w' :
  End float64_of_int m h failed requestBytes replyBytes w = Some (u, w') ->
  keeps w w'.
Proof.
  unfold End. intros H.
  apply bind_Some in H as (d & w0 & H0 & H). injection H0 as _ <-.
  apply bind_Some in H as (? & w1 & H1 & H). apply Counter_Inc_keeps in H1.
  apply bind_Some in H as (? & w2 & H2 & H).
  assert (K2 : keeps w1 w2).
  { destruct failed; simpl in H2.
    - now apply Counter_Inc_keeps in H2.
    - injection H2 as _ <-. apply keeps_refl. }
  apply bind_Some in H as (? & w3 & H3 & H). apply Histogram_Put_keeps in H3.
  assert (K4 : keeps w3 w').
  { destruct (remote m); simpl in H.
    - apply bind_Some in H as (? & w4 & H4 & H).
      apply Histogram_Put_keeps in H4, H. eauto using keeps_trans.
    - injection H as _ <-. apply keeps_refl. }
  eauto using keeps_trans.
Qed.

Lemma step_ok w w' :
  world_ok w -> step float64_of_int w w' -> world_ok w' /\ extends w w'.
Proof.
  intros Hok Hstep. destruct Hstep as [w d Hd Hr|l w m w' H|m w h w' H|m h f rq rp w w' H].
  - split.
    + destruct Hok. constructor; auto.
    + repeat split; simpl; auto. lia.
  - destruct (MethodMetricsFor_spec l w Hok) as (m' & w'' & E & Hok' & _ & G).
    rewrite E in H. injection H as _ <-. auto using grows_extends.
  - injection H as _ <-. auto using extends_refl.
  - apply End_keeps in H. eauto using keeps_world_ok, keeps_extends.
Qed.

Lemma elapses_ok w w' :
  world_ok w -> elapses float64_of_int w w' -> world_ok w' /\ extends w w'.
Proof.
  intros Hok Hsteps. induction Hsteps as [w|w1 w2 w3 H12 _ IH].
  - auto using extends_refl.
  - destruct (step_ok _ _ Hok H12) as (Hok2 & X12).
    destruct (IH Hok2) as (Hok3 & X23). eauto using extends_trans.
Qed.

Lemma init_world_ok now : time.int64_range now -> world_ok (init_world float64 now).
Proof.
  intros Hnow.
  constructor; simpl; try exact Hnow; intros l p Hl;
    rewrite lookup_empty in Hl; discriminate.
Qed.

(** A state the process can be in: it started with empty metric maps and
    ran the operations of this file while time passed. *)
Lemma reachable_ok now w :
  time.int64_range now -> elapses float64_of_int (init_world float64 now) w ->
  world_ok w.
Proof.
  intros Hnow Hel.
  now destruct (elapses_ok _ _ (init_world_ok now Hnow) Hel).
Qed.

(** Every bundle the process itself makes has five instruments, then and
    ever after. *)
Lemma MethodMetricsFor_five_instruments now labels w0 m w1 w :
  time.int64_range now ->
  elapses float64_of_int (init_world float64 now) w0 ->
  MethodMetricsFor labels w0 = Some (m, w1) ->
  elapses float64_of_int w1 w ->
  five_instruments m w.
Proof.
  intros Hnow Hreach Hfor Hel.
  pose proof (reachable_ok now w0 Hnow Hreach) as Hok0.
  destruct (MethodMetricsFor_spec labels w0 Hok0) as (m' & w1' & E & Hok1 & Hb1 & _).
  rewrite E in Hfor. injection Hfor as <- <-.
  destruct (elapses_ok _ _ Hok1 Hel) as (_ & Hext).
  eauto using bundle_for_five_instruments, bundle_for_extends.
Qed.

(** C5. In any state of the process, the bundle [MethodMetricsFor(labels)]
    returns exists, and whenever [End] is later called on it, the call
    returns and the request-size histogram has gained the one observation
    [float64(requestBytes)] and the reply-size histogram the one observation
    [float64(replyBytes)] when [labels.Remote] is true, and both are as they
    were when it is false. *)
Theorem MethodMetricsFor_End_bytes now labels w0 :
  time.int64_range now ->
  elapses float64_of_int (init_world float64 now) w0 ->
  exists m w1,
    MethodMetricsFor labels w0 = Some (m, w1) /\
    forall w, elapses float64_of_int w1 w ->
    forall h failed requestBytes replyBytes,
    exists w',
      End float64_of_int m h failed requestBytes replyBytes w = Some (tt, w') /\
      observations w' (BytesRequest m)
      = observations w (BytesRequest m)
        ++ (if Remote labels then [float64_of_int requestBytes] else []) /\
      observations w' (BytesReply m)
      = observations w (BytesReply m)
        ++ (if Remote labels then [float64_of_int replyBytes] else []).
Proof.
  intros Hnow Hreach. pose proof (reachable_ok now w0 Hnow Hreach) as Hok0.
  destruct (MethodMetricsFor_spec labels w0 Hok0) as (m & w1 & E & Hok1 & Hb1 & _).
  exists m, w1. split; [exact E|].
  intros w Hel h failed requestBytes replyBytes.
  destruct (elapses_ok _ _ Hok1 Hel) as (_ & Hext).
  pose proof (bundle_for_extends _ _ _ _ Hext Hb1) as Hb.
  pose proof (bundle_for_five_instruments _ _ _ Hb) as Hm.
  destruct Hb as (Hr & _). rewrite <- Hr.
  eexists. split; [now apply End_five_instruments|]. split.
  - exact (End_histograms_BytesRequest m _ requestBytes replyBytes w Hm).
  - exact (End_histograms_BytesReply m _ requestBytes replyBytes w Hm).
Qed.

(** C8. In any state of the process, when [h] is the handle [m.Begin()]
    returns and [m.End(h, ...)] is called at any later moment, the one
    observation the latency histogram gains is [float64] of a non-negative
    number of microseconds. *)
Theorem Begin_End_latency_nonneg now m w0 h w1 w failed requestBytes replyBytes :
  time.int64_range now ->
  elapses float64_of_int (init_world float64 now) w0 ->
  Begin m w0 = Some (h, w1) ->
  elapses float64_of_int w1 w ->
  five_instruments m w ->
  exists w',
    End float64_of_int m h failed requestBytes replyBytes w = Some (tt, w') /\
    0 <= End_latency h w /\
    observations w' (Latency m)
    = observations w (Latency m) ++ [float64_of_int (End_latency h w)].
Proof.
  intros Hnow Hreach Hbegin Hel Hm.
  pose proof (reachable_ok now w0 Hnow Hreach) as Hok0.
  rewrite Begin_eq in Hbegin. injection Hbegin as <- <-.
  destruct (elapses_ok _ _ Hok0 Hel) as (Hok & _ & _ & Hclock).
  eexists. split; [now apply End_five_instruments|]. split.
  - unfold End_latency; simpl.
    apply Microseconds_nonneg, subMono_nonneg; auto using ok_clock.
  - exact (End_histograms_Latency m _ requestBytes replyBytes w Hm).
Qed.

End MetricsProperties.

(** *** The metrics properties at the sample state *)

Lemma sample_five_instruments (now : Z) :
  codegen.five_instruments codegen.sample_metrics
    (codegen.set_clock now codegen.sample_world).
Proof.
  unfold codegen.five_instruments; simpl.
  repeat split; try (eexists; reflexivity); discriminate.
Qed.

Lemma sample_world_reached :
  codegen.MethodMetricsFor codegen.sample_labels (codegen.init_world Z 1000000)
  = Some (codegen.sample_metrics, codegen.sample_world).
Proof. vm_compute. reflexivity. Qed.

Lemma sample_world_reachable :
  codegen.elapses (fun z => z) (codegen.init_world Z 1000000) codegen.sample_world.
Proof.
  apply rtc_once.
  exact (codegen.step_MethodMetricsFor Z (fun z => z) _ _ _ _ sample_world_reached).
Qed.

Lemma sample_now_in_range : time.int64_range 1000000.
Proof. unfold time.int64_range. lia. Qed.

Lemma End_count_error_latency_witness :
  codegen.five_instruments codegen.sample_metrics
    (codegen.set_clock 1005000 codegen.sample_world) /\
  exists w',
    codegen.End (fun z => z) codegen.sample_metrics
      {| codegen.start := {| time.ext := 1000000 |} |} true 10 20
      (codegen.set_clock 1005000 codegen.sample_world) = Some (tt, w') /\
    codegen.counter_value w' 1%positive = 0 + 1 /\
    codegen.counter_value w' 2%positive = 0 + 1 /\
    codegen.observations w' 1%positive = [5].
Proof.
  split; [apply sample_five_instruments|].
  exact (End_count_error_latency (fun z => z) codegen.sample_metrics
           {| codegen.start := {| time.ext := 1000000 |} |} true 10 20
           (codegen.set_clock 1005000 codegen.sample_world)
           (sample_five_instruments 1005000)).
Defined.

Lemma MethodMetricsFor_End_bytes_witness :
  time.int64_range 1000000 /\
  codegen.elapses (fun z => z) (codegen.init_world Z 1000000) codegen.sample_world /\
  exists m w1,
    codegen.MethodMetricsFor codegen.sample_labels codegen.sample_world
    = Some (m, w1) /\
    forall w, codegen.elapses (fun z => z) w1 w ->
    forall h failed requestBytes replyBytes,
    exists w',
      codegen.End (fun z => z) m h failed requestBytes replyBytes w = Some (tt, w') /\
      codegen.observations w' (codegen.BytesRequest m)
      = codegen.observations w (codegen.BytesRequest m) ++ [requestBytes] /\
      codegen.observations w' (codegen.BytesReply m)
      = codegen.observations w (codegen.BytesReply m) ++ [replyBytes].
Proof.
  split; [exact sample_now_in_range|]. split; [exact sample_world_reachable|].
  exact (MethodMetricsFor_End_bytes (fun z => z) 1000000 codegen.sample_labels
           codegen.sample_world sample_now_in_range sample_world_reachable).
Defined.

Lemma Begin_End_latency_nonneg_witness :
  time.int64_range 1000000 /\
  codegen.elapses (fun z => z) (codegen.init_world Z 1000000) codegen.sample_world /\
  codegen.Begin codegen.sample_metrics codegen.sample_world
  = Some ({| codegen.start := {| time.ext := 1000000 |} |}, codegen.sample_world) /\
  codegen.elapses (fun z => z) codegen.sample_world
    (codegen.set_clock (1000000 + 5000) codegen.sample_world) /\
  exists w',
    codegen.End (fun z => z) codegen.sample_metrics
      {| codegen.start := {| time.ext := 1000000 |} |} false 10 20
      (codegen.set_clock (1000000 + 5000) codegen.sample_world) = Some (tt, w') /\
    0 <= 5 /\
    codegen.observations w' 1%positive = [5].
Proof.
  assert (Hel : codegen.elapses (fun z => z) codegen.sample_world
                  (codegen.set_clock (1000000 + 5000) codegen.sample_world)).
  { apply rtc_once.
    apply (codegen.step_tick Z (fun z => z) codegen.sample_world 5000).
    - lia.
    - unfold time.int64_range. simpl. lia. }
  split; [exact sample_now_in_range|]. split; [exact sample_world_reachable|].
  split; [reflexivity|]. split; [exact Hel|].
  exact (Begin_End_latency_nonneg (fun z => z) 1000000 codegen.sample_metrics
           codegen.sample_world _ codegen.sample_world _ false 10 20
           sample_now_in_range sample_world_reachable eq_refl Hel
           (sample_five_instruments _)).
Defined.

(** Why five instruments are asked for: a bundle whose invocation count and
    error count are one and the same counter is not such a bundle, and a
    failed call raises that counter twice. *)
Example End_on_a_shared_counter :
  let m := {| codegen.remote := false;
              codegen.Count := 1%positive; codegen.ErrorCount := 1%positive;
              codegen.Latency := 1%positive; codegen.BytesRequest := 2%positive;
              codegen.BytesReply := 3%positive |} in
  (fun r => codegen.counter_value (snd r) 1%positive)
    <$> codegen.End (fun z => z) m {| codegen.start := {| time.ext := 0 |} |}
          true 10 20 codegen.sample_world
  = Some (0 + 2).
Proof. vm_compute. reflexivity. Qed.

(** ** Per-method metrics, further properties *)

Section MetricsBeyond.

Import codegen.

Context {float64 : Type} (float64_of_int : Z -> float64).

Implicit Types (w : world float64) (m : MethodMetrics) (p q : loc).

(** *** When [End] returns, and what it writes *)

Lemma Counter_Inc_Some p w u w' :
  Counter_Inc p w = Some (u, w') ->
  is_Some (counters w !! p) /\
  w' = set_counters (alter (with_value (fun v => v + 1)) p) w.
Proof.
  unfold Counter_Inc. destruct (counters w !! p) eqn:E; [|discriminate].
  intros [= _ <-]. eauto.
Qed.

Lemma Histogram_Put_Some p (v : float64) w u w' :
  Histogram_Put p v w = Some (u, w') ->
  is_Some (histograms w !! p) /\
  w' = set_histograms (alter (with_value (fun o => o ++ [v])) p) w.
Proof.
  unfold Histogram_Put. destruct (histograms w !! p) eqn:E; [|discriminate].
  intros [= _ <-]. eauto.
Qed.

Lemma End_Some m h failed requestBytes replyBytes w u w' :
  End float64_of_int m h failed requestBytes replyBytes w = Some (u, w') ->
  (is_Some (counters w !! Count m) /\
   (failed = true -> is_Some (counters w !! ErrorCount m)) /\
   is_Some (histograms w !! Latency m) /\
   (remote m = true ->
    is_Some (histograms w !! BytesRequest m) /\
    is_Some (histograms w !! BytesReply m))) /\
  w' = set_histograms
         (End_histograms float64_of_int m (End_latency h w) requestBytes replyBytes)
         (set_counters (End_counters m failed) w).
Proof.
  unfold End. intros H.
  apply bind_Some in H as (d & w0 & H0 & H).
  unfold time_Since in H0. injection H0 as <- <-.
  apply bind_Some in H as (? & w1 & H1 & H).
  apply Counter_Inc_Some in H1 as (Lc & ->).
  apply bind_Some in H as (? & w2 & H2 & H).
  unfold End_counters, End_histograms, End_latency.
  destruct failed; simpl in H2.
  - apply Counter_Inc_Some in H2 as (Le & ->). simpl in Le.
    apply lookup_alter_is_Some in Le.
    apply bind_Some in H as (? & w3 & H3 & H).
    apply Histogram_Put_Some in H3 as (Ll & ->). simpl in Ll.
    destruct (remote m); simpl in H.
    + apply bind_Some in H as (? & w4 & H4 & H).
      apply Histogram_Put_Some in H4 as (Lq & ->). simpl in Lq.
      apply lookup_alter_is_Some in Lq.
      apply Histogram_Put_Some in H as (Lp & ->). simpl in Lp.
      do 2 apply lookup_alter_is_Some in Lp.
      repeat split; auto.
    + injection H as _ <-. repeat split; auto; discriminate.
  - injection H2 as _ <-.
    apply bind_Some in H as (? & w3 & H3 & H).
    apply Histogram_Put_Some in H3 as (Ll & ->). simpl in Ll.
    destruct (remote m); simpl in H.
    + apply bind_Some in H as (? & w4 & H4 & H).
      apply Histogram_Put_Some in H4 as (Lq & ->). simpl in Lq.
      apply lookup_alter_is_Some in Lq.
      apply Histogram_Put_Some in H as (Lp & ->). simpl in Lp.
      do 2 apply lookup_alter_is_Some in Lp.
      repeat split; auto; discriminate.
    + injection H as _ <-. repeat split; auto; discriminate.
Qed.

Lemma End_needed m h failed requestBytes replyBytes w :
  is_Some (counters w !! Count m) ->
  (failed = true -> is_Some (counters w !! ErrorCount m)) ->
  is_Some (histograms w !! Latency m) ->
  (remote m = true ->
   is_Some (histograms w !! BytesRequest m) /\
   is_Some (histograms w !! BytesReply m)) ->
  is_Some (End float64_of_int m h failed requestBytes replyBytes w).
Proof.
  intros Hc He Hl Hb.
  unfold End, bind, time_Since.
  rewrite (Counter_Inc_live _ _ Hc).
  destruct failed; simpl.
  - rewrite Counter_Inc_live
      by (simpl; apply lookup_alter_is_Some; auto).
    rewrite Histogram_Put_live by exact Hl.
    destruct (remote m); simpl; [|eauto].
    destruct Hb as [Hq Hp]; [reflexivity|].
    unfold bind.
    rewrite Histogram_Put_live
      by (simpl; now apply lookup_alter_is_Some).
    rewrite Histogram_Put_live
      by (simpl; now do 2 apply lookup_alter_is_Some).
    eauto.
  - unfold ret. rewrite Histogram_Put_live by exact Hl.
    destruct (remote m); simpl; [|eauto].
    destruct Hb as [Hq Hp]; [reflexivity|].
    unfold bind.
    rewrite Histogram_Put_live
      by (simpl; now apply lookup_alter_is_Some).
    rewrite Histogram_Put_live
      by (simpl; now do 2 apply lookup_alter_is_Some).
    eauto.
Qed.

(** X1. [End] returns exactly when the instruments it uses are there: the
    invocation count and the latency histogram; the error count, but only
    for a failed call; the two byte-size histograms, but only in a bundle
    for remote calls.  With one of these nil it panics; pointers it does not
    use may be nil. *)
Theorem End_returns_iff m h failed requestBytes replyBytes w :
  is_Some (End float64_of_int m h failed requestBytes replyBytes w) <->
  is_Some (counters w !! Count m) /\
  (failed = true -> is_Some (counters w !! ErrorCount m)) /\
  is_Some (histograms w !! Latency m) /\
  (remote m = true ->
   is_Some (histograms w !! BytesRequest m) /\
   is_Some (histograms w !! BytesReply m)).
Proof.
  split.
  - intros [[u w'] H]. now apply End_Some in H as [H _].
  - intros (Hc & He & Hl & Hb). now apply End_needed.
Qed.

Lemma End_counters_other m failed (cs : gmap loc (Metric Z)) p :
  p <> Count m -> (failed = true -> p <> ErrorCount m) ->
  End_counters m failed cs !! p = cs !! p.
Proof.
  intros Hc He. unfold End_counters. destruct failed.
  - specialize (He eq_refl). rewrite !lookup_alter_ne by congruence. reflexivity.
  - rewrite lookup_alter_ne by congruence. reflexivity.
Qed.

Lemma End_histograms_other m latency requestBytes replyBytes
    (hs : gmap loc (Metric (list float64))) p :
  p <> Latency m ->
  (remote m = true -> p <> BytesRequest m /\ p <> BytesReply m) ->
  End_histograms float64_of_int m latency requestBytes replyBytes hs !! p = hs !! p.
Proof.
  intros Hl Hb. unfold End_histograms. destruct (remote m).
  - destruct Hb as [Hq Hp]; [reflexivity|].
    rewrite !lookup_alter_ne by congruence. reflexivity.
  - rewrite lookup_alter_ne by congruence. reflexivity.
Qed.

(** X2. [End] writes to the instruments of its bundle and to nothing else:
    the five metric maps, the clock and the identity of every instrument
    are as before (nothing is created, nothing removed); every counter
    other than the invocation count and, for a failed call, the error count
    is untouched; so is every histogram other than the latency histogram
    and, in a bundle for remote calls, the two byte-size histograms. *)
Theorem End_writes_only_its_instruments m h failed requestBytes replyBytes w u w' :
  End float64_of_int m h failed requestBytes replyBytes w = Some (u, w') ->
  keeps w w' /\
  (forall p, p <> Count m -> (failed = true -> p <> ErrorCount m) ->
     counters w' !! p = counters w !! p) /\
  (forall p, p <> Latency m ->
     (remote m = true -> p <> BytesRequest m /\ p <> BytesReply m) ->
     histograms w' !! p = histograms w !! p).
Proof.
  intros H. split; [exact (End_keeps float64_of_int _ _ _ _ _ _ _ _ H)|].
  apply End_Some in H as [_ ->]. split.
  - intros p. apply End_counters_other.
  - intros p. apply End_histograms_other.
Qed.

(** *** The lookups of [MethodMetricsFor], read backwards *)

Lemma MetricMap_Get_inv {V} (zero : V) name labels entries heap p e' h' :
  MetricMap_Get zero name labels entries heap = (p, e', h') ->
  e' !! labels = Some p /\ entries ⊆ e' /\ heap ⊆ h' /\
  match entries !! labels with
  | Some q => p = q /\ e' = entries /\ h' = heap
  | None =>
      heap !! p = None /\
      h' = <[p := {| m_name := name; m_labels := labels; m_value := zero |}]> heap
  end.
Proof.
  unfold MetricMap_Get. destruct (entries !! labels) as [q|] eqn:E.
  - intros [= <- <- <-]. repeat split; (assumption || reflexivity).
  - intros [= <- <- <-].
    assert (Hf : heap !! fresh (dom heap) = None)
      by apply not_elem_of_dom, is_fresh.
    repeat split; auto.
    + apply lookup_insert_eq.
    + now apply insert_subseteq.
    + now apply insert_subseteq.
Qed.

Lemma MethodMetricsFor_inv labels w m w' :
  MethodMetricsFor labels w = Some (m, w') ->
  exists e1 h1 e2 h2 e3 g3 e4 g4 e5 g5,
    MetricMap_Get 0 MethodCounts_name labels (MethodCounts w) (counters w)
    = (Count m, e1, h1) /\
    MetricMap_Get 0 MethodErrors_name labels (MethodErrors w) h1
    = (ErrorCount m, e2, h2) /\
    MetricMap_Get [] MethodLatencies_name labels (MethodLatencies w) (histograms w)
    = (Latency m, e3, g3) /\
    MetricMap_Get [] MethodBytesRequest_name labels (MethodBytesRequest w) g3
    = (BytesRequest m, e4, g4) /\
    MetricMap_Get [] MethodBytesReply_name labels (MethodBytesReply w) g4
    = (BytesReply m, e5, g5) /\
    remote m = Remote labels /\
    w' = {| counters := h2; histograms := g5;
            MethodCounts := e1; MethodErrors := e2; MethodLatencies := e3;
            MethodBytesRequest := e4; MethodBytesReply := e5; clock := clock w |}.
Proof.
  unfold MethodMetricsFor, bind, ret.
  unfold MethodCounts_Get at 1.
  destruct (MetricMap_Get 0 MethodCounts_name labels (MethodCounts w) (counters w))
    as [[c e1] h1] eqn:G1.
  unfold MethodErrors_Get at 1; simpl.
  destruct (MetricMap_Get 0 MethodErrors_name labels (MethodErrors w) h1)
    as [[e e2] h2] eqn:G2.
  unfold MethodLatencies_Get at 1; simpl.
  destruct (MetricMap_Get [] MethodLatencies_name labels (MethodLatencies w) (histograms w))
    as [[l e3] g3] eqn:G3.
  unfold MethodBytesRequest_Get at 1; simpl.
  destruct (MetricMap_Get [] MethodBytesRequest_name labels (MethodBytesRequest w) g3)
    as [[rq e4] g4] eqn:G4.
  unfold MethodBytesReply_Get at 1; simpl.
  destruct (MetricMap_Get [] MethodBytesReply_name labels (MethodBytesReply w) g4)
    as [[rp e5] g5] eqn:G5.
  intros [= <- <-]. simpl.
  exists e1, h1, e2, h2, e3, g3, e4, g4, e5, g5. repeat split; assumption.
Qed.

(** *** Bundles of different label sets *)

Lemma metric_id_ne {V} (heap : gmap loc (Metric V)) p q x y :
  metric_id heap p = Some x -> metric_id heap q = Some y -> x <> y -> p <> q.
Proof. intros Hp Hq Hne ->. congruence. Qed.

Lemma bundle_for_apart l1 l2 m1 m2 w :
  bundle_for l1 m1 w -> bundle_for l2 m2 w -> l1 <> l2 ->
  (Count m2 <> Count m1 /\ Count m2 <> ErrorCount m1 /\
   ErrorCount m2 <> Count m1 /\ ErrorCount m2 <> ErrorCount m1) /\
  (Latency m2 <> Latency m1 /\ Latency m2 <> BytesRequest m1 /\
   Latency m2 <> BytesReply m1 /\
   BytesRequest m2 <> Latency m1 /\ BytesRequest m2 <> BytesRequest m1 /\
   BytesRequest m2 <> BytesReply m1 /\
   BytesReply m2 <> Latency m1 /\ BytesReply m2 <> BytesRequest m1 /\
   BytesReply m2 <> BytesReply m1).
Proof.
  intros (_ & A1 & A2 & A3 & A4 & A5) (_ & B1 & B2 & B3 & B4 & B5) Hne.
  repeat split;
    (eapply metric_id_ne; [eassumption|eassumption|]);
    intros [= ]; congruence.
Qed.

(** X4. Bundles of different label sets share nothing: when [m1] and [m2]
    are the bundles registered under two different label sets (two methods,
    two callers, or the local and the remote calls of one method), [End] on
    [m1] leaves the five readings of [m2] as they were. *)
Theorem End_leaves_other_labels l1 l2 m1 m2 h failed requestBytes replyBytes w u w' :
  bundle_for l1 m1 w -> bundle_for l2 m2 w -> l1 <> l2 ->
  End float64_of_int m1 h failed requestBytes replyBytes w = Some (u, w') ->
  counter_value w' (Count m2) = counter_value w (Count m2) /\
  counter_value w' (ErrorCount m2) = counter_value w (ErrorCount m2) /\
  observations w' (Latency m2) = observations w (Latency m2) /\
  observations w' (BytesRequest m2) = observations w (BytesRequest m2) /\
  observations w' (BytesReply m2) = observations w (BytesReply m2).
Proof.
  intros Hb1 Hb2 Hne H.
  destruct (bundle_for_apart _ _ _ _ _ Hb1 Hb2 Hne)
    as ((C1 & C2 & C3 & C4) & D1 & D2 & D3 & D4 & D5 & D6 & D7 & D8 & D9).
  apply End_Some in H as [_ ->].
  unfold counter_value, observations.
  cbn [counters histograms set_counters set_histograms].
  rewrite !End_counters_other, !End_histograms_other by auto.
  auto.
Qed.

(** *** What [MethodMetricsFor] makes *)

(** X6. [MethodMetricsFor] wires each field of the bundle to the metric map
    of that field.  In any state of the process the call returns; the bundle
    has the labels' [Remote] flag, its invocation count is the counter
    created under the name of [MethodCounts] and these labels, its error
    count the one created under the name of [MethodErrors], and its three
    histograms the ones created under the names of [MethodLatencies],
    [MethodBytesRequest] and [MethodBytesReply] (it is the bundle
    [bundle_for] describes); and that stays so whatever the process does
    afterwards. *)
Theorem MethodMetricsFor_bundle now labels w0 :
  time.int64_range now ->
  elapses float64_of_int (init_world float64 now) w0 ->
  exists m w1,
    MethodMetricsFor labels w0 = Some (m, w1) /\
    forall w, elapses float64_of_int w1 w ->
      remote m = Remote labels /\
      metric_id (counters w) (Count m) = Some (MethodCounts_name, labels) /\
      metric_id (counters w) (ErrorCount m) = Some (MethodErrors_name, labels) /\
      metric_id (histograms w) (Latency m) = Some (MethodLatencies_name, labels) /\
      metric_id (histograms w) (BytesRequest m)
      = Some (MethodBytesRequest_name, labels) /\
      metric_id (histograms w) (BytesReply m)
      = Some (MethodBytesReply_name, labels).
Proof.
  intros Hnow Hreach.
  pose proof (reachable_ok float64_of_int now w0 Hnow Hreach) as Hok0.
  destruct (MethodMetricsFor_spec labels w0 Hok0) as (m & w1 & E & Hok1 & Hb1 & _).
  exists m, w1. split; [exact E|]. intros w Hel.
  destruct (elapses_ok float64_of_int _ _ Hok1 Hel) as (_ & Hext).
  exact (bundle_for_extends _ _ _ _ Hext Hb1).
Qed.

Lemma MetricMap_Get_value {V} (zero : V) name labels entries heap p e' h' q :
  MetricMap_Get zero name labels entries heap = (p, e', h') ->
  from_option m_value zero (h' !! q) = from_option m_value zero (heap !! q).
Proof.
  intros H. apply MetricMap_Get_inv in H as (_ & _ & _ & H).
  destruct (entries !! labels).
  - now destruct H as (_ & _ & ->).
  - destruct H as (Hp & ->). destruct (decide (p = q)) as [<-|Hne].
    + now rewrite lookup_insert_eq, Hp.
    + now rewrite lookup_insert_ne.
Qed.

Lemma MethodMetricsFor_grows labels w m w' :
  MethodMetricsFor labels w = Some (m, w') -> grows w w'.
Proof.
  intros H.
  apply MethodMetricsFor_inv in H
    as (e1 & h1 & e2 & h2 & e3 & g3 & e4 & g4 & e5 & g5
        & G1 & G2 & G3 & G4 & G5 & _ & ->).
  apply MetricMap_Get_inv in G1 as (_ & _ & S1 & _).
  apply MetricMap_Get_inv in G2 as (_ & _ & S2 & _).
  apply MetricMap_Get_inv in G3 as (_ & _ & S3 & _).
  apply MetricMap_Get_inv in G4 as (_ & _ & S4 & _).
  apply MetricMap_Get_inv in G5 as (_ & _ & S5 & _).
  unfold grows. cbn [counters histograms clock]. repeat split.
  - now transitivity h1.
  - transitivity g3; [assumption|]. now transitivity g4.
Qed.

Lemma MethodMetricsFor_values labels w m w' :
  MethodMetricsFor labels w = Some (m, w') ->
  forall p, counter_value w' p = counter_value w p /\
            observations w' p = observations w p.
Proof.
  intros H p.
  apply MethodMetricsFor_inv in H
    as (e1 & h1 & e2 & h2 & e3 & g3 & e4 & g4 & e5 & g5
        & G1 & G2 & G3 & G4 & G5 & _ & ->).
  unfold counter_value, observations. cbn [counters histograms]. split.
  - etransitivity; [exact (MetricMap_Get_value _ _ _ _ _ _ _ _ p G2)|].
    exact (MetricMap_Get_value _ _ _ _ _ _ _ _ p G1).
  - etransitivity; [exact (MetricMap_Get_value _ _ _ _ _ _ _ _ p G5)|].
    etransitivity; [exact (MetricMap_Get_value _ _ _ _ _ _ _ _ p G4)|].
    exact (MetricMap_Get_value _ _ _ _ _ _ _ _ p G3).
Qed.

(** X7. Asking for a bundle records nothing: [MethodMetricsFor] never
    panics, and whether it finds the five instruments or creates them, no
    counter and no histogram reads differently afterwards (an instrument
    it creates reads zero, or no observation, as a missing one does),
    every instrument that existed is the same object with the same value,
    and the clock is untouched. *)
Theorem MethodMetricsFor_records_nothing labels w :
  exists m w',
    MethodMetricsFor labels w = Some (m, w') /\
    counters w ⊆ counters w' /\ histograms w ⊆ histograms w' /\
    clock w' = clock w /\
    forall p, counter_value w' p = counter_value w p /\
              observations w' p = observations w p.
Proof.
  destruct (MethodMetricsFor labels w) as [[m w']|] eqn:E.
  - exists m, w'. split; [reflexivity|].
    destruct (MethodMetricsFor_grows _ _ _ _ E) as (Hc & Hh & Hk).
    repeat split; auto; now apply (MethodMetricsFor_values _ _ _ _ E).
  - exfalso. revert E. unfold MethodMetricsFor, bind, ret.
    unfold MethodCounts_Get at 1.
    destruct (MetricMap_Get 0 MethodCounts_name labels (MethodCounts w) (counters w))
      as [[c e1] h1].
    unfold MethodErrors_Get at 1.
    destruct (MetricMap_Get 0 MethodErrors_name labels _ _) as [[e e2] h2].
    unfold MethodLatencies_Get at 1.
    destruct (MetricMap_Get [] MethodLatencies_name labels _ _) as [[l e3] g3].
    unfold MethodBytesRequest_Get at 1.
    destruct (MetricMap_Get [] MethodBytesRequest_name labels _ _) as [[rq e4] g4].
    unfold MethodBytesReply_Get at 1.
    destruct (MetricMap_Get [] MethodBytesReply_name labels _ _) as [[rp e5] g5].
    discriminate.
Qed.

Lemma counter_value_absent w p : counters w !! p = None -> counter_value w p = 0.
Proof. intros H. exact (f_equal (from_option m_value 0) H). Qed.

Lemma observations_absent w p : histograms w !! p = None -> observations w p = [].
Proof. intros H. exact (f_equal (from_option m_value []) H). Qed.

(** X8. The first bundle of a label set.  When no metric map has an entry
    for [labels], [MethodMetricsFor(labels)] creates five instruments: none
    of the five pointers was in use before, they are five live and different
    objects afterwards, both counts read zero and the three histograms hold
    no observation. *)
Theorem MethodMetricsFor_first_use labels w m w' :
  MethodCounts w !! labels = None ->
  MethodErrors w !! labels = None ->
  MethodLatencies w !! labels = None ->
  MethodBytesRequest w !! labels = None ->
  MethodBytesReply w !! labels = None ->
  MethodMetricsFor labels w = Some (m, w') ->
  (counters w !! Count m = None /\ counters w !! ErrorCount m = None /\
   histograms w !! Latency m = None /\ histograms w !! BytesRequest m = None /\
   histograms w !! BytesReply m = None) /\
  five_instruments m w' /\
  counter_value w' (Count m) = 0 /\ counter_value w' (ErrorCount m) = 0 /\
  observations w' (Latency m) = [] /\ observations w' (BytesRequest m) = [] /\
  observations w' (BytesReply m) = [].
Proof.
  intros N1 N2 N3 N4 N5 H.
  pose proof (MethodMetricsFor_values _ _ _ _ H) as Hval.
  apply MethodMetricsFor_inv in H
    as (e1 & h1 & e2 & h2 & e3 & g3 & e4 & g4 & e5 & g5
        & G1 & G2 & G3 & G4 & G5 & _ & ->).
  apply MetricMap_Get_inv in G1 as (_ & _ & S1 & G1). rewrite N1 in G1.
  apply MetricMap_Get_inv in G2 as (_ & _ & S2 & G2). rewrite N2 in G2.
  apply MetricMap_Get_inv in G3 as (_ & _ & S3 & G3). rewrite N3 in G3.
  apply MetricMap_Get_inv in G4 as (_ & _ & S4 & G4). rewrite N4 in G4.
  apply MetricMap_Get_inv in G5 as (_ & _ & S5 & G5). rewrite N5 in G5.
  destruct G1 as (F1 & ->), G2 as (F2 & ->), G3 as (F3 & ->), G4 as (F4 & ->),
    G5 as (F5 & ->).
  assert (Hce : Count m <> ErrorCount m).
  { intros Heq. rewrite <- Heq, lookup_insert_eq in F2. discriminate. }
  assert (Hlq : Latency m <> BytesRequest m).
  { intros Heq. rewrite <- Heq, lookup_insert_eq in F4. discriminate. }
  assert (Hqp : BytesRequest m <> BytesReply m).
  { intros Heq. rewrite <- Heq, lookup_insert_eq in F5. discriminate. }
  assert (Hlp : Latency m <> BytesReply m).
  { intros Heq. rewrite <- Heq, lookup_insert_ne, lookup_insert_eq in F5
      by congruence. discriminate. }
  assert (E2 : counters w !! ErrorCount m = None).
  { rewrite lookup_insert_ne in F2 by exact Hce. exact F2. }
  assert (E4 : histograms w !! BytesRequest m = None).
  { rewrite lookup_insert_ne in F4 by exact Hlq. exact F4. }
  assert (E5 : histograms w !! BytesReply m = None).
  { rewrite !lookup_insert_ne in F5 by congruence. exact F5. }
  split; [auto 10|]. split.
  - unfold five_instruments. cbn [counters histograms].
    repeat split; try assumption.
    + rewrite lookup_insert_ne, lookup_insert_eq by congruence. eauto.
    + rewrite lookup_insert_eq. eauto.
    + rewrite !lookup_insert_ne, lookup_insert_eq by congruence. eauto.
    + rewrite lookup_insert_ne, lookup_insert_eq by congruence. eauto.
    + rewrite lookup_insert_eq. eauto.
  - destruct (Hval (Count m)) as [-> _]. destruct (Hval (ErrorCount m)) as [-> _].
    destruct (Hval (Latency m)) as [_ ->]. destruct (Hval (BytesRequest m)) as [_ ->].
    destruct (Hval (BytesReply m)) as [_ ->].
    repeat split.
    + exact (counter_value_absent _ _ F1).
    + exact (counter_value_absent _ _ E2).
    + exact (observations_absent _ _ F3).
    + exact (observations_absent _ _ E4).
    + exact (observations_absent _ _ E5).
Qed.

(** *** Readings only grow *)

Lemma alter_inc_le (cs : gmap loc (Metric Z)) q p :
  from_option m_value 0 (cs !! p)
  <= from_option m_value 0 (alter (with_value (fun v => v + 1)) q cs !! p).
Proof.
  rewrite lookup_alter. case_decide as Hq; [subst q|lia].
  destruct (cs !! p); simpl; lia.
Qed.

Lemma alter_put_prefix (hs : gmap loc (Metric (list float64))) q v p :
  from_option m_value [] (hs !! p)
  `prefix_of` from_option m_value [] (alter (with_value (fun o => o ++ [v])) q hs !! p).
Proof.
  rewrite lookup_alter. case_decide as Hq; [subst q|reflexivity].
  destruct (hs !! p); simpl; [|apply prefix_nil].
  now apply prefix_app_r.
Qed.

Lemma End_counters_le m failed (cs : gmap loc (Metric Z)) p :
  from_option m_value 0 (cs !! p)
  <= from_option m_value 0 (End_counters m failed cs !! p).
Proof.
  unfold End_counters. destruct failed; [|apply alter_inc_le].
  etransitivity; [|apply alter_inc_le]. apply alter_inc_le.
Qed.

Lemma End_histograms_prefix m latency requestBytes replyBytes
    (hs : gmap loc (Metric (list float64))) p :
  from_option m_value [] (hs !! p)
  `prefix_of` from_option m_value []
                (End_histograms float64_of_int m latency requestBytes replyBytes hs !! p).
Proof.
  unfold End_histograms. destruct (remote m); [|apply alter_put_prefix].
  etransitivity; [|apply alter_put_prefix].
  etransitivity; [|apply alter_put_prefix]. apply alter_put_prefix.
Qed.

Lemma step_only_adds w w' :
  step float64_of_int w w' ->
  forall p,
    (is_Some (counters w !! p) -> is_Some (counters w' !! p)) /\
    (is_Some (histograms w !! p) -> is_Some (histograms w' !! p)) /\
    counter_value w p <= counter_value w' p /\
    observations w p `prefix_of` observations w' p.
Proof.
  intros Hstep p.
  destruct Hstep as [w d Hd Hr|l w m' w' H|m' w h w' H|m' h f rq rp w w' H].
  - repeat split; auto; reflexivity.
  - destruct (MethodMetricsFor_grows _ _ _ _ H) as (Hc & Hh & _).
    destruct (MethodMetricsFor_values _ _ _ _ H p) as (-> & ->).
    repeat split; try reflexivity.
    + intros [c Hp]. exists c. exact (lookup_weaken _ _ _ _ Hp Hc).
    + intros [c Hp]. exists c. exact (lookup_weaken _ _ _ _ Hp Hh).
  - injection H as _ <-. repeat split; auto; reflexivity.
  - apply End_Some in H as [_ ->]. repeat split.
    + intros Hp. cbn [counters set_histograms set_counters].
      unfold End_counters. destruct f; now rewrite !lookup_alter_is_Some.
    + intros Hp. cbn [histograms set_histograms set_counters].
      unfold End_histograms. destruct (remote m'); now rewrite !lookup_alter_is_Some.
    + apply End_counters_le.
    + apply End_histograms_prefix.
Qed.

(** X9. Nothing this file does takes anything back.  From one state of the
    process to any later one, whichever of [MethodMetricsFor], [Begin] and
    [End] were called in between and on whatever bundles: every instrument
    is still there, no counter reads less than before, and every histogram
    holds the observations it held, in the same order, followed by the new
    ones. *)
Theorem elapses_only_adds w w' :
  elapses float64_of_int w w' ->
  forall p,
    (is_Some (counters w !! p) -> is_Some (counters w' !! p)) /\
    (is_Some (histograms w !! p) -> is_Some (histograms w' !! p)) /\
    counter_value w p <= counter_value w' p /\
    observations w p `prefix_of` observations w' p.
Proof.
  intros Hel p. induction Hel as [w|w1 w2 w3 H12 _ IH].
  - repeat split; auto; reflexivity.
  - destruct (step_only_adds _ _ H12 p) as (A1 & A2 & A3 & A4).
    destruct IH as (B1 & B2 & B3 & B4).
    repeat split; auto.
    + lia.
    + now transitivity (observations w2 p).
Qed.

(** *** The latency [End] records *)

Lemma subMono_value t u :
  time.int64_range t -> time.int64_range u -> u <= t ->
  time.subMono t u = Z.min (t - u) time.maxDuration.
Proof.
  unfold time.int64_range, time.subMono, time.wrap64,
    time.maxDuration, time.minDuration.
  intros Ht Hu Hle.
  destruct (Z_lt_le_dec (t - u) (2 ^ 63)) as [Hs | Hb].
  - replace ((t - u + 2 ^ 63) mod 2 ^ 64 - 2 ^ 63) with (t - u)
      by (rewrite Z.mod_small; lia).
    destruct (t - u <? 0) eqn:E1; [apply Z.ltb_lt in E1; lia|].
    simpl. destruct (t <? u) eqn:E2; [apply Z.ltb_lt in E2; lia|].
    rewrite andb_false_r. lia.
  - replace ((t - u + 2 ^ 63) mod 2 ^ 64 - 2 ^ 63) with (t - u - 2 ^ 64).
    + destruct (t - u - 2 ^ 64 <? 0) eqn:E1; [|apply Z.ltb_ge in E1; lia].
      destruct (u <? t) eqn:E2; [simpl; lia|apply Z.ltb_ge in E2; lia].
    + replace (t - u + 2 ^ 63) with ((t - u - 2 ^ 63) + 1 * 2 ^ 64) by lia.
      rewrite Z.mod_add by lia. rewrite Z.mod_small; lia.
Qed.

(** X10. The latency that is recorded.  When [h] is the handle [m.Begin()]
    returned and [m.End(h, ...)] is called at a later moment, the
    observation the latency histogram gains is [float64] of the time
    between the two calls in whole microseconds: the nanoseconds of the
    monotonic clock divided by 1000, the remainder dropped (a call shorter
    than a microsecond records 0), and an interval beyond the largest
    [Duration] counted as the largest [Duration]. *)
Theorem Begin_End_latency_value now m w0 h w1 w failed requestBytes replyBytes :
  time.int64_range now ->
  elapses float64_of_int (init_world float64 now) w0 ->
  Begin m w0 = Some (h, w1) ->
  elapses float64_of_int w1 w ->
  five_instruments m w ->
  exists w',
    End float64_of_int m h failed requestBytes replyBytes w = Some (tt, w') /\
    observations w' (Latency m)
    = observations w (Latency m)
      ++ [float64_of_int (Z.min (clock w - clock w0) time.maxDuration ÷ 1000)] /\
    (clock w - clock w0 < 1000 ->
     observations w' (Latency m) = observations w (Latency m) ++ [float64_of_int 0]).
Proof.
  intros Hnow Hreach Hbegin Hel Hm.
  pose proof (reachable_ok float64_of_int now w0 Hnow Hreach) as Hok0.
  rewrite Begin_eq in Hbegin. injection Hbegin as <- <-.
  destruct (elapses_ok float64_of_int _ _ Hok0 Hel) as (Hok & _ & _ & Hclock).
  assert (Hlat : End_latency {| start := {| time.ext := clock w0 |} |} w
                 = Z.min (clock w - clock w0) time.maxDuration ÷ 1000).
  { unfold End_latency, time.Microseconds; cbn [start time.ext].
    rewrite subMono_value; auto using ok_clock. }
  eexists. split; [now apply End_five_instruments|].
  cbn [observations histograms set_histograms set_counters].
  unfold observations at 1 3. cbn [histograms set_histograms set_counters].
  rewrite (End_histograms_Latency float64_of_int m _ requestBytes replyBytes w Hm).
  rewrite Hlat. split; [reflexivity|].
  intros Hshort. do 3 f_equal.
  assert (Hmin : Z.min (clock w - clock w0) time.maxDuration = clock w - clock w0)
    by (unfold time.maxDuration; lia).
  rewrite Hmin. apply Z.quot_small. lia.
Qed.

(** *** Ending many calls *)

Lemma End_effect_five_instruments m latency failed requestBytes replyBytes w :
  five_instruments m w ->
  five_instruments m
    (set_histograms
       (End_histograms float64_of_int m latency requestBytes replyBytes)
       (set_counters (End_counters m failed) w)).
Proof.
  intros (Hc & He & Hl & Hq & Hp & Hne).
  unfold five_instruments. cbn [counters histograms set_histograms set_counters].
  unfold End_counters, End_histograms.
  repeat split; try tauto;
    destruct failed, (remote m); now rewrite !lookup_alter_is_Some.
Qed.

(** X11. Ending [n] calls on one bundle, one after the other: every call
    returns; the invocation count has grown by [n], the error count by the
    number of calls that failed, the latency histogram has gained [n]
    observations, and the byte-size histograms have gained the request and
    the reply sizes, in the order of the calls, when the bundle is for
    remote calls, and nothing otherwise. *)
Theorem End_each_adds_up m calls w :
  five_instruments m w ->
  exists w',
    End_each float64_of_int m calls w = Some (tt, w') /\
    counter_value w' (Count m)
    = counter_value w (Count m) + Z.of_nat (length calls) /\
    counter_value w' (ErrorCount m)
    = counter_value w (ErrorCount m)
      + Z.of_nat (length (filter (fun c => c.1.1.2 = true) calls)) /\
    length (observations w' (Latency m))
    = (length (observations w (Latency m)) + length calls)%nat /\
    observations w' (BytesRequest m)
    = observations w (BytesRequest m)
      ++ (if remote m then (fun c => float64_of_int c.1.2) <$> calls else []) /\
    observations w' (BytesReply m)
    = observations w (BytesReply m)
      ++ (if remote m then (fun c => float64_of_int c.2) <$> calls else []).
Proof.
  intros Hm. revert w Hm.
  induction calls as [|[[[h failed] requestBytes] replyBytes] calls IH]; intros w Hm.
  - exists w. cbn [End_each length filter fmap list_fmap]. unfold ret.
    change (Z.of_nat (length [])) with 0.
    rewrite !Z.add_0_r, Nat.add_0_r.
    destruct (remote m); now rewrite ?app_nil_r.
  - cbn [End_each]. unfold bind.
    rewrite (End_five_instruments float64_of_int m h failed requestBytes replyBytes w Hm).
    pose proof (End_effect_five_instruments m (End_latency h w) failed
                  requestBytes replyBytes w Hm) as Hm'.
    set (w1 := set_histograms _ _) in *.
    assert (C1 : counter_value w1 (Count m) = counter_value w (Count m) + 1)
      by exact (End_counters_Count m failed w Hm).
    assert (C2 : counter_value w1 (ErrorCount m)
                 = counter_value w (ErrorCount m) + (if failed then 1 else 0))
      by exact (End_counters_ErrorCount m failed w Hm).
    assert (C3 : observations w1 (Latency m)
                 = observations w (Latency m) ++ [float64_of_int (End_latency h w)])
      by exact (End_histograms_Latency float64_of_int m _ requestBytes replyBytes w Hm).
    assert (C4 : observations w1 (BytesRequest m)
                 = observations w (BytesRequest m)
                   ++ (if remote m then [float64_of_int requestBytes] else []))
      by exact (End_histograms_BytesRequest float64_of_int m _ requestBytes replyBytes w Hm).
    assert (C5 : observations w1 (BytesReply m)
                 = observations w (BytesReply m)
                   ++ (if remote m then [float64_of_int replyBytes] else []))
      by exact (End_histograms_BytesReply float64_of_int m _ requestBytes replyBytes w Hm).
    destruct (IH _ Hm') as (w' & E & Ec & Ee & El & Eq & Ep).
    exists w'. split; [exact E|].
    rewrite Ec, Ee, El, Eq, Ep, C1, C2, C3, C4, C5.
    rewrite filter_cons. cbn [fst snd length fmap list_fmap].
    repeat split.
    + lia.
    + destruct failed; case_decide; try congruence; cbn [length]; lia.
    + rewrite length_app. cbn [length]. lia.
    + destruct (remote m); now rewrite <- app_assoc.
    + destruct (remote m); now rewrite <- app_assoc.
Qed.

End MetricsBeyond.

(** *** The further metrics properties at the sample states *)

Section MetricsBeyondSamples.

Import codegen.

Lemma sample_world_both_reached :
  MethodMetricsFor sample_labels_local sample_world
  = Some (sample_metrics_local, sample_world_both).
Proof. vm_compute. reflexivity. Qed.

Lemma sample_world_both_later :
  elapses (fun z => z) sample_world sample_world_both.
Proof.
  apply rtc_once.
  exact (step_MethodMetricsFor Z (fun z => z) _ _ _ _ sample_world_both_reached).
Qed.

Lemma sample_bundle_remote :
  bundle_for sample_labels sample_metrics sample_world_both.
Proof. unfold bundle_for. repeat split; vm_compute; reflexivity. Qed.

Lemma sample_bundle_local :
  bundle_for sample_labels_local sample_metrics_local sample_world_both.
Proof. unfold bundle_for. repeat split; vm_compute; reflexivity. Qed.

Lemma sample_five_instruments_both :
  five_instruments sample_metrics sample_world_both.
Proof. exact (bundle_for_five_instruments _ _ _ sample_bundle_remote). Qed.

Lemma sample_labels_differ : sample_labels <> sample_labels_local.
Proof. discriminate. Qed.

Lemma End_writes_only_its_instruments_witness :
  let h := {| start := {| time.ext := 1000000 |} |} in
  let w' := set_histograms (End_histograms (fun z => z) sample_metrics 0 10 20)
              (set_counters (End_counters sample_metrics false) sample_world_both) in
  End (fun z => z) sample_metrics h false 10 20 sample_world_both = Some (tt, w') /\
  keeps sample_world_both w' /\
  counters w' !! 2%positive = counters sample_world_both !! 2%positive /\
  histograms w' !! 4%positive = histograms sample_world_both !! 4%positive.
Proof.
  intros h w'.
  assert (H : End (fun z => z) sample_metrics h false 10 20 sample_world_both
              = Some (tt, w'))
    by exact (End_five_instruments (fun z => z) sample_metrics h false 10 20
                sample_world_both sample_five_instruments_both).
  split; [exact H|].
  destruct (End_writes_only_its_instruments (fun z => z) _ _ _ _ _ _ _ _ H)
    as (Hk & Hc & Hh).
  split; [exact Hk|]. split.
  - apply Hc; [discriminate|intros [=]].
  - apply Hh; [discriminate|intros _; split; discriminate].
Defined.

Lemma End_leaves_other_labels_witness :
  let h := {| start := {| time.ext := 1000000 |} |} in
  let w' := set_histograms (End_histograms (fun z => z) sample_metrics 0 10 20)
              (set_counters (End_counters sample_metrics true) sample_world_both) in
  bundle_for sample_labels sample_metrics sample_world_both /\
  bundle_for sample_labels_local sample_metrics_local sample_world_both /\
  sample_labels <> sample_labels_local /\
  End (fun z => z) sample_metrics h true 10 20 sample_world_both = Some (tt, w') /\
  counter_value w' (Count sample_metrics_local)
  = counter_value sample_world_both (Count sample_metrics_local) /\
  counter_value w' (ErrorCount sample_metrics_local)
  = counter_value sample_world_both (ErrorCount sample_metrics_local) /\
  observations w' (Latency sample_metrics_local)
  = observations sample_world_both (Latency sample_metrics_local) /\
  observations w' (BytesRequest sample_metrics_local)
  = observations sample_world_both (BytesRequest sample_metrics_local) /\
  observations w' (BytesReply sample_metrics_local)
  = observations sample_world_both (BytesReply sample_metrics_local).
Proof.
  intros h w'.
  assert (H : End (fun z => z) sample_metrics h true 10 20 sample_world_both
              = Some (tt, w'))
    by exact (End_five_instruments (fun z => z) sample_metrics h true 10 20
                sample_world_both sample_five_instruments_both).
  split; [exact sample_bundle_remote|]. split; [exact sample_bundle_local|].
  split; [exact sample_labels_differ|]. split; [exact H|].
  exact (End_leaves_other_labels (fun z => z) _ _ _ _ _ _ _ _ _ _ _
           sample_bundle_remote sample_bundle_local sample_labels_differ H).
Defined.

Lemma MethodMetricsFor_bundle_witness :
  time.int64_range 1000000 /\
  elapses (fun z => z) (init_world Z 1000000) sample_world /\
  exists m w1,
    MethodMetricsFor sample_labels_local sample_world = Some (m, w1) /\
    forall w, elapses (fun z => z) w1 w ->
      remote m = false /\
      metric_id (counters w) (Count m) = Some (MethodCounts_name, sample_labels_local) /\
      metric_id (counters w) (ErrorCount m)
      = Some (MethodErrors_name, sample_labels_local) /\
      metric_id (histograms w) (Latency m)
      = Some (MethodLatencies_name, sample_labels_local) /\
      metric_id (histograms w) (BytesRequest m)
      = Some (MethodBytesRequest_name, sample_labels_local) /\
      metric_id (histograms w) (BytesReply m)
      = Some (MethodBytesReply_name, sample_labels_local).
Proof.
  split; [exact sample_now_in_range|]. split; [exact sample_world_reachable|].
  exact (MethodMetricsFor_bundle (fun z => z) 1000000 sample_labels_local
           sample_world sample_now_in_range sample_world_reachable).
Defined.

Lemma MethodMetricsFor_first_use_witness :
  let w := init_world Z 1000000 in
  MethodCounts w !! sample_labels = None /\
  MethodErrors w !! sample_labels = None /\
  MethodLatencies w !! sample_labels = None /\
  MethodBytesRequest w !! sample_labels = None /\
  MethodBytesReply w !! sample_labels = None /\
  MethodMetricsFor sample_labels w = Some (sample_metrics, sample_world) /\
  (counters w !! Count sample_metrics = None /\
   counters w !! ErrorCount sample_metrics = None /\
   histograms w !! Latency sample_metrics = None /\
   histograms w !! BytesRequest sample_metrics = None /\
   histograms w !! BytesReply sample_metrics = None) /\
  five_instruments sample_metrics sample_world /\
  counter_value sample_world (Count sample_metrics) = 0 /\
  counter_value sample_world (ErrorCount sample_metrics) = 0 /\
  observations sample_world (Latency sample_metrics) = [] /\
  observations sample_world (BytesRequest sample_metrics) = [] /\
  observations sample_world (BytesReply sample_metrics) = [].
Proof.
  intros w.
  do 5 (split; [reflexivity|]). split; [exact sample_world_reached|].
  exact (MethodMetricsFor_first_use sample_labels w sample_metrics sample_world
           eq_refl eq_refl eq_refl eq_refl eq_refl sample_world_reached).
Defined.

Lemma elapses_only_adds_witness :
  elapses (fun z => z) sample_world sample_world_both /\
  forall p,
    (is_Some (counters sample_world !! p) ->
     is_Some (counters sample_world_both !! p)) /\
    (is_Some (histograms sample_world !! p) ->
     is_Some (histograms sample_world_both !! p)) /\
    counter_value sample_world p <= counter_value sample_world_both p /\
    observations sample_world p `prefix_of` observations sample_world_both p.
Proof.
  split; [exact sample_world_both_later|].
  exact (elapses_only_adds (fun z => z) _ _ sample_world_both_later).
Defined.

Lemma Begin_End_latency_value_witness :
  let h := {| start := {| time.ext := 1000000 |} |} in
  let w := set_clock (1000000 + 5999) sample_world in
  time.int64_range 1000000 /\
  elapses (fun z => z) (init_world Z 1000000) sample_world /\
  Begin sample_metrics sample_world = Some (h, sample_world) /\
  elapses (fun z => z) sample_world w /\
  five_instruments sample_metrics w /\
  exists w',
    End (fun z => z) sample_metrics h false 10 20 w = Some (tt, w') /\
    observations w' (Latency sample_metrics)
    = observations w (Latency sample_metrics) ++ [5] /\
    (clock w - clock sample_world < 1000 ->
     observations w' (Latency sample_metrics)
     = observations w (Latency sample_metrics) ++ [0]).
Proof.
  intros h w.
  assert (Hel : elapses (fun z => z) sample_world w).
  { apply rtc_once. apply (step_tick Z (fun z => z) sample_world 5999).
    - lia.
    - unfold time.int64_range. simpl. lia. }
  split; [exact sample_now_in_range|]. split; [exact sample_world_reachable|].
  split; [reflexivity|]. split; [exact Hel|].
  split; [exact (sample_five_instruments _)|].
  exact (Begin_End_latency_value (fun z => z) 1000000 sample_metrics
           sample_world h sample_world w false 10 20
           sample_now_in_range sample_world_reachable eq_refl Hel
           (sample_five_instruments _)).
Defined.

Lemma End_each_adds_up_witness :
  let h := {| start := {| time.ext := 1000000 |} |} in
  let calls := [(h, false, 10, 20); (h, true, 30, 40); (h, false, 50, 60)] in
  let w := set_clock 1005000 sample_world in
  five_instruments sample_metrics w /\
  exists w',
    End_each (fun z => z) sample_metrics calls w = Some (tt, w') /\
    counter_value w' (Count sample_metrics) = 0 + 3 /\
    counter_value w' (ErrorCount sample_metrics) = 0 + 1 /\
    length (observations w' (Latency sample_metrics)) = (0 + 3)%nat /\
    observations w' (BytesRequest sample_metrics) = [10; 30; 50] /\
    observations w' (BytesReply sample_metrics) = [20; 40; 60].
Proof.
  intros h calls w.
  split; [exact (sample_five_instruments _)|].
  exact (End_each_adds_up (fun z => z) sample_metrics calls w
           (sample_five_instruments _)).
Defined.

End MetricsBeyondSamples.

(** ** Calls of MethodMetricsFor and End in progress *)

Section CallsInProgress.

Import codegen.

Context {float64 : Type} (float64_of_int : Z -> float64).

Implicit Types (w : world float64) (m : MethodMetrics) (p q : loc)
  (l : MethodLabels) (P : program float64) (c : call) (cs : list call).

(** *** Calls ahead of the books *)

Lemma ahead_app on l cs cs' :
  ahead on l (cs ++ cs') = ahead on l cs + ahead on l cs'.
Proof.
  induction cs as [|c cs IH]; [reflexivity|].
  cbn [app ahead foldr]. fold (ahead on l (cs ++ cs')). fold (ahead on l cs).
  rewrite IH. destruct c as [| e pc |]; [lia| |lia].
  destruct (bool_decide (e_labels e = l) && on e pc); lia.
Qed.

Lemma ahead_insert on l cs i c c' :
  cs !! i = Some c ->
  ahead on l (<[i := c']> cs) = ahead on l cs - ahead on l [c] + ahead on l [c'].
Proof.
  intros Hi. rewrite <- (take_drop_middle cs i c Hi) at 2.
  rewrite insert_take_drop by (eapply lookup_lt_Some; eauto).
  rewrite !ahead_app.
  change (c' :: drop (S i) cs) with ([c'] ++ drop (S i) cs).
  change (c :: drop (S i) cs) with ([c] ++ drop (S i) cs).
  rewrite !ahead_app. lia.
Qed.

Lemma ahead_le on on' l cs :
  (forall e pc, on e pc = true -> on' e pc = true) ->
  0 <= ahead on l cs <= ahead on' l cs.
Proof.
  intros Himp. induction cs as [|c cs IH]; [cbn; lia|].
  cbn [ahead foldr]. fold (ahead on l cs). fold (ahead on' l cs).
  destruct c as [| e pc |]; [lia| |lia].
  destruct (bool_decide (e_labels e = l)); cbn [andb]; [|lia].
  specialize (Himp e pc).
  destruct (on e pc), (on' e pc); first [lia | discriminate (Himp eq_refl)].
Qed.

Lemma ahead_none on l cs :
  (forall e pc, Ending e pc ∈ cs -> e_labels e <> l) -> ahead on l cs = 0.
Proof.
  induction cs as [|c cs IH]; intros Hno; [reflexivity|].
  cbn [ahead foldr]. fold (ahead on l cs).
  rewrite IH by (intros e pc He; apply (Hno e pc); now right).
  destruct c as [| e pc |]; [reflexivity| |reflexivity].
  rewrite bool_decide_eq_false_2; [reflexivity|]. apply (Hno e pc). now left.
Qed.

(** *** What the metric maps read *)

Lemma reading_heap_Get {V} (size : V -> Z) (zero : V) name labels entries heap
    p e' h' entries2 l :
  size zero = 0 ->
  MetricMap_Get zero name labels entries heap = (p, e', h') ->
  reading size entries2 h' l = reading size entries2 heap l.
Proof.
  intros Hz H. apply MetricMap_Get_inv in H as (_ & _ & _ & H).
  unfold reading. destruct (entries2 !! l) as [q|]; [|reflexivity].
  destruct (entries !! labels).
  - now destruct H as (_ & _ & ->).
  - destruct H as (Hp & ->). destruct (decide (p = q)) as [<-|Hne].
    + now rewrite lookup_insert_eq, Hp.
    + now rewrite lookup_insert_ne.
Qed.

Lemma reading_Get {V} (size : V -> Z) (zero : V) name labels entries heap
    p e' h' l :
  size zero = 0 ->
  MetricMap_Get zero name labels entries heap = (p, e', h') ->
  reading size e' h' l = reading size entries heap l.
Proof.
  intros Hz H.
  rewrite <- (reading_heap_Get size zero _ _ _ _ _ _ _ entries l Hz H).
  revert H. unfold MetricMap_Get.
  destruct (entries !! labels) as [q|] eqn:E; [now intros [= <- <- <-]|].
  intros [= <- <- <-]. unfold reading.
  destruct (decide (labels = l)) as [<-|Hne].
  - now rewrite lookup_insert_eq, E, lookup_insert_eq.
  - now rewrite lookup_insert_ne.
Qed.

Lemma reading_alter_hit {V} (size : V -> Z) (f : V -> V) name entries
    (heap : gmap loc (Metric V)) l0 p l :
  (forall v, size (f v) = size v + 1) ->
  registered name entries heap -> entries !! l0 = Some p ->
  reading size entries (alter (with_value f) p heap) l
  = reading size entries heap l + (if bool_decide (l0 = l) then 1 else 0).
Proof.
  intros Hf Hr Hp. unfold reading.
  destruct (entries !! l) as [q|] eqn:Hq.
  - destruct (decide (l0 = l)) as [<-|Hne].
    + rewrite bool_decide_eq_true_2 by reflexivity.
      assert (q = p) as -> by congruence.
      destruct (metric_id_live _ _ _ (Hr _ _ Hp)) as [c Hc].
      rewrite lookup_alter_eq, Hc. cbn. apply Hf.
    + rewrite bool_decide_eq_false_2 by exact Hne.
      rewrite lookup_alter_ne; [lia|].
      intros <-. apply Hne.
      pose proof (Hr _ _ Hp) as H1. pose proof (Hr _ _ Hq) as H2. congruence.
  - rewrite bool_decide_eq_false_2 by congruence. lia.
Qed.

Lemma reading_alter_miss {V} (size : V -> Z) (f : V -> V) name entries
    (heap : gmap loc (Metric V)) x p l :
  registered name entries heap -> metric_id heap p = Some x -> x.1 <> name ->
  reading size entries (alter (with_value f) p heap) l = reading size entries heap l.
Proof.
  intros Hr Hp Hne. unfold reading.
  destruct (entries !! l) as [q|] eqn:Hq; [|reflexivity].
  rewrite lookup_alter_ne; [reflexivity|].
  intros <-. apply Hne. pose proof (Hr _ _ Hq) as H2.
  rewrite Hp in H2. now injection H2 as ->.
Qed.

(** *** The statements of [MethodMetricsFor] *)

Ltac solve_Get_quiet :=
  let p := fresh "p" in let e := fresh "e" in let h := fresh "h" in
  let G := fresh "G" in
  match goal with
  | |- context [MetricMap_Get ?z ?n ?l ?en ?hp] =>
      destruct (MetricMap_Get z n l en hp) as [[p e] h] eqn:G
  end;
  intros [= <- <-];
  pose proof (MetricMap_Get_inv _ _ _ _ _ _ _ _ G) as (Hl & Hsub & _ & _);
  split; [exact Hl|]; split;
  [ unfold grown;
    cbn [MethodCounts MethodErrors MethodLatencies MethodBytesRequest
         MethodBytesReply set_MethodCounts set_MethodErrors set_MethodLatencies
         set_MethodBytesRequest set_MethodBytesReply set_counters set_histograms];
    repeat split; (exact Hsub || reflexivity)
  | intros l0; unfold count_at, seen_at;
    cbn [MethodCounts MethodErrors MethodLatencies MethodBytesRequest
         MethodBytesReply set_MethodCounts set_MethodErrors set_MethodLatencies
         set_MethodBytesRequest set_MethodBytesReply set_counters set_histograms
         counters histograms];
    repeat split;
    first [ reflexivity
          | exact (reading_Get _ _ _ _ _ _ _ _ _ l0 eq_refl G)
          | exact (reading_heap_Get _ _ _ _ _ _ _ _ _ _ l0 eq_refl G) ] ].

Lemma MethodCounts_Get_quiet labels w p w' :
  MethodCounts_Get float64 labels w = Some (p, w') ->
  MethodCounts w' !! labels = Some p /\ grown w w' /\ same_readings w w'.
Proof. unfold MethodCounts_Get. solve_Get_quiet. Qed.

Lemma MethodErrors_Get_quiet labels w p w' :
  MethodErrors_Get float64 labels w = Some (p, w') ->
  MethodErrors w' !! labels = Some p /\ grown w w' /\ same_readings w w'.
Proof. unfold MethodErrors_Get. solve_Get_quiet. Qed.

Lemma MethodLatencies_Get_quiet labels w p w' :
  MethodLatencies_Get float64 labels w = Some (p, w') ->
  MethodLatencies w' !! labels = Some p /\ grown w w' /\ same_readings w w'.
Proof. unfold MethodLatencies_Get. solve_Get_quiet. Qed.

Lemma MethodBytesRequest_Get_quiet labels w p w' :
  MethodBytesRequest_Get float64 labels w = Some (p, w') ->
  MethodBytesRequest w' !! labels = Some p /\ grown w w' /\ same_readings w w'.
Proof. unfold MethodBytesRequest_Get. solve_Get_quiet. Qed.

Lemma MethodBytesReply_Get_quiet labels w p w' :
  MethodBytesReply_Get float64 labels w = Some (p, w') ->
  MethodBytesReply w' !! labels = Some p /\ grown w w' /\ same_readings w w'.
Proof. unfold MethodBytesReply_Get. solve_Get_quiet. Qed.

Lemma Get_world_ok (get : MethodLabels -> M float64 loc) labels w p w' :
  (exists q w1, get labels w = Some (q, w1) /\ world_ok w1) ->
  get labels w = Some (p, w') -> world_ok w'.
Proof. intros (q & w1 & E & Hok) H. congruence. Qed.

(** *** The statements of [End] *)

Lemma grown_keeps w w' : keeps w w' -> grown w w'.
Proof.
  intros (H1 & H2 & H3 & H4 & H5 & _). unfold grown.
  rewrite H1, H2, H3, H4, H5. repeat split; reflexivity.
Qed.

Lemma grown_refl w : grown w w.
Proof. repeat split; reflexivity. Qed.

Ltac solve_readings Hok Hreg :=
  destruct Hok as [K1 K2 K3 K4 K5 _];
  destruct Hreg as (_ & R1 & R2 & R3 & R4 & R5);
  unfold count_at, seen_at;
  cbn [MethodCounts MethodErrors MethodLatencies MethodBytesRequest
       MethodBytesReply set_counters set_histograms counters histograms];
  repeat split;
  first
    [ reflexivity
    | eapply reading_alter_hit;
      [ intros ?; first [reflexivity | rewrite length_app; cbn; lia]
      | eassumption | eassumption ]
    | eapply reading_alter_miss;
      [ eassumption
      | first [ exact (K1 _ _ R1) | exact (K2 _ _ R2) | exact (K3 _ _ R3)
              | exact (K4 _ _ R4) | exact (K5 _ _ R5) ]
      | let E := fresh in intros E; cbv in E; discriminate E ] ].

Lemma Count_Inc_readings l0 m w l :
  world_ok w -> registers l0 m w ->
  let w' := set_counters (alter (with_value (fun v => v + 1)) (Count m)) w in
  count_at MethodCounts w' l
  = count_at MethodCounts w l + (if bool_decide (l0 = l) then 1 else 0) /\
  count_at MethodErrors w' l = count_at MethodErrors w l /\
  seen_at MethodLatencies w' l = seen_at MethodLatencies w l /\
  seen_at MethodBytesRequest w' l = seen_at MethodBytesRequest w l /\
  seen_at MethodBytesReply w' l = seen_at MethodBytesReply w l.
Proof. intros Hok Hreg w'. subst w'. solve_readings Hok Hreg. Qed.

Lemma ErrorCount_Inc_readings l0 m w l :
  world_ok w -> registers l0 m w ->
  let w' := set_counters (alter (with_value (fun v => v + 1)) (ErrorCount m)) w in
  count_at MethodCounts w' l = count_at MethodCounts w l /\
  count_at MethodErrors w' l
  = count_at MethodErrors w l + (if bool_decide (l0 = l) then 1 else 0) /\
  seen_at MethodLatencies w' l = seen_at MethodLatencies w l /\
  seen_at MethodBytesRequest w' l = seen_at MethodBytesRequest w l /\
  seen_at MethodBytesReply w' l = seen_at MethodBytesReply w l.
Proof. intros Hok Hreg w'. subst w'. solve_readings Hok Hreg. Qed.

Lemma Latency_Put_readings l0 m (v : float64) w l :
  world_ok w -> registers l0 m w ->
  let w' := set_histograms (alter (with_value (fun o => o ++ [v])) (Latency m)) w in
  count_at MethodCounts w' l = count_at MethodCounts w l /\
  count_at MethodErrors w' l = count_at MethodErrors w l /\
  seen_at MethodLatencies w' l
  = seen_at MethodLatencies w l + (if bool_decide (l0 = l) then 1 else 0) /\
  seen_at MethodBytesRequest w' l = seen_at MethodBytesRequest w l /\
  seen_at MethodBytesReply w' l = seen_at MethodBytesReply w l.
Proof. intros Hok Hreg w'. subst w'. solve_readings Hok Hreg. Qed.

Lemma BytesRequest_Put_readings l0 m (v : float64) w l :
  world_ok w -> registers l0 m w ->
  let w' := set_histograms (alter (with_value (fun o => o ++ [v])) (BytesRequest m)) w in
  count_at MethodCounts w' l = count_at MethodCounts w l /\
  count_at MethodErrors w' l = count_at MethodErrors w l /\
  seen_at MethodLatencies w' l = seen_at MethodLatencies w l /\
  seen_at MethodBytesRequest w' l
  = seen_at MethodBytesRequest w l + (if bool_decide (l0 = l) then 1 else 0) /\
  seen_at MethodBytesReply w' l = seen_at MethodBytesReply w l.
Proof. intros Hok Hreg w'. subst w'. solve_readings Hok Hreg. Qed.

Lemma BytesReply_Put_readings l0 m (v : float64) w l :
  world_ok w -> registers l0 m w ->
  let w' := set_histograms (alter (with_value (fun o => o ++ [v])) (BytesReply m)) w in
  count_at MethodCounts w' l = count_at MethodCounts w l /\
  count_at MethodErrors w' l = count_at MethodErrors w l /\
  seen_at MethodLatencies w' l = seen_at MethodLatencies w l /\
  seen_at MethodBytesRequest w' l = seen_at MethodBytesRequest w l /\
  seen_at MethodBytesReply w' l
  = seen_at MethodBytesReply w l + (if bool_decide (l0 = l) then 1 else 0).
Proof. intros Hok Hreg w'. subst w'. solve_readings Hok Hreg. Qed.

(** *** Every step keeps the books *)

Lemma ahead_one on l e pc :
  ahead on l [Ending e pc]
  = if bool_decide (e_labels e = l) && on e pc then 1 else 0.
Proof. cbn. now destruct (bool_decide (e_labels e = l) && on e pc). Qed.

Lemma registers_grown l m w w' : grown w w' -> registers l m w -> registers l m w'.
Proof.
  intros (G1 & G2 & G3 & G4 & G5) (R0 & R1 & R2 & R3 & R4 & R5).
  repeat split; [exact R0|..]; eapply lookup_weaken; eassumption.
Qed.

Lemma getting_ok_grown l got w w' :
  grown w w' -> getting_ok l got w -> getting_ok l got w'.
Proof.
  intros (G1 & G2 & G3 & G4 & G5).
  destruct got as [|c [|e [|lt [|rq [|? ?]]]]]; cbn; intros H;
    repeat match goal with
           | H : _ /\ _ |- _ => destruct H
           | |- _ /\ _ => split
           end;
    first [exact I | contradiction | eapply lookup_weaken; eassumption].
Qed.

Lemma call_ok_grown P P' c :
  grown (state P) (state P') -> (forall x, x ∈ issued P -> x ∈ issued P') ->
  call_ok P c -> call_ok P' c.
Proof.
  intros Hg Hi. destruct c as [l got | e pc |]; cbn.
  - now apply getting_ok_grown.
  - intros [H1 H2]. split; [now apply Hi|exact H2].
  - trivial.
Qed.

Lemma update_ok P i c' w' :
  program_ok P -> world_ok w' -> grown (state P) w' ->
  call_ok (set_state w' P) c' ->
  (forall l, books l (set_call i c' (set_state w' P))) ->
  program_ok (set_call i c' (set_state w' P)).
Proof.
  intros [H1 H2 H3 H4] Hw Hg Hc Hb. constructor.
  - exact Hw.
  - intros l m Hm. eapply registers_grown; [exact Hg|]. now apply H2.
  - cbn [calls set_call set_state]. apply Forall_insert.
    + eapply Forall_impl; [exact H3|]. intros c Hc0.
      eapply call_ok_grown; [| |exact Hc0]; [exact Hg|auto].
    + exact Hc.
  - exact Hb.
Qed.

Lemma add_call_ok P c' :
  program_ok P -> call_ok P c' ->
  (forall l, books l (add_call c' P)) -> program_ok (add_call c' P).
Proof.
  intros [H1 H2 H3 H4] Hc Hb. constructor.
  - exact H1.
  - exact H2.
  - cbn [calls add_call]. apply Forall_app. split; [exact H3|].
    constructor; [exact Hc|constructor].
  - exact Hb.
Qed.

Lemma issue_ok P l m :
  program_ok P -> registers l m (state P) -> program_ok (issue l m P).
Proof.
  intros [H1 H2 H3 H4] Hr. constructor.
  - exact H1.
  - intros l' m' Hm. cbn [issued issue] in Hm.
    apply elem_of_cons in Hm as [[= -> ->]|Hm]; [exact Hr|now apply H2].
  - eapply Forall_impl; [exact H3|]. intros c Hc.
    eapply call_ok_grown; [| |exact Hc]; [apply grown_refl|].
    intros x Hx. cbn [issued issue]. now right.
  - exact H4.
Qed.

Lemma after_Some {A} (r : option (A * world float64)) k P' :
  after r k = Some P' -> exists a w, r = Some (a, w) /\ P' = k a w.
Proof. destruct r as [[a w]|]; [|discriminate]. intros [= <-]. eauto. Qed.

Ltac books_same Hb Hs Hi :=
  let l := fresh "l" in
  intros l; specialize (Hb l); destruct (Hs l) as (E1 & E2 & E3 & E4 & E5);
  unfold books in *; cbn [state calls set_call set_state];
  rewrite E1, E2, E3, E4, E5, !(ahead_insert _ _ _ _ _ _ Hi);
  cbn [ahead foldr]; rewrite !Z.sub_0_r, !Z.add_0_r; exact Hb.

Lemma Getting_step_ok P i labels got c' w' :
  program_ok P -> calls P !! i = Some (Getting labels got) ->
  world_ok w' -> grown (state P) w' -> same_readings (state P) w' ->
  match c' with Ending _ _ => False | _ => call_ok (set_state w' P) c' end ->
  program_ok (set_call i c' (set_state w' P)).
Proof.
  intros Hok Hi Hw Hg Hs Hc. apply update_ok; try assumption.
  - now destruct c'.
  - pose proof (ok_books _ Hok) as Hb.
    destruct c' as [l' got' | |]; [|contradiction|]; books_same Hb Hs Hi.
Qed.

Lemma Ending_issued P i e pc :
  program_ok P -> calls P !! i = Some (Ending e pc) ->
  registers (e_labels e) (e_metrics e) (state P) /\
  (timed e pc = true -> remote (e_metrics e) = true).
Proof.
  intros Hok Hi.
  destruct (Forall_lookup_1 _ _ _ _ (ok_calls _ Hok) Hi) as [Hm Hrem].
  split; [|exact Hrem]. now apply (ok_issued _ Hok).
Qed.

Lemma counted_eq e pc : counted e pc = (0 <? End_rank pc)%nat.
Proof. reflexivity. Qed.

Lemma failed_counted_eq e pc : failed_counted e pc = e_failed e && (1 <? End_rank pc)%nat.
Proof. reflexivity. Qed.

Lemma timed_eq e pc : timed e pc = (2 <? End_rank pc)%nat.
Proof. reflexivity. Qed.

Lemma sized_eq e pc : sized e pc = (3 <? End_rank pc)%nat.
Proof. reflexivity. Qed.

Ltac books_End Hok Hi Hreg readings :=
  let l := fresh "l" in
  intros l; pose proof (ok_books _ Hok l) as Hb;
  destruct (readings l (ok_state _ Hok) Hreg) as (E1 & E2 & E3 & E4 & E5);
  destruct Hreg as (Hremote & _);
  unfold books in *; cbn [state calls set_call set_state];
  rewrite E1, E2, E3, E4, E5, !(ahead_insert _ _ _ _ _ _ Hi), ?ahead_one;
  rewrite ?counted_eq, ?failed_counted_eq, ?timed_eq, ?sized_eq in *;
  cbn [ahead foldr End_rank Nat.ltb Nat.leb] in *;
  match goal with
  | |- context [bool_decide (?a = l)] =>
      destruct (decide (a = l)) as [<-|Hne];
      [ rewrite !bool_decide_eq_true_2 in * by reflexivity; rewrite <- Hremote in *
      | rewrite !bool_decide_eq_false_2 in * by exact Hne ]
  end;
  cbn [andb] in *.

Ltac books_close Hrem :=
  repeat match goal with
         | |- context [e_failed ?e] => destruct (e_failed e)
         end;
  cbn [andb] in *;
  repeat match goal with
         | |- context [if ?b then _ else _] => destruct b eqn:?
         end;
  first [lia | specialize (Hrem eq_refl); congruence].

Lemma Ending_AtCount_ok P i e u w' :
  program_ok P -> calls P !! i = Some (Ending e AtCount) ->
  Counter_Inc (Count (e_metrics e)) (state P) = Some (u, w') ->
  program_ok (set_call i (Ending e AtErrorCount) (set_state w' P)).
Proof.
  intros Hok Hi H. destruct (Ending_issued _ _ _ _ Hok Hi) as [Hreg Hrem].
  destruct (Forall_lookup_1 _ _ _ _ (ok_calls _ Hok) Hi) as [Hm _].
  pose proof (Counter_Inc_keeps _ _ _ _ H) as Hk.
  apply Counter_Inc_Some in H as [_ ->].
  apply update_ok; [exact Hok | | now apply grown_keeps | | ].
  - exact (keeps_world_ok _ _ Hk (ok_state _ Hok)).
  - split; [exact Hm|discriminate].
  - books_End Hok Hi Hreg (Count_Inc_readings (e_labels e) (e_metrics e) (state P));
      books_close Hrem.
Qed.

Lemma Ending_AtErrorCount_ok P i e u w' :
  program_ok P -> calls P !! i = Some (Ending e AtErrorCount) ->
  when (e_failed e) (Counter_Inc (ErrorCount (e_metrics e))) (state P) = Some (u, w') ->
  program_ok (set_call i (Ending e AtLatency) (set_state w' P)).
Proof.
  intros Hok Hi H. destruct (Ending_issued _ _ _ _ Hok Hi) as [Hreg Hrem].
  destruct (Forall_lookup_1 _ _ _ _ (ok_calls _ Hok) Hi) as [Hm _].
  unfold when in H. destruct (e_failed e) eqn:Hf.
  - pose proof (Counter_Inc_keeps _ _ _ _ H) as Hk.
    apply Counter_Inc_Some in H as [_ ->].
    apply update_ok; [exact Hok | | now apply grown_keeps | | ].
    + exact (keeps_world_ok _ _ Hk (ok_state _ Hok)).
    + split; [exact Hm|discriminate].
    + books_End Hok Hi Hreg
        (ErrorCount_Inc_readings (e_labels e) (e_metrics e) (state P));
        rewrite ?Hf in *; books_close Hrem.
  - injection H as _ <-.
    apply update_ok; [exact Hok | exact (ok_state _ Hok) | apply grown_refl | | ].
    + split; [exact Hm|discriminate].
    + intros l. pose proof (ok_books _ Hok l) as Hb.
      unfold books in *. cbn [state calls set_call set_state].
      rewrite !(ahead_insert _ _ _ _ _ _ Hi), !ahead_one.
      rewrite ?counted_eq, ?failed_counted_eq, ?timed_eq, ?sized_eq, Hf.
      cbn [End_rank Nat.ltb Nat.leb andb]. rewrite !andb_false_r, ?andb_true_r.
      destruct (bool_decide (e_labels e = l)), (Remote l); lia.
Qed.

Lemma Ending_AtLatency_ok P i e u w' :
  program_ok P -> calls P !! i = Some (Ending e AtLatency) ->
  Histogram_Put (Latency (e_metrics e)) (float64_of_int (e_latency e)) (state P)
  = Some (u, w') ->
  program_ok
    (set_call i (if remote (e_metrics e) then Ending e AtBytesRequest else Returned)
       (set_state w' P)).
Proof.
  intros Hok Hi H. destruct (Ending_issued _ _ _ _ Hok Hi) as [Hreg Hrem].
  destruct (Forall_lookup_1 _ _ _ _ (ok_calls _ Hok) Hi) as [Hm _].
  pose proof (Histogram_Put_keeps _ _ _ _ _ H) as Hk.
  apply Histogram_Put_Some in H as [_ ->].
  apply update_ok; [exact Hok | | now apply grown_keeps | | ].
  - exact (keeps_world_ok _ _ Hk (ok_state _ Hok)).
  - destruct (remote (e_metrics e)) eqn:Hr; [|exact I].
    split; [exact Hm|]. intros _. exact Hr.
  - destruct (remote (e_metrics e)) eqn:Hr.
    + books_End Hok Hi Hreg
        (fun l => Latency_Put_readings (e_labels e) (e_metrics e)
                    (float64_of_int (e_latency e)) (state P) l);
        books_close Hrem.
    + books_End Hok Hi Hreg
        (fun l => Latency_Put_readings (e_labels e) (e_metrics e)
                    (float64_of_int (e_latency e)) (state P) l);
        books_close Hrem.
Qed.

Lemma Ending_AtBytesRequest_ok P i e u w' :
  program_ok P -> calls P !! i = Some (Ending e AtBytesRequest) ->
  Histogram_Put (BytesRequest (e_metrics e)) (float64_of_int (e_requestBytes e))
    (state P) = Some (u, w') ->
  program_ok (set_call i (Ending e AtBytesReply) (set_state w' P)).
Proof.
  intros Hok Hi H. destruct (Ending_issued _ _ _ _ Hok Hi) as [Hreg Hrem].
  destruct (Forall_lookup_1 _ _ _ _ (ok_calls _ Hok) Hi) as [Hm _].
  pose proof (Histogram_Put_keeps _ _ _ _ _ H) as Hk.
  apply Histogram_Put_Some in H as [_ ->].
  apply update_ok; [exact Hok | | now apply grown_keeps | | ].
  - exact (keeps_world_ok _ _ Hk (ok_state _ Hok)).
  - split; [exact Hm|]. intros _. now apply Hrem.
  - books_End Hok Hi Hreg
      (fun l => BytesRequest_Put_readings (e_labels e) (e_metrics e)
                  (float64_of_int (e_requestBytes e)) (state P) l);
      books_close Hrem.
Qed.

Lemma Ending_AtBytesReply_ok P i e u w' :
  program_ok P -> calls P !! i = Some (Ending e AtBytesReply) ->
  Histogram_Put (BytesReply (e_metrics e)) (float64_of_int (e_replyBytes e))
    (state P) = Some (u, w') ->
  program_ok (set_call i Returned (set_state w' P)).
Proof.
  intros Hok Hi H. destruct (Ending_issued _ _ _ _ Hok Hi) as [Hreg Hrem].
  pose proof (Histogram_Put_keeps _ _ _ _ _ H) as Hk.
  apply Histogram_Put_Some in H as [_ ->].
  apply update_ok; [exact Hok | | now apply grown_keeps | exact I | ].
  - exact (keeps_world_ok _ _ Hk (ok_state _ Hok)).
  - books_End Hok Hi Hreg
      (fun l => BytesReply_Put_readings (e_labels e) (e_metrics e)
                  (float64_of_int (e_replyBytes e)) (state P) l);
      books_close Hrem.
Qed.

Lemma next_ok P i P' :
  program_ok P -> next float64_of_int i P = Some P' -> program_ok P'.
Proof.
  intros Hok H. unfold next in H.
  destruct (calls P !! i) as [[labels got | e pc |]|] eqn:Hi; try discriminate.
  - pose proof (Forall_lookup_1 _ _ _ _ (ok_calls _ Hok) Hi) as Hgot.
    cbn [call_ok] in Hgot. pose proof (ok_state _ Hok) as Hw.
    destruct got as [|c [|e [|lt [|rq [|? ?]]]]]; [| | | | |discriminate];
      apply after_Some in H as (p & w' & H & ->).
    + destruct (MethodCounts_Get_quiet _ _ _ _ H) as (Hp & Hg & Hs).
      eapply Getting_step_ok; [exact Hok | exact Hi | | exact Hg | exact Hs | ].
      * eapply Get_world_ok; [|exact H].
        destruct (MethodCounts_Get_spec labels _ Hw) as (? & ? & ? & ? & _); eauto.
      * exact Hp.
    + destruct (MethodErrors_Get_quiet _ _ _ _ H) as (Hp & Hg & Hs).
      eapply Getting_step_ok; [exact Hok | exact Hi | | exact Hg | exact Hs | ].
      * eapply Get_world_ok; [|exact H].
        destruct (MethodErrors_Get_spec labels _ Hw) as (? & ? & ? & ? & _); eauto.
      * pose proof (getting_ok_grown _ _ _ _ Hg Hgot) as Hgot'.
        cbn in Hgot'. cbn. tauto.
    + destruct (MethodLatencies_Get_quiet _ _ _ _ H) as (Hp & Hg & Hs).
      eapply Getting_step_ok; [exact Hok | exact Hi | | exact Hg | exact Hs | ].
      * eapply Get_world_ok; [|exact H].
        destruct (MethodLatencies_Get_spec labels _ Hw) as (? & ? & ? & ? & _); eauto.
      * pose proof (getting_ok_grown _ _ _ _ Hg Hgot) as Hgot'.
        cbn in Hgot'. cbn. tauto.
    + destruct (MethodBytesRequest_Get_quiet _ _ _ _ H) as (Hp & Hg & Hs).
      eapply Getting_step_ok; [exact Hok | exact Hi | | exact Hg | exact Hs | ].
      * eapply Get_world_ok; [|exact H].
        destruct (MethodBytesRequest_Get_spec labels _ Hw) as (? & ? & ? & ? & _); eauto.
      * pose proof (getting_ok_grown _ _ _ _ Hg Hgot) as Hgot'.
        cbn in Hgot'. cbn. tauto.
    + destruct (MethodBytesReply_Get_quiet _ _ _ _ H) as (Hp & Hg & Hs).
      pose proof (getting_ok_grown _ _ _ _ Hg Hgot) as (H1 & H2 & H3 & H4).
      apply issue_ok.
      * eapply Getting_step_ok; [exact Hok | exact Hi | | exact Hg | exact Hs | exact I].
        eapply Get_world_ok; [|exact H].
        destruct (MethodBytesReply_Get_spec labels _ Hw) as (? & ? & ? & ? & _); eauto.
      * repeat split; assumption.
  - cbv zeta in H. destruct pc; apply after_Some in H as (u & w' & H & ->).
    + eapply Ending_AtCount_ok; eassumption.
    + eapply Ending_AtErrorCount_ok; eassumption.
    + eapply Ending_AtLatency_ok; eassumption.
    + eapply Ending_AtBytesRequest_ok; eassumption.
    + eapply Ending_AtBytesReply_ok; eassumption.
Qed.

Lemma step_calls_ok P P' : program_ok P -> step_calls float64_of_int P P' -> program_ok P'.
Proof.
  intros Hok Hstep. destruct Hstep as [P d Hd Hr | P labels | P m h w H
    | P labels m h failed requestBytes replyBytes d w Hm H | P i P' H].
  - destruct Hok as [H1 H2 H3 H4]. constructor.
    + exact (proj1 (step_ok float64_of_int _ _ H1 (step_tick _ _ _ _ Hd Hr))).
    + exact H2.
    + exact H3.
    + exact H4.
  - apply add_call_ok; [exact Hok|exact I|].
    intros l. pose proof (ok_books _ Hok l) as Hb.
    unfold books in *. cbn [state calls add_call].
    rewrite !ahead_app. cbn [ahead foldr]. rewrite !Z.add_0_r. exact Hb.
  - unfold Begin, bind, time_Now, ret in H. injection H as _ <-.
    destruct Hok as [H1 H2 H3 H4]. constructor; assumption.
  - unfold time_Since in H. injection H as _ <-.
    assert (Hok' : program_ok (set_state (state P) P))
      by (destruct Hok as [H1 H2 H3 H4]; constructor; assumption).
    apply add_call_ok; [exact Hok'| |].
    + split; [exact Hm|discriminate].
    + intros l. pose proof (ok_books _ Hok l) as Hb.
      unfold books in *. cbn [state calls add_call set_state].
      rewrite !ahead_app, !ahead_one.
      rewrite counted_eq, failed_counted_eq, timed_eq, sized_eq.
      cbn [End_rank Nat.ltb Nat.leb]. rewrite !andb_false_r, !Z.add_0_r. exact Hb.
  - eapply next_ok; eassumption.
Qed.

Lemma init_program_ok now : time.int64_range now -> program_ok (init_program float64 now).
Proof.
  intros Hnow. constructor.
  - now apply init_world_ok.
  - intros l m Hm. cbn in Hm. now apply elem_of_nil in Hm.
  - constructor.
  - intros l. unfold books, count_at, seen_at, reading.
    cbn [state calls init_program init_world MethodCounts MethodErrors
         MethodLatencies MethodBytesRequest MethodBytesReply ahead foldr].
    rewrite !lookup_empty. destruct (Remote l); lia.
Qed.

Lemma runs_ok now P :
  time.int64_range now -> runs float64_of_int (init_program float64 now) P -> program_ok P.
Proof.
  intros Hnow Hruns. apply (init_program_ok now) in Hnow. revert Hnow.
  induction Hruns as [|P0 P1 P2 Hstep _ IH]; [auto|].
  intros H0. apply IH. eapply step_calls_ok; eassumption.
Qed.

(** *** No call in progress panics *)

Lemma next_Some P i c :
  program_ok P -> calls P !! i = Some c -> c <> Returned ->
  is_Some (next float64_of_int i P).
Proof.
  intros Hok Hi Hc. pose proof (ok_state _ Hok) as Hw.
  pose proof (Forall_lookup_1 _ _ _ _ (ok_calls _ Hok) Hi) as Hcall.
  unfold next. rewrite Hi. destruct c as [labels got | e pc |]; [| |congruence].
  - destruct got as [|c [|e [|lt [|rq [|? ?]]]]]; [| | | | |contradiction].
    + destruct (MethodCounts_Get_spec labels _ Hw) as (? & ? & -> & _). cbn. eauto.
    + destruct (MethodErrors_Get_spec labels _ Hw) as (? & ? & -> & _). cbn. eauto.
    + destruct (MethodLatencies_Get_spec labels _ Hw) as (? & ? & -> & _). cbn. eauto.
    + destruct (MethodBytesRequest_Get_spec labels _ Hw) as (? & ? & -> & _). cbn. eauto.
    + destruct (MethodBytesReply_Get_spec labels _ Hw) as (? & ? & -> & _). cbn. eauto.
  - destruct (Ending_issued _ _ _ _ Hok Hi) as [(_ & R1 & R2 & R3 & R4 & R5) _].
    destruct Hw as [K1 K2 K3 K4 K5 _]. cbv zeta.
    assert (Hafter : forall (r : option (unit * world float64)) k,
               is_Some r -> is_Some (after r k))
      by (intros r k [[u w1] ->]; cbn; eauto).
    destruct pc; apply Hafter.
    + eexists. apply Counter_Inc_live. exact (metric_id_live _ _ _ (K1 _ _ R1)).
    + unfold when. destruct (e_failed e); [|unfold ret; eauto].
      eexists. apply Counter_Inc_live. exact (metric_id_live _ _ _ (K2 _ _ R2)).
    + eexists. apply Histogram_Put_live. exact (metric_id_live _ _ _ (K3 _ _ R3)).
    + eexists. apply Histogram_Put_live. exact (metric_id_live _ _ _ (K4 _ _ R4)).
    + eexists. apply Histogram_Put_live. exact (metric_id_live _ _ _ (K5 _ _ R5)).
Qed.

(** *** The books of a bundle *)

Lemma count_at_Count l m w :
  registers l m w ->
  count_at MethodCounts w l = counter_value w (Count m) /\
  count_at MethodErrors w l = counter_value w (ErrorCount m).
Proof.
  intros (_ & R1 & R2 & _). unfold count_at, reading, counter_value.
  rewrite R1, R2. split; reflexivity.
Qed.

Lemma reading_length {A} (h : gmap loc (Metric (list A))) p :
  match h !! p with
  | Some c => Z.of_nat (length (m_value c))
  | None => 0
  end = Z.of_nat (length (from_option m_value [] (h !! p))).
Proof. now destruct (h !! p). Qed.

Lemma seen_at_Latency l m w :
  registers l m w ->
  seen_at MethodLatencies w l = Z.of_nat (length (observations w (Latency m))) /\
  seen_at MethodBytesRequest w l
  = Z.of_nat (length (observations w (BytesRequest m))) /\
  seen_at MethodBytesReply w l = Z.of_nat (length (observations w (BytesReply m))).
Proof.
  intros (_ & _ & _ & R3 & R4 & R5). unfold seen_at, reading, observations.
  rewrite R3, R4, R5. repeat split; exact (reading_length _ _).
Qed.

Lemma registers_inj l m m' w : registers l m w -> registers l m' w -> m = m'.
Proof.
  intros (R0 & R1 & R2 & R3 & R4 & R5) (R0' & R1' & R2' & R3' & R4' & R5').
  destruct m, m'. cbn in *. f_equal; congruence.
Qed.

(** X12. The books of a bundle while calls are in progress.  In a process
    whose callers run [MethodMetricsFor], [Begin] and [End] (on bundles
    that [MethodMetricsFor] returned) statement by statement, in any
    interleaving and with time passing in between, every bundle
    [MethodMetricsFor] has returned satisfies in every state: the error
    count is at most the invocation count, and the latency histogram holds
    at most one observation per counted invocation; on a remote bundle the
    reply-size histogram holds at most as many observations as the
    request-size histogram, and that one at most as many as the latency
    histogram; on a local bundle the two byte-size histograms are empty.
    When no call of [End] on the bundle is in progress, the latency
    histogram holds exactly one observation per counted invocation and, on
    a remote bundle, so do the two byte-size histograms.  And every call in
    progress can execute its next statement: none panics. *)
Theorem End_books_in_progress now (P : program float64) l m :
  time.int64_range now ->
  runs float64_of_int (init_program float64 now) P ->
  (l, m) ∈ issued P ->
  let w := state P in
  let n := counter_value w (Count m) in
  let seen p := Z.of_nat (length (observations w p)) in
  (0 <= counter_value w (ErrorCount m) <= n /\ seen (Latency m) <= n) /\
  (if remote m
   then seen (BytesReply m) <= seen (BytesRequest m) <= seen (Latency m)
   else observations w (BytesRequest m) = [] /\
        observations w (BytesReply m) = []) /\
  ((forall e pc, Ending e pc ∈ calls P -> e_metrics e <> m) ->
   seen (Latency m) = n /\
   (remote m = true -> seen (BytesRequest m) = n /\ seen (BytesReply m) = n)) /\
  (forall i c, calls P !! i = Some c -> c <> Returned ->
     is_Some (next float64_of_int i P)).
Proof.
  intros Hnow Hruns Hm w n seen. subst w n seen. cbv beta.
  pose proof (runs_ok now P Hnow Hruns) as Hok.
  pose proof (ok_issued _ Hok l m Hm) as Hreg.
  pose proof (ok_books _ Hok l) as Hb. unfold books in Hb. cbv zeta in Hb.
  destruct (count_at_Count _ _ _ Hreg) as (E1 & E2).
  destruct (seen_at_Latency _ _ _ Hreg) as (E3 & E4 & E5).
  rewrite E1, E2, E3, E4, E5 in Hb. clear E1 E2 E3 E4 E5.
  assert (Hrem : remote m = Remote l) by apply Hreg. rewrite <- Hrem in Hb.
  pose proof (ahead_le failed_counted counted l (calls P)) as A1.
  pose proof (ahead_le timed counted l (calls P)) as A2.
  pose proof (ahead_le sized timed l (calls P)) as A3.
  assert (0 <= ahead failed_counted l (calls P) <= ahead counted l (calls P)) as B1.
  { apply A1. intros e pc. rewrite failed_counted_eq, counted_eq.
    destruct (e_failed e), pc; cbn; congruence. }
  assert (0 <= ahead timed l (calls P) <= ahead counted l (calls P)) as B2.
  { apply A2. intros e pc. rewrite timed_eq, counted_eq.
    destruct pc; cbn; congruence. }
  assert (0 <= ahead sized l (calls P) <= ahead timed l (calls P)) as B3.
  { apply A3. intros e pc. rewrite sized_eq, timed_eq.
    destruct pc; cbn; congruence. }
  clear A1 A2 A3. split; [|split; [|split]].
  - destruct (remote m); lia.
  - destruct (remote m); [lia|].
    destruct Hb as (_ & _ & Hq & Hr). split.
    + destruct (observations (state P) (BytesRequest m)); [reflexivity|].
      cbn [length] in Hq. lia.
    + destruct (observations (state P) (BytesReply m)); [reflexivity|].
      cbn [length] in Hr. lia.
  - intros Hnone.
    assert (Hno : forall e pc, Ending e pc ∈ calls P -> e_labels e <> l).
    { intros e pc He Hl. apply (Hnone e pc He).
      apply list_elem_of_lookup_1 in He as [i Hi].
      destruct (Ending_issued _ _ _ _ Hok Hi) as [Hreg' _].
      rewrite Hl in Hreg'. exact (registers_inj _ _ _ _ Hreg' Hreg). }
    rewrite !(ahead_none _ _ _ Hno) in Hb.
    split; [lia|]. intros Ht. rewrite Ht in Hb. lia.
  - intros i c. now apply next_Some.
Qed.

(** *** A call that runs on its own

    The statements of a call, executed without another caller in between,
    are the function of the source. *)

Lemma alone_Returned n i P : calls P !! i = Some Returned -> alone float64_of_int n i P = Some P.
Proof. intros Hi. destruct n; [reflexivity|]. cbn [alone]. now rewrite Hi. Qed.

Lemma set_call_lookup i c (w : world float64) P c0 :
  calls P !! i = Some c0 -> calls (set_call i c (set_state w P)) !! i = Some c.
Proof.
  intros Hi. cbn [calls set_call set_state].
  apply list_lookup_insert_eq. eapply lookup_lt_Some; eassumption.
Qed.

Lemma alone_Ending n i P e pc :
  calls P !! i = Some (Ending e pc) ->
  alone float64_of_int (S n) i P
  = match next float64_of_int i P with
    | Some P' => alone float64_of_int n i P'
    | None => None
    end.
Proof. intros Hi. cbn [alone]. now rewrite Hi. Qed.

Lemma alone_Getting n i P labels got :
  calls P !! i = Some (Getting labels got) ->
  alone float64_of_int (S n) i P
  = match next float64_of_int i P with
    | Some P' => alone float64_of_int n i P'
    | None => None
    end.
Proof. intros Hi. cbn [alone]. now rewrite Hi. Qed.

Lemma End_alone_AtBytesReply n i P e :
  calls P !! i = Some (Ending e AtBytesReply) ->
  state <$> alone float64_of_int (S n) i P
  = snd <$> Histogram_Put (BytesReply (e_metrics e))
              (float64_of_int (e_replyBytes e)) (state P).
Proof.
  intros Hi. rewrite (alone_Ending _ _ _ _ _ Hi). unfold next. rewrite Hi. cbv zeta.
  destruct (Histogram_Put _ _ (state P)) as [[u w1]|]; [|reflexivity].
  cbn [after]. now rewrite (alone_Returned _ _ _ (set_call_lookup _ _ _ _ _ Hi)).
Qed.

Lemma End_alone_AtBytesRequest n i P e :
  calls P !! i = Some (Ending e AtBytesRequest) ->
  state <$> alone float64_of_int (S (S n)) i P
  = snd <$> bind (Histogram_Put (BytesRequest (e_metrics e))
                    (float64_of_int (e_requestBytes e)))
              (fun _ => Histogram_Put (BytesReply (e_metrics e))
                          (float64_of_int (e_replyBytes e))) (state P).
Proof.
  intros Hi. rewrite (alone_Ending _ _ _ _ _ Hi). unfold next. rewrite Hi. cbv zeta.
  unfold bind.
  destruct (Histogram_Put _ _ (state P)) as [[u w1]|]; [|reflexivity].
  cbn [after].
  exact (End_alone_AtBytesReply _ _ _ _ (set_call_lookup _ _ _ _ _ Hi)).
Qed.

Lemma End_alone_AtLatency n i P e :
  calls P !! i = Some (Ending e AtLatency) ->
  state <$> alone float64_of_int (S (S (S n))) i P
  = snd <$> bind (Histogram_Put (Latency (e_metrics e))
                    (float64_of_int (e_latency e)))
              (fun _ =>
                 when (remote (e_metrics e))
                   (bind (Histogram_Put (BytesRequest (e_metrics e))
                            (float64_of_int (e_requestBytes e)))
                      (fun _ => Histogram_Put (BytesReply (e_metrics e))
                                  (float64_of_int (e_replyBytes e))))) (state P).
Proof.
  intros Hi. rewrite (alone_Ending _ _ _ _ _ Hi). unfold next. rewrite Hi. cbv zeta.
  unfold bind at 1.
  destruct (Histogram_Put _ _ (state P)) as [[u w1]|]; [|reflexivity].
  cbn [after]. unfold when. destruct (remote (e_metrics e)).
  - exact (End_alone_AtBytesRequest _ _ _ _ (set_call_lookup _ _ _ _ _ Hi)).
  - now rewrite (alone_Returned _ _ _ (set_call_lookup _ _ _ _ _ Hi)).
Qed.

Lemma End_alone P i e h :
  calls P !! i = Some (Ending e AtCount) ->
  e_latency e = End_latency h (state P) ->
  state <$> alone float64_of_int 5 i P
  = snd <$> End float64_of_int (e_metrics e) h (e_failed e) (e_requestBytes e)
              (e_replyBytes e) (state P).
Proof.
  intros Hi Hlat. rewrite (alone_Ending _ _ _ _ _ Hi). unfold next. rewrite Hi.
  cbv zeta. unfold End. unfold bind at 1. unfold time_Since at 1.
  fold (End_latency h (state P)). rewrite <- Hlat. unfold bind at 1.
  destruct (Counter_Inc _ (state P)) as [[u w1]|]; [|reflexivity].
  cbn [after].
  pose proof (set_call_lookup i (Ending e AtErrorCount) w1 _ _ Hi) as Hi1.
  rewrite (alone_Ending _ _ _ _ _ Hi1). unfold next. rewrite Hi1. cbv zeta.
  unfold bind at 1. cbn [state set_call set_state].
  destruct (when (e_failed e) (Counter_Inc (ErrorCount (e_metrics e))) w1)
    as [[u2 w2]|]; [|reflexivity].
  cbn [after].
  exact (End_alone_AtLatency _ _ _ _ (set_call_lookup _ _ _ _ _ Hi1)).
Qed.

Ltac step_Getting Hi :=
  rewrite (alone_Getting _ _ _ _ _ Hi); unfold next; rewrite Hi;
  unfold bind at 1;
  match goal with
  | |- context [after ?r _] => destruct r as [[? ?]|]; [|reflexivity]
  end;
  cbn [after].

Lemma MethodMetricsFor_alone_5 n i P labels (c e l rq : loc) :
  calls P !! i = Some (Getting labels [c; e; l; rq]) ->
  (fun P' => (state P', issued P')) <$> alone float64_of_int (S n) i P
  = (fun r => (r.2, (labels, r.1) :: issued P)) <$>
      bind (MethodBytesReply_Get float64 labels)
        (fun rp => ret {| remote := Remote labels; Count := c; ErrorCount := e;
                          Latency := l; BytesRequest := rq; BytesReply := rp |})
        (state P).
Proof.
  intros Hi. step_Getting Hi.
  rewrite alone_Returned; [reflexivity|].
  cbn [calls issue]. exact (set_call_lookup _ _ _ _ _ Hi).
Qed.

Lemma MethodMetricsFor_alone_4 n i P labels (c e l : loc) :
  calls P !! i = Some (Getting labels [c; e; l]) ->
  (fun P' => (state P', issued P')) <$> alone float64_of_int (S (S n)) i P
  = (fun r => (r.2, (labels, r.1) :: issued P)) <$>
      bind (MethodBytesRequest_Get float64 labels) (fun rq =>
      bind (MethodBytesReply_Get float64 labels)
        (fun rp => ret {| remote := Remote labels; Count := c; ErrorCount := e;
                          Latency := l; BytesRequest := rq; BytesReply := rp |}))
        (state P).
Proof.
  intros Hi. step_Getting Hi.
  exact (MethodMetricsFor_alone_5 _ _ _ _ _ _ _ _ (set_call_lookup _ _ _ _ _ Hi)).
Qed.

Lemma MethodMetricsFor_alone_3 n i P labels (c e : loc) :
  calls P !! i = Some (Getting labels [c; e]) ->
  (fun P' => (state P', issued P')) <$> alone float64_of_int (S (S (S n))) i P
  = (fun r => (r.2, (labels, r.1) :: issued P)) <$>
      bind (MethodLatencies_Get float64 labels) (fun l : loc =>
      bind (MethodBytesRequest_Get float64 labels) (fun rq =>
      bind (MethodBytesReply_Get float64 labels)
        (fun rp => ret {| remote := Remote labels; Count := c; ErrorCount := e;
                          Latency := l; BytesRequest := rq; BytesReply := rp |})))
        (state P).
Proof.
  intros Hi. step_Getting Hi.
  exact (MethodMetricsFor_alone_4 _ _ _ _ _ _ _ (set_call_lookup _ _ _ _ _ Hi)).
Qed.

Lemma MethodMetricsFor_alone_2 n i P labels (c : loc) :
  calls P !! i = Some (Getting labels [c]) ->
  (fun P' => (state P', issued P')) <$> alone float64_of_int (S (S (S (S n)))) i P
  = (fun r => (r.2, (labels, r.1) :: issued P)) <$>
      bind (MethodErrors_Get float64 labels) (fun e =>
      bind (MethodLatencies_Get float64 labels) (fun l : loc =>
      bind (MethodBytesRequest_Get float64 labels) (fun rq =>
      bind (MethodBytesReply_Get float64 labels)
        (fun rp => ret {| remote := Remote labels; Count := c; ErrorCount := e;
                          Latency := l; BytesRequest := rq; BytesReply := rp |}))))
        (state P).
Proof.
  intros Hi. step_Getting Hi.
  exact (MethodMetricsFor_alone_3 _ _ _ _ _ _ (set_call_lookup _ _ _ _ _ Hi)).
Qed.

Lemma MethodMetricsFor_alone P i labels :
  calls P !! i = Some (Getting labels []) ->
  (fun P' => (state P', issued P')) <$> alone float64_of_int 5 i P
  = (fun r => (r.2, (labels, r.1) :: issued P)) <$>
      MethodMetricsFor labels (state P).
Proof.
  intros Hi. unfold MethodMetricsFor. step_Getting Hi.
  exact (MethodMetricsFor_alone_2 _ _ _ _ _ (set_call_lookup _ _ _ _ _ Hi)).
Qed.

Lemma alone_runs n i P P' :
  alone float64_of_int n i P = Some P' -> runs float64_of_int P P'.
Proof.
  revert P. induction n as [|n IH]; intros P; cbn [alone].
  - intros [= <-]. apply rtc_refl.
  - destruct (calls P !! i) as [[| |]|];
      try (intros [= <-]; apply rtc_refl);
      destruct (next float64_of_int i P) as [P1|] eqn:E; try discriminate;
      intros H; (eapply rtc_l; [exact (calls_next _ _ _ _ E)|exact (IH _ H)]).
Qed.

End CallsInProgress.

(** *** The books at the sample state with a call in progress *)

Section CallsInProgressSample.

Import codegen.

Lemma sample_program_reached :
  runs (fun z => z) (init_program Z 1000000) sample_program.
Proof.
  pose (P1 := {| state := sample_world;
                 issued := [(sample_labels, sample_metrics)];
                 calls := [Returned] |}).
  eapply rtc_l; [exact (calls_MethodMetricsFor _ _ sample_labels)|].
  transitivity P1.
  { apply (alone_runs (fun z => z) 5 0). vm_compute. reflexivity. }
  eapply rtc_l.
  { apply (calls_End (fun z => z) P1 sample_labels sample_metrics
             {| start := {| time.ext := 1000000 |} |} true 10 20 0 sample_world).
    - apply list_elem_of_here.
    - vm_compute. reflexivity. }
  apply rtc_once. apply (calls_next _ _ 1%nat). vm_compute. reflexivity.
Qed.

Lemma End_books_in_progress_witness :
  let w := state sample_program in
  time.int64_range 1000000 /\
  runs (fun z => z) (init_program Z 1000000) sample_program /\
  (sample_labels, sample_metrics) ∈ issued sample_program /\
  counter_value w 1%positive = 1 /\ observations w 1%positive = [] /\
  (0 <= counter_value w 2%positive <= counter_value w 1%positive /\
   Z.of_nat (length (observations w 1%positive)) <= counter_value w 1%positive) /\
  (Z.of_nat (length (observations w 3%positive))
   <= Z.of_nat (length (observations w 2%positive))
   <= Z.of_nat (length (observations w 1%positive))) /\
  is_Some (next (fun z => z) 1 sample_program).
Proof.
  intros w.
  assert (Hm : (sample_labels, sample_metrics) ∈ issued sample_program)
    by apply list_elem_of_here.
  split; [exact sample_now_in_range|]. split; [exact sample_program_reached|].
  split; [exact Hm|]. split; [reflexivity|]. split; [reflexivity|].
  destruct (End_books_in_progress (fun z => z) 1000000 sample_program
              sample_labels sample_metrics sample_now_in_range
              sample_program_reached Hm) as (H1 & H2 & _ & H4).
  split; [exact H1|]. split; [exact H2|].
  apply (H4 1%nat (Ending sample_ending AtErrorCount)); [reflexivity|discriminate].
Defined.

End CallsInProgressSample.

(** ** Ref, Listener and configuration *)

(** C10. [r.Get()] is the value of [r]'s field and nothing else: it is a
    function of [r] alone (it reads no process state, so it neither resolves
    nor blocks nor writes), the value a Ref was built with is the value
    [Get] returns, and any two calls on the same [r] return the same
    handle. *)
Theorem Ref_Get_pure_accessor (T : Type) :
  (forall (v : T), weaver.Ref_Get {| weaver.value := v |} = v) /\
  (forall (r : weaver.Ref T), weaver.Ref_Get r = weaver.value r) /\
  (forall (r r' : weaver.Ref T), r = r' -> weaver.Ref_Get r = weaver.Ref_Get r').
Proof.
  split; [|split].
  - intros v. reflexivity.
  - intros r. reflexivity.
  - intros r r' ->. reflexivity.
Qed.

(** C6. [l.String()] is the proxy address whenever that is non-empty,
    whatever the listener underneath (even none); with no proxy address it is
    the address of the bound socket. *)
Theorem Listener_String_proxy_first (l : weaver.Listener) :
  (weaver.proxyAddr l <> "" ->
   weaver.Listener_String l = Some (weaver.proxyAddr l)) /\
  (forall nl,
     weaver.proxyAddr l = "" ->
     weaver.Listener_Listener l = Some nl ->
     weaver.Listener_String l = Some (net.Addr_String (net.Listener_Addr nl))).
Proof.
  unfold weaver.Listener_String. split.
  - intros Hp. destruct (decide (weaver.proxyAddr l <> "")); [reflexivity|contradiction].
  - intros nl Hp Hl. rewrite Hl.
    destruct (decide (weaver.proxyAddr l <> "")); [contradiction|reflexivity].
Qed.

Lemma Listener_String_proxy_first_witness :
  let bound := {| net.Listener_Addr :=
                    {| net.Addr_Network := "tcp"; net.Addr_String := "127.0.0.1:43127" |} |} in
  weaver.Listener_String
    {| weaver.Listener_Listener := Some bound; weaver.proxyAddr := "1.2.3.4:9000" |}
  = Some "1.2.3.4:9000" /\
  weaver.Listener_String
    {| weaver.Listener_Listener := None; weaver.proxyAddr := "1.2.3.4:9000" |}
  = Some "1.2.3.4:9000" /\
  weaver.Listener_String
    {| weaver.Listener_Listener := Some bound; weaver.proxyAddr := "" |}
  = Some "127.0.0.1:43127".
Proof.
  intros bound. split; [|split].
  - apply (proj1 (Listener_String_proxy_first
                    {| weaver.Listener_Listener := Some bound;
                       weaver.proxyAddr := "1.2.3.4:9000" |})).
    simpl. discriminate.
  - apply (proj1 (Listener_String_proxy_first
                    {| weaver.Listener_Listener := None;
                       weaver.proxyAddr := "1.2.3.4:9000" |})).
    simpl. discriminate.
  - apply (proj2 (Listener_String_proxy_first
                    {| weaver.Listener_Listener := Some bound;
                       weaver.proxyAddr := "" |}) bound);
      reflexivity.
Defined.

(** A Listener that was never filled in has neither proxy nor socket:
    rendering it panics. *)
Example Listener_String_zero_value :
  weaver.Listener_String
    {| weaver.Listener_Listener := None; weaver.proxyAddr := "" |} = None.
Proof. reflexivity. Qed.

(** *** Configuration binding *)

Lemma bind_fields_field T section r f k :
  NoDup (T.*1) ->
  weaver.bind_fields T section = inr r ->
  (f, k) ∈ T ->
  weaver.field r f = Some (default (weaver.zero_value k) (section !! f)).
Proof.
  revert r. induction T as [|[g j] T IH]; intros r Hnd Hb Hin; simpl in *.
  - inversion Hin.
  - apply NoDup_cons in Hnd as [Hg Hnd].
    unfold weaver.bind_field in Hb.
    destruct (weaver.bind_fields T section) as [|r'] eqn:Hr'.
    { destruct (section !! g) as [v|]; [destruct (decide _)|]; discriminate. }
    apply elem_of_cons in Hin as [[= -> ->]|Hin].
    + destruct (section !! g) as [v|]; [destruct (decide _); [|discriminate]|];
        injection Hb as <-; simpl; now rewrite decide_True.
    + assert (Hne : g <> f).
      { intros ->. apply Hg. apply list_elem_of_fmap. now exists (f, k). }
      assert (Hrec := IH r' Hnd eq_refl Hin).
      destruct (section !! g) as [v|]; [destruct (decide _); [|discriminate]|];
        injection Hb as <-; simpl; now rewrite decide_False.
Qed.

Lemma bind_fields_total T section :
  (forall f k v, (f, k) ∈ T -> section !! f = Some v -> weaver.kind_of v = k) ->
  exists r, weaver.bind_fields T section = inr r.
Proof.
  induction T as [|[f k] T IH]; intros Hty; simpl.
  - eauto.
  - destruct IH as [r Hr].
    { intros g j v Hin. apply Hty. now right. }
    rewrite Hr. unfold weaver.bind_field.
    destruct (section !! f) as [v|] eqn:Hv; [|eauto].
    rewrite decide_True; [eauto|]. apply (Hty f k v); [left|exact Hv].
Qed.

(** C7. Binding a component's config section into its configuration type T
    (field names distinct, as in any Go struct): a key that is not a field of
    T makes the binding fail; a section whose keys are all fields of T, with
    values of the fields' types, binds; and in the bound configuration every
    field the section gives has the given value and every field it leaves
    out has the zero value of its type. *)
Theorem bind_config_zero_values_and_unknown_keys
    (T : weaver.cfg_struct) (section : gmap string weaver.cfg_value) :
  NoDup (T.*1) ->
  (forall key, key ∈ dom section -> key ∉ weaver.field_names T ->
     exists e, weaver.bind_config T section = inl e) /\
  ((forall key, key ∈ dom section -> key ∈ weaver.field_names T) ->
   (forall f k v, (f, k) ∈ T -> section !! f = Some v -> weaver.kind_of v = k) ->
     exists wc, weaver.bind_config T section = inr wc) /\
  (forall wc f k,
     weaver.bind_config T section = inr wc -> (f, k) ∈ T ->
     weaver.field (weaver.WithConfig_Config wc) f
     = Some (match section !! f with
             | Some v => v
             | None => weaver.zero_value k
             end)).
Proof.
  intros Hnd. unfold weaver.bind_config. split; [|split].
  - intros key Hin Hout.
    rewrite decide_False; [eauto|].
    intros Hempty. apply (not_elem_of_empty (C := gset string) key).
    rewrite <- Hempty. now apply elem_of_difference.
  - intros Hknown Hty.
    rewrite decide_True
      by (apply elem_of_equiv_empty_L; intros x [? ?]%elem_of_difference; auto).
    destruct (bind_fields_total T section Hty) as [r ->]. eauto.
  - intros wc f k Hb Hin.
    destruct (decide _); [|discriminate].
    destruct (weaver.bind_fields T section) as [|r] eqn:Hr; [discriminate|].
    injection Hb as <-. simpl.
    rewrite (bind_fields_field T section r f k Hnd Hr Hin).
    now destruct (section !! f).
Qed.

(** The two-field configuration struct [{Size int; Name string}] of the
    specification, bound from a section that gives only [Size = 1000] and
    from one that gives the unknown key [Bogus = 1]. *)
Lemma bind_config_zero_values_and_unknown_keys_witness :
  let T := [("Size", weaver.KInt); ("Name", weaver.KString)] in
  let only_size : gmap string weaver.cfg_value := {[ "Size" := weaver.VInt 1000 ]} in
  let bogus : gmap string weaver.cfg_value := {[ "Bogus" := weaver.VInt 1 ]} in
  (exists wc,
     weaver.bind_config T only_size = inr wc /\
     weaver.field (weaver.WithConfig_Config wc) "Size" = Some (weaver.VInt 1000) /\
     weaver.field (weaver.WithConfig_Config wc) "Name" = Some (weaver.VString "")) /\
  (exists e, weaver.bind_config T bogus = inl e).
Proof.
  intros T only_size bogus.
  assert (Hnd : NoDup (T.*1)).
  { simpl. repeat constructor;
      rewrite ?elem_of_cons, ?elem_of_nil; intuition discriminate. }
  assert (Hsize : "Size" ∈ weaver.field_names T).
  { apply elem_of_list_to_set. simpl. rewrite !elem_of_cons. tauto. }
  destruct (bind_config_zero_values_and_unknown_keys T only_size Hnd)
    as (_ & Hbinds & Hfields).
  destruct (bind_config_zero_values_and_unknown_keys T bogus Hnd)
    as (Hunknown & _ & _).
  split.
  - destruct Hbinds as [wc Hwc].
    + intros key Hkey. apply elem_of_dom in Hkey as [v Hv].
      apply lookup_singleton_Some in Hv as [<- _]. exact Hsize.
    + intros f k v Hin Hv. apply lookup_singleton_Some in Hv as [<- <-].
      unfold T in Hin. rewrite !elem_of_cons, elem_of_nil in Hin.
      destruct Hin as [[= ->]|[Hin|[]]]; [reflexivity|discriminate].
    + exists wc. split; [exact Hwc|]. split.
      * apply (Hfields wc "Size" weaver.KInt Hwc).
        unfold T. rewrite !elem_of_cons. tauto.
      * apply (Hfields wc "Name" weaver.KString Hwc).
        unfold T. rewrite !elem_of_cons. tauto.
  - apply (Hunknown "Bogus").
    + apply elem_of_dom. eexists. apply lookup_singleton_eq.
    + intros Hin. apply elem_of_list_to_set in Hin. simpl in Hin.
      rewrite !elem_of_cons, elem_of_nil in Hin. intuition discriminate.
Defined.

(** Two-field configuration struct of the specification, evaluated. *)
Example bind_config_Size_only :
  weaver.bind_config [("Size", weaver.KInt); ("Name", weaver.KString)]
    {[ "Size" := weaver.VInt 1000 ]}
  = inr {| weaver.config :=
             [("Size", weaver.VInt 1000); ("Name", weaver.VString "")] |}.
Proof. vm_compute. reflexivity. Qed.

Example bind_config_Bogus :
  weaver.bind_config [("Size", weaver.KInt); ("Name", weaver.KString)]
    {[ "Bogus" := weaver.VInt 1 ]}
  = inl (weaver.UnknownKeys {[ "Bogus" ]}).
Proof. vm_compute. reflexivity. Qed.

(** ** Routing declarations *)

(** The source's assertion [var _ Unrouted] of a nil pointer to
    [componentImpl]. *)
Example componentImpl_is_Unrouted :
  weaver.implements weaver.componentImpl_type weaver.Unrouted = true.
Proof. reflexivity. Qed.


(** *** Go's selector rule on an implementation struct

    An implementation struct in general: methods [ms] of its own, and the
    embedded fields [es], in any order.  Its own methods cannot be
    package weaver's [routedBy] (the name is unexported, so a method another
    package calls [routedBy] is a different name). *)





















(** ** Implements and the accessors of componentImpl *)

(** X16. [setInstance], [rep] and [Logger] on an implementation struct.
    While the embedded [Implements] has not been filled, [x.rep()] and
    [x.Logger()] panic.  After [setInstance(c)] they are [c.rep()] and
    [c.Logger()], and the accessors of every other implementation struct
    are as before.  [Logger] returns the logger of the component [rep]
    returns, and panics where [rep] panics or returns nil. *)
Theorem Implements_accessors (o : weaver.objects) :
  (forall i,
     weaver.embeddings o !! i = Some {| weaver.Implements_componentImpl := None |} ->
     weaver.promoted weaver.rep i o = None /\
     weaver.promoted weaver.Logger i o = None) /\
  (forall i c o', weaver.setInstance (Some i) c o = Some o' ->
     weaver.promoted weaver.rep i o' = weaver.rep c o /\
     weaver.promoted weaver.Logger i o' = weaver.Logger c o /\
     forall j, j <> i ->
       weaver.promoted weaver.rep j o' = weaver.promoted weaver.rep j o /\
       weaver.promoted weaver.Logger j o' = weaver.promoted weaver.Logger j o) /\
  (forall c, weaver.Logger c o
             = match weaver.rep c o with
               | Some (Some b) => weaver.loggers o !! b
               | _ => None
               end).
Proof.
  split; [|split].
  - intros i Hi. unfold weaver.promoted. now rewrite Hi.
  - intros i c o'. unfold weaver.setInstance.
    destruct (weaver.embeddings o !! i) as [e|] eqn:Hi; [|discriminate].
    intros [= <-]. unfold weaver.promoted. cbn [weaver.embeddings].
    rewrite lookup_insert_eq. cbn [weaver.Implements_componentImpl].
    split; [|split].
    + now destruct c.
    + now destruct c.
    + intros j Hne. rewrite lookup_insert_ne by congruence.
      split; destruct (weaver.embeddings o !! j) as [[[a|]]|]; reflexivity.
  - intros [a|]; [|reflexivity]. unfold weaver.Logger, weaver.rep.
    destruct (weaver.componentImpls o !! a) as [[[b|] ? ?]|]; reflexivity.
Qed.

(** A struct filled by [setInstance]: its accessors reach the component
    and its logger; a second struct, never filled, still panics. *)
Example Implements_accessors_sample :
  let o := {| weaver.embeddings :=
                {[ 1%positive := {| weaver.Implements_componentImpl := None |};
                   2%positive := {| weaver.Implements_componentImpl := None |} ]};
              weaver.componentImpls :=
                {[ 7%positive :=
                     {| weaver.componentImpl_component := Some 3%positive;
                        weaver.componentImpl_impl := Some 1%positive;
                        weaver.serverStub := None |} ]};
              weaver.loggers := {[ 3%positive := Some 9%positive ]} |} in
  exists o',
    weaver.setInstance (Some 1%positive) (Some 7%positive) o = Some o' /\
    weaver.promoted weaver.rep 1%positive o' = Some (Some 3%positive) /\
    weaver.promoted weaver.Logger 1%positive o' = Some (Some 9%positive) /\
    weaver.promoted weaver.rep 2%positive o' = None /\
    weaver.promoted weaver.Logger 2%positive o' = None.
Proof. intros o. eexists. repeat split; vm_compute; reflexivity. Qed.

(** ** Lazy cells under concurrent callers *)

Section LazyCells.

Import weaver.

Implicit Types (s : process) (t : thread) (c : positive) (k : cell)
  (comp : component) (r : outcome) (i j : nat).

(** *** Cells of a component *)

Lemma once_set_once k k' o comp :
  once k' (set_once k o comp) = if decide (k = k') then o else once k' comp.
Proof. destruct k, k'; reflexivity. Qed.

Lemma cached_set_once k k' o comp :
  cached k' (set_once k o comp) = cached k' comp.
Proof. destruct k'; reflexivity. Qed.

Lemma once_store k k' r comp : once k' (store k r comp) = once k' comp.
Proof. destruct k'; reflexivity. Qed.

Lemma cached_store_ne k k' r comp :
  k <> k' -> cached k' (store k r comp) = cached k' comp.
Proof. destruct k, k'; intros H; try reflexivity; contradiction. Qed.

(** *** The log of initializer executions *)

Lemma runs_of_log_run c k s c' k' :
  runs_of (log_run c k s) c' k'
  = (runs_of s c' k' + if decide ((c, k) = (c', k')) then 1 else 0)%nat.
Proof.
  unfold runs_of, log_run; simpl.
  rewrite filter_app, length_app. f_equal.
  rewrite filter_cons, filter_nil. now destruct (decide _).
Qed.

(** *** Callers *)

Lemma lookup_set_thread s i t t' j tj :
  threads s !! i = Some t ->
  <[i := t']> (threads s) !! j = Some tj ->
  (j = i /\ tj = t') \/ (j <> i /\ threads s !! j = Some tj).
Proof.
  intros Hi Hj. destruct (decide (i = j)) as [<-|Hne].
  - rewrite list_lookup_insert_eq in Hj by (eapply lookup_lt_Some; eauto).
    left. split; congruence.
  - rewrite list_lookup_insert_ne in Hj by exact Hne. right. split; congruence.
Qed.



Lemma lookup_thread_eq s i t t' :
  threads s !! i = Some t -> <[i := t']> (threads s) !! i = Some t'.
Proof. intros H. apply list_lookup_insert_eq. eapply lookup_lt_Some; eauto. Qed.

Lemma lookup_thread_ne s i t' j :
  j <> i -> <[i := t']> (threads s) !! j = threads s !! j.
Proof. intros H. apply list_lookup_insert_ne. congruence. Qed.

(** A caller that did not move is as well off after the step as before. *)
Lemma thread_ok_other s s' j tj :
  thread_ok s j tj -> settled_for j s s' -> thread_ok s' j tj.
Proof.
  unfold thread_ok. intros Hold (Htab & Hheap).
  destruct (holds (t_pc tj)) as [c|]; [|exact I].
  destruct Hold as (Hn & comp & Hc & Hcl).
  split; [auto|].
  destruct (Hheap c comp (t_cell tj) Hc) as (comp' & Hc' & HA & HB).
  exists comp'. split; [exact Hc'|]. simpl in *.
  destruct (t_pc tj); try exact I.
  - destruct (HA Hcl) as [-> _]. exact Hcl.
  - destruct Hcl as (Hm & Hd & Hr). destruct (HA Hm) as [-> ->]. auto.
  - destruct Hcl as (Hm & Hd & Hr). destruct (HA Hm) as [-> ->]. auto.
  - destruct Hcl as (Hm & Hd). destruct (HA Hm) as [-> _]. auto.
  - now destruct (HB Hcl).
  - destruct Hcl as (Hd & ->). destruct (HB Hd) as [-> ->]. auto.
Qed.

(** A cell that the step did not write. *)
Lemma cell_ok_frame s s' i t p' c comp comp' k :
  threads s !! i = Some t ->
  threads s' = <[i := at_pc t p']> (threads s) ->
  runs_of s' c k = runs_of s c k ->
  once k comp' = once k comp ->
  (t_cell t = k -> holds (t_pc t) = Some c -> in_slow_path (t_pc t) = true ->
   holds p' = Some c /\ in_slow_path p' = true /\
   (in_initFn (t_pc t) = true -> in_initFn p' = true)) ->
  cell_ok s c comp k -> cell_ok s' c comp' k.
Proof.
  intros Hti Hth Hruns Honce Hmover (HH & HD & HZ).
  unfold cell_ok. rewrite Hth, Hruns, Honce. split; [|split].
  - intros j Hj. destruct (HH j Hj) as (tj & Htj & Hk & Hh & Hs).
    destruct (decide (j = i)) as [->|Hne].
    + assert (tj = t) as -> by congruence.
      destruct (Hmover Hk Hh Hs) as (Hh' & Hs' & _).
      exists (at_pc t p'). rewrite (lookup_thread_eq _ _ _ _ Hti). auto.
    + exists tj. rewrite lookup_thread_ne by exact Hne. auto.
  - exact HD.
  - intros Hd Hno. apply HZ; [exact Hd|]. intros j tj Hj Htj.
    destruct (decide (j = i)) as [->|Hne].
    + assert (tj = t) as -> by congruence.
      destruct (HH i Hj) as (t0 & Ht0 & Hk & Hh & Hs).
      assert (t0 = t) as -> by congruence.
      destruct (Hmover Hk Hh Hs) as (_ & _ & Hi).
      specialize (Hno i (at_pc t p') Hj (lookup_thread_eq _ _ _ _ Hti)).
      simpl in Hno. destruct (in_initFn (t_pc t)); [|reflexivity].
      rewrite Hi in Hno by reflexivity. discriminate.
    + apply (Hno j tj Hj). now rewrite lookup_thread_ne.
Qed.


(** Reading [thread_ok] at a caller that holds a component, and building
    it. *)
Lemma thread_ok_at s i t c :
  thread_ok s i t -> holds (t_pc t) = Some c ->
  componentsByName s !! t_name t = Some c /\
  exists comp, heap s !! c = Some comp /\
    match t_pc t with
    | InLock _ => sync.m (once (t_cell t) comp) = Some i
    | Running _ | Ran _ =>
        sync.m (once (t_cell t) comp) = Some i /\
        sync.done (once (t_cell t) comp) = false /\
        runs_of s c (t_cell t) = 1%nat
    | Unlocking _ =>
        sync.m (once (t_cell t) comp) = Some i /\
        sync.done (once (t_cell t) comp) = true
    | AtRead _ => sync.done (once (t_cell t) comp) = true
    | Returned _ r =>
        sync.done (once (t_cell t) comp) = true /\ r = cached (t_cell t) comp
    | _ => True
    end.
Proof. unfold thread_ok. intros H Hc. rewrite Hc in H. exact H. Qed.

(** A step in which caller [i] moves from [t_pc t] to [p'] and writes, at
    most, the cell it accesses and the log entry of that cell. *)
Lemma process_ok_step s s' i t p' c comp comp' :
  process_ok s ->
  threads s !! i = Some t ->
  heap s !! c = Some comp ->
  componentsByName s' = componentsByName s ->
  heap s' = <[c := comp']> (heap s) ->
  threads s' = <[i := at_pc t p']> (threads s) ->
  (forall c' k', (c', k') <> (c, t_cell t) -> runs_of s' c' k' = runs_of s c' k') ->
  (forall k', k' <> t_cell t ->
     once k' comp' = once k' comp /\ cached k' comp' = cached k' comp) ->
  (forall c', c' <> c -> holds (t_pc t) = Some c' -> in_slow_path (t_pc t) = true ->
     holds p' = Some c' /\ in_slow_path p' = true /\
     (in_initFn (t_pc t) = true -> in_initFn p' = true)) ->
  (forall j, j <> i ->
     (sync.m (once (t_cell t) comp) = Some j ->
      once (t_cell t) comp' = once (t_cell t) comp /\
      runs_of s' c (t_cell t) = runs_of s c (t_cell t)) /\
     (sync.done (once (t_cell t) comp) = true ->
      sync.done (once (t_cell t) comp') = true /\
      cached (t_cell t) comp' = cached (t_cell t) comp)) ->
  thread_ok s' i (at_pc t p') ->
  (holds (t_pc t) = Some c -> cell_ok s' c comp' (t_cell t)) ->
  (holds (t_pc t) <> Some c ->
     once (t_cell t) comp' = once (t_cell t) comp /\
     cached (t_cell t) comp' = cached (t_cell t) comp /\
     runs_of s' c (t_cell t) = runs_of s c (t_cell t)) ->
  process_ok s'.
Proof.
  intros [Hth Hce Htab Hfr] Hti Hc Etab Eheap Eth Hruns Hcells Hmover Hsettle
    Hi Hcell Hnot.
  assert (Hsettled : forall j, j <> i -> settled_for j s s').
  { intros j Hj. split; [now rewrite Etab|].
    intros c0 comp0 k0 Hc0. rewrite Eheap.
    destruct (decide (c = c0)) as [<-|Hne].
    - assert (comp0 = comp) as -> by congruence.
      exists comp'. rewrite lookup_insert_eq. split; [reflexivity|].
      destruct (decide (k0 = t_cell t)) as [->|Hk].
      + destruct (decide (holds (t_pc t) = Some c)) as [Hh|Hh].
        * exact (Hsettle j Hj).
        * destruct (Hnot Hh) as (-> & -> & ->). auto.
      + destruct (Hcells k0 Hk) as [-> ->]. rewrite Hruns by congruence. auto.
    - exists comp0. rewrite lookup_insert_ne by exact Hne.
      rewrite Hruns by congruence. auto. }
  constructor.
  - intros j tj Hj. rewrite Eth in Hj.
    apply (lookup_set_thread _ _ _ _ _ _ Hti) in Hj as [[-> ->]|[Hne Hj]].
    + exact Hi.
    + eapply thread_ok_other; eauto.
  - intros c0 comp0 k0 Hc0. rewrite Eheap in Hc0.
    apply lookup_insert_Some in Hc0 as [[<- <-]|[Hne Hc0]].
    + destruct (decide (k0 = t_cell t)) as [->|Hk].
      * destruct (decide (holds (t_pc t) = Some c)) as [Hh|Hh]; [auto|].
        destruct (Hnot Hh) as (Ho & _ & Hr).
        apply (cell_ok_frame s s' i t p' c comp comp' (t_cell t) Hti Eth Hr Ho);
          [|now apply Hce].
        intros _ Hh'. contradiction.
      * destruct (Hcells k0 Hk) as [Ho _].
        apply (cell_ok_frame s s' i t p' c comp comp' k0 Hti Eth);
          [apply Hruns; congruence|exact Ho| |now apply Hce].
        intros Hk'. congruence.
    + apply (cell_ok_frame s s' i t p' c0 comp0 comp0 k0 Hti Eth);
        [apply Hruns; congruence|reflexivity| |now apply Hce].
      intros _ Hh Hs. apply Hmover; [congruence|exact Hh|exact Hs].
  - intros n c0. rewrite Etab, Eheap. intros Hn.
    destruct (decide (c = c0)) as [<-|Hne].
    + rewrite lookup_insert_eq. eauto.
    + rewrite lookup_insert_ne by exact Hne. eauto.
  - intros c0 k0. rewrite Eheap. intros Hc0.
    destruct (decide (c = c0)) as [<-|Hne].
    + rewrite lookup_insert_eq in Hc0. discriminate.
    + rewrite lookup_insert_ne in Hc0 by exact Hne.
      rewrite Hruns by congruence. auto.
Qed.


Lemma cell_ok_pc s i t p' c comp k :
  threads s !! i = Some t ->
  (t_cell t = k -> holds (t_pc t) = Some c -> in_slow_path (t_pc t) = true ->
   holds p' = Some c /\ in_slow_path p' = true /\
   (in_initFn (t_pc t) = true -> in_initFn p' = true)) ->
  cell_ok s c comp k -> cell_ok (set_thread i (at_pc t p') s) c comp k.
Proof.
  intros Hti Hmover. now apply (cell_ok_frame s _ i t p' c comp comp k Hti).
Qed.

(** A step that only moves the program counter of caller [i]. *)
Lemma process_ok_pc_step s i t p' c comp :
  process_ok s ->
  threads s !! i = Some t ->
  heap s !! c = Some comp ->
  (forall c', holds (t_pc t) = Some c' -> in_slow_path (t_pc t) = true ->
     holds p' = Some c' /\ in_slow_path p' = true /\
     (in_initFn (t_pc t) = true -> in_initFn p' = true)) ->
  thread_ok (set_thread i (at_pc t p') s) i (at_pc t p') ->
  process_ok (set_thread i (at_pc t p') s).
Proof.
  intros Hok Hti Hc Hmover Hi.
  apply (process_ok_step s _ i t p' c comp comp Hok Hti Hc); simpl; auto.
  - symmetry. now apply insert_id.
  - intros Hh. apply (cell_ok_pc s i t p' c comp (t_cell t) Hti).
    + intros _ Hh' Hs. now apply Hmover.
    + now apply (ok_cells s Hok).
Qed.


Lemma thread_ok_intro s i t c comp :
  componentsByName s !! t_name t = Some c ->
  heap s !! c = Some comp ->
  holds (t_pc t) = Some c ->
  match t_pc t with
  | InLock _ => sync.m (once (t_cell t) comp) = Some i
  | Running _ | Ran _ =>
      sync.m (once (t_cell t) comp) = Some i /\
      sync.done (once (t_cell t) comp) = false /\
      runs_of s c (t_cell t) = 1%nat
  | Unlocking _ =>
      sync.m (once (t_cell t) comp) = Some i /\
      sync.done (once (t_cell t) comp) = true
  | AtRead _ => sync.done (once (t_cell t) comp) = true
  | Returned _ r =>
      sync.done (once (t_cell t) comp) = true /\ r = cached (t_cell t) comp
  | _ => True
  end ->
  thread_ok s i t.
Proof. unfold thread_ok. intros Hn Hc -> H. eauto. Qed.

Lemma new_component_once k name :
  once k (new_component name) = {| sync.done := false; sync.m := None |}.
Proof. destruct k; reflexivity. Qed.

(** First resolution of a name: the component is created. *)
Lemma process_ok_create s i t :
  process_ok s -> threads s !! i = Some t -> t_pc t = Start ->
  componentsByName s !! t_name t = None ->
  process_ok (set_thread i (at_pc t (AtDo (fresh (dom (heap s)))))
         {| componentsByName := <[t_name t := fresh (dom (heap s))]> (componentsByName s);
            heap := <[fresh (dom (heap s)) := new_component (t_name t)]> (heap s);
            runs := runs s; threads := threads s |}).
Proof.
  intros Hok Hti Hpc Hmiss.
  set (c := fresh (dom (heap s))).
  assert (Hc : heap s !! c = None) by apply not_elem_of_dom, is_fresh.
  destruct Hok as [Hth Hce Htab Hfr].
  constructor; simpl.
  - intros j tj Hj.
    apply (lookup_set_thread _ _ _ _ _ _ Hti) in Hj as [[-> ->]|[Hne Hj]].
    + apply (thread_ok_intro _ i _ c (new_component (t_name t))); simpl; auto.
      * apply lookup_insert_eq.
      * apply lookup_insert_eq.
    + apply (thread_ok_other s); [auto|]. split; simpl.
      * intros n c0 Hn. rewrite lookup_insert_ne; [exact Hn|congruence].
      * intros c0 comp0 k0 Hc0. exists comp0.
        rewrite lookup_insert_ne by congruence. auto.
  - intros c0 comp0 k0 Hc0.
    apply lookup_insert_Some in Hc0 as [[<- <-]|[Hne Hc0]].
    + unfold cell_ok. rewrite new_component_once; simpl.
      split; [discriminate|]. split; [discriminate|].
      intros _ _. now apply Hfr.
    + apply (cell_ok_frame s _ i t (AtDo c) c0 comp0 comp0 k0 Hti);
        [reflexivity|reflexivity|reflexivity| |now apply Hce].
      rewrite Hpc. discriminate.
  - intros n c0 Hn. destruct (decide (t_name t = n)) as [<-|Hne].
    + rewrite lookup_insert_eq in Hn. injection Hn as <-.
      rewrite lookup_insert_eq. eauto.
    + rewrite lookup_insert_ne in Hn by exact Hne.
      destruct (Htab n c0 Hn) as [comp0 Hc0].
      rewrite lookup_insert_ne by congruence. eauto.
  - intros c0 k0 Hc0. apply Hfr.
    destruct (decide (c = c0)) as [<-|Hne].
    + rewrite lookup_insert_eq in Hc0. discriminate.
    + now rewrite lookup_insert_ne in Hc0.
Qed.

(** Every step of every caller preserves the invariant. *)
Lemma step_thread_ok i r s s' :
  process_ok s -> step_thread i r s = Some s' -> process_ok s'.
Proof.
  intros Hok Hstep. unfold step_thread in Hstep.
  destruct (threads s !! i) as [t|] eqn:Hti; [|discriminate].
  pose proof (ok_threads s Hok i t Hti) as Hi.
  destruct (t_pc t) as [|c|c|c|c|c|c|c|c r0] eqn:Hpc.
  - (* Start *)
    unfold getComponent in Hstep.
    destruct (componentsByName s !! t_name t) as [c|] eqn:Hn; injection Hstep as <-.
    + destruct (ok_table s Hok _ _ Hn) as [comp Hc].
      apply (process_ok_pc_step s i t (AtDo c) c comp Hok Hti Hc).
      * rewrite Hpc. discriminate.
      * eapply thread_ok_intro; simpl; eauto.
    + now apply process_ok_create.
  - (* AtDo *)
    destruct (thread_ok_at s i t c Hi) as (Hn & comp & Hc & _); [now rewrite Hpc|].
    rewrite Hc in Hstep.
    destruct (sync.done (once (t_cell t) comp)) eqn:Hd; injection Hstep as <-.
    + apply (process_ok_pc_step s i t (AtRead c) c comp Hok Hti Hc).
      * rewrite Hpc. discriminate.
      * eapply thread_ok_intro; simpl; eauto.
    + apply (process_ok_pc_step s i t (AtLock c) c comp Hok Hti Hc).
      * rewrite Hpc. discriminate.
      * eapply thread_ok_intro; simpl; eauto.
  - (* AtLock: take the mutex *)
    destruct (thread_ok_at s i t c Hi) as (Hn & comp & Hc & _); [now rewrite Hpc|].
    rewrite Hc in Hstep.
    destruct (sync.m (once (t_cell t) comp)) as [j|] eqn:Hm; [discriminate|].
    injection Hstep as <-.
    destruct (ok_cells s Hok c comp (t_cell t) Hc) as (HH & HD & HZ).
    match goal with
    | |- process_ok ?s' =>
        refine (process_ok_step s s' i t (InLock c) c comp _ Hok Hti Hc
                  eq_refl eq_refl eq_refl _ _ _ _ _ _ _)
    end; simpl.
    + reflexivity.
    + intros k' Hk. rewrite once_set_once, cached_set_once.
      now rewrite decide_False by congruence.
    + rewrite Hpc. discriminate.
    + intros j Hj. split; [congruence|].
      rewrite once_set_once, cached_set_once, decide_True by reflexivity. auto.
    + eapply thread_ok_intro; simpl;
        [exact Hn|apply lookup_insert_eq|reflexivity|].
      now rewrite once_set_once, decide_True.
    + intros _. unfold cell_ok. rewrite once_set_once, decide_True by reflexivity.
      simpl. split; [|split].
      * intros j [= <-]. exists (at_pc t (InLock c)).
        rewrite (lookup_thread_eq _ _ _ _ Hti). auto.
      * exact HD.
      * intros Hd _. apply HZ; [exact Hd|]. congruence.
    + rewrite Hpc. simpl. congruence.
  - (* InLock: re-check done *)
    destruct (thread_ok_at s i t c Hi) as (Hn & comp & Hc & Hcl); [now rewrite Hpc|].
    rewrite Hpc in Hcl. rewrite Hc in Hstep.
    destruct (ok_cells s Hok c comp (t_cell t) Hc) as (HH & HD & HZ).
    destruct (sync.done (once (t_cell t) comp)) eqn:Hd; injection Hstep as <-.
    + apply (process_ok_pc_step s i t (Unlocking c) c comp Hok Hti Hc).
      * rewrite Hpc. simpl. intros c' [= <-] _. auto.
      * eapply thread_ok_intro; simpl; eauto.
    + assert (Hzero : runs_of s c (t_cell t) = 0%nat).
      { apply HZ; [reflexivity|]. intros j tj Hj Htj.
        assert (j = i) as -> by congruence.
        assert (tj = t) as -> by congruence. now rewrite Hpc. }
      assert (Hone : runs_of (log_run c (t_cell t) s) c (t_cell t) = 1%nat).
      { rewrite runs_of_log_run, decide_True by reflexivity. lia. }
      match goal with
    | |- process_ok ?s' =>
        refine (process_ok_step s s' i t (Running c) c comp comp Hok Hti Hc
                  eq_refl (eq_sym (insert_id _ _ _ Hc)) eq_refl _ _ _ _ _ _ _)
    end; simpl.
      * intros c' k' Hne.
        change (runs_of (log_run c (t_cell t) s) c' k' = runs_of s c' k').
        rewrite runs_of_log_run.
        rewrite decide_False by congruence. lia.
      * auto.
      * rewrite Hpc. simpl. congruence.
      * intros j Hj. split; congruence.
      * eapply thread_ok_intro; simpl; [exact Hn|exact Hc|reflexivity|].
        split; [exact Hcl|]. split; [exact Hd|exact Hone].
      * intros _. split; [|split].
        -- intros j Hj. assert (j = i) as -> by congruence.
           exists (at_pc t (Running c)). simpl.
           rewrite (lookup_thread_eq _ _ _ _ Hti). auto.
        -- congruence.
        -- intros _ Hno. specialize (Hno i (at_pc t (Running c)) Hcl).
           simpl in Hno. rewrite (lookup_thread_eq _ _ _ _ Hti) in Hno.
           specialize (Hno eq_refl). discriminate.
      * rewrite Hpc. simpl. congruence.
  - (* Running: initFn returns r, the fields are written *)
    destruct (thread_ok_at s i t c Hi) as (Hn & comp & Hc & Hcl); [now rewrite Hpc|].
    rewrite Hpc in Hcl. destruct Hcl as (Hm & Hd & Hr).
    rewrite Hc in Hstep. injection Hstep as <-.
    match goal with
    | |- process_ok ?s' =>
        refine (process_ok_step s s' i t (Ran c) c comp _ Hok Hti Hc
                  eq_refl eq_refl eq_refl _ _ _ _ _ _ _)
    end; simpl.
    + reflexivity.
    + intros k' Hk. rewrite once_store. split; [reflexivity|].
      apply cached_store_ne. congruence.
    + rewrite Hpc. simpl. congruence.
    + intros j Hj. split; congruence.
    + eapply thread_ok_intro; simpl;
        [exact Hn|apply lookup_insert_eq|reflexivity|].
      rewrite once_store. auto.
    + intros _. unfold cell_ok. rewrite once_store. split; [|split].
      * intros j Hj. assert (j = i) as -> by congruence.
        exists (at_pc t (Ran c)). simpl.
        rewrite (lookup_thread_eq _ _ _ _ Hti). auto.
      * congruence.
      * intros _ Hno. specialize (Hno i (at_pc t (Ran c)) Hm).
        simpl in Hno. rewrite (lookup_thread_eq _ _ _ _ Hti) in Hno.
        specialize (Hno eq_refl). discriminate.
    + rewrite Hpc. simpl. congruence.
  - (* Ran: set done *)
    destruct (thread_ok_at s i t c Hi) as (Hn & comp & Hc & Hcl); [now rewrite Hpc|].
    rewrite Hpc in Hcl. destruct Hcl as (Hm & Hd & Hr).
    rewrite Hc in Hstep. injection Hstep as <-.
    match goal with
    | |- process_ok ?s' =>
        refine (process_ok_step s s' i t (Unlocking c) c comp _ Hok Hti Hc
                  eq_refl eq_refl eq_refl _ _ _ _ _ _ _)
    end; simpl.
    + reflexivity.
    + intros k' Hk. rewrite once_set_once, cached_set_once.
      now rewrite decide_False by congruence.
    + rewrite Hpc. simpl. congruence.
    + intros j Hj. split; congruence.
    + eapply thread_ok_intro; simpl;
        [exact Hn|apply lookup_insert_eq|reflexivity|].
      rewrite once_set_once, decide_True by reflexivity. simpl. auto.
    + intros _. unfold cell_ok. rewrite once_set_once, decide_True by reflexivity.
      simpl. split; [|split].
      * intros j Hj. assert (j = i) as -> by congruence.
        exists (at_pc t (Unlocking c)). simpl.
        rewrite (lookup_thread_eq _ _ _ _ Hti). auto.
      * intros _. exact Hr.
      * discriminate.
    + rewrite Hpc. simpl. congruence.
  - (* Unlocking: release the mutex *)
    destruct (thread_ok_at s i t c Hi) as (Hn & comp & Hc & Hcl); [now rewrite Hpc|].
    rewrite Hpc in Hcl. destruct Hcl as (Hm & Hd).
    rewrite Hc in Hstep. injection Hstep as <-.
    destruct (ok_cells s Hok c comp (t_cell t) Hc) as (HH & HD & HZ).
    match goal with
    | |- process_ok ?s' =>
        refine (process_ok_step s s' i t (AtRead c) c comp _ Hok Hti Hc
                  eq_refl eq_refl eq_refl _ _ _ _ _ _ _)
    end; simpl.
    + reflexivity.
    + intros k' Hk. rewrite once_set_once, cached_set_once.
      now rewrite decide_False by congruence.
    + rewrite Hpc. simpl. congruence.
    + intros j Hj. split; [congruence|].
      rewrite once_set_once, cached_set_once, decide_True by reflexivity. auto.
    + eapply thread_ok_intro; simpl;
        [exact Hn|apply lookup_insert_eq|reflexivity|].
      rewrite once_set_once, decide_True by reflexivity. exact Hd.
    + intros _. unfold cell_ok. rewrite once_set_once, decide_True by reflexivity.
      simpl. split; [|split].
      * discriminate.
      * intros _. auto.
      * congruence.
    + rewrite Hpc. simpl. congruence.
  - (* AtRead *)
    destruct (thread_ok_at s i t c Hi) as (Hn & comp & Hc & Hcl); [now rewrite Hpc|].
    rewrite Hpc in Hcl. rewrite Hc in Hstep. injection Hstep as <-.
    apply (process_ok_pc_step s i t _ c comp Hok Hti Hc).
    + rewrite Hpc. discriminate.
    + eapply thread_ok_intro; simpl; eauto.
  - discriminate.
Qed.


Lemma init_process_ok ts : process_ok (init_process ts).
Proof.
  constructor; simpl.
  - intros i t Hi. apply list_lookup_fmap_Some in Hi as (nk & -> & _).
    exact I.
  - intros c comp k Hc. rewrite lookup_empty in Hc. discriminate.
  - intros n c Hn. rewrite lookup_empty in Hn. discriminate.
  - reflexivity.
Qed.

Lemma steps_ok s s' : process_ok s -> steps s s' -> process_ok s'.
Proof.
  intros Hok Hsteps. induction Hsteps as [s|s1 s2 s3 (i & r & H12) _ IH].
  - exact Hok.
  - eauto using step_thread_ok.
Qed.

Lemma exec_steps schedule s s' : exec schedule s = Some s' -> steps s s'.
Proof.
  revert s. induction schedule as [|[i r] rest IH]; intros s; simpl.
  - intros [= <-]. apply rtc_refl.
  - destruct (step_thread i r s) as [s1|] eqn:H1; [|discriminate].
    intros Hrest. apply (rtc_l _ s s1); [exists i, r; exact H1|now apply IH].
Qed.

(** *** What the invariant gives *)

(** Callers of the same name hold the same component. *)
Lemma same_component s i j ti tj ci cj :
  process_ok s ->
  threads s !! i = Some ti -> threads s !! j = Some tj ->
  t_name ti = t_name tj ->
  holds (t_pc ti) = Some ci -> holds (t_pc tj) = Some cj -> ci = cj.
Proof.
  intros Hok Hi Hj Hname Hci Hcj.
  destruct (thread_ok_at s i ti ci (ok_threads s Hok i ti Hi) Hci) as (Hni & _).
  destruct (thread_ok_at s j tj cj (ok_threads s Hok j tj Hj) Hcj) as (Hnj & _).
  congruence.
Qed.

(** No initializer is started twice. *)
Lemma runs_at_most_once s c k : process_ok s -> (runs_of s c k <= 1)%nat.
Proof.
  intros Hok. destruct (heap s !! c) as [comp|] eqn:Hc.
  - destruct (ok_cells s Hok c comp k Hc) as (HH & HD & HZ).
    destruct (sync.done (once k comp)) eqn:Hd; [rewrite HD; auto|].
    destruct (sync.m (once k comp)) as [j|] eqn:Hm.
    + destruct (HH j eq_refl) as (tj & Htj & Hk & Hh & Hs).
      destruct (in_initFn (t_pc tj)) eqn:Hin.
      * destruct (thread_ok_at s j tj c (ok_threads s Hok j tj Htj) Hh)
          as (_ & comp0 & Hc0 & Hcl).
        subst k. destruct (t_pc tj); try discriminate; destruct Hcl as (_ & _ & ->); auto.
      * rewrite HZ; auto. intros j' tj' [= <-] Htj'. congruence.
    + rewrite HZ; auto. discriminate.
  - rewrite (ok_fresh s Hok c k Hc). auto.
Qed.

Lemma returned_once s i t c r :
  process_ok s -> threads s !! i = Some t -> t_pc t = Returned c r ->
  runs_of s c (t_cell t) = 1%nat /\
  exists comp, heap s !! c = Some comp /\
    sync.done (once (t_cell t) comp) = true /\ r = cached (t_cell t) comp.
Proof.
  intros Hok Hi Hpc.
  destruct (thread_ok_at s i t c (ok_threads s Hok i t Hi)) as (_ & comp & Hc & Hcl);
    [now rewrite Hpc|].
  rewrite Hpc in Hcl. destruct Hcl as (Hd & ->).
  destruct (ok_cells s Hok c comp (t_cell t) Hc) as (_ & HD & _).
  eauto 6.
Qed.

Lemma same_result s i j ti tj ci cj ri rj :
  process_ok s ->
  threads s !! i = Some ti -> threads s !! j = Some tj ->
  t_name ti = t_name tj -> t_cell ti = t_cell tj ->
  t_pc ti = Returned ci ri -> t_pc tj = Returned cj rj ->
  ci = cj /\ ri = rj.
Proof.
  intros Hok Hi Hj Hname Hcell Hpi Hpj.
  assert (ci = cj) as <-.
  { apply (same_component s i j ti tj ci cj Hok Hi Hj Hname).
    - now rewrite Hpi.
    - now rewrite Hpj. }
  split; [reflexivity|].
  destruct (returned_once s i ti ci ri Hok Hi Hpi) as (_ & comp & Hc & _ & ->).
  destruct (returned_once s j tj ci rj Hok Hj Hpj) as (_ & comp' & Hc' & _ & ->).
  congruence.
Qed.

(** While a caller is inside [initFn], the other callers of that cell are
    still in front of [Do], and those that wait for the mutex cannot move. *)
Lemma others_wait s i ti c j tj :
  process_ok s ->
  threads s !! i = Some ti -> holds (t_pc ti) = Some c ->
  in_initFn (t_pc ti) = true ->
  j <> i -> threads s !! j = Some tj ->
  t_cell tj = t_cell ti -> holds (t_pc tj) = Some c ->
  (t_pc tj = AtDo c \/ t_pc tj = AtLock c) /\
  (t_pc tj = AtLock c -> forall r, step_thread j r s = None).
Proof.
  intros Hok Hi Hci Hin Hne Hj Hcell Hcj.
  destruct (thread_ok_at s i ti c (ok_threads s Hok i ti Hi) Hci)
    as (_ & comp & Hc & Hcl).
  assert (Hmd : sync.m (once (t_cell ti) comp) = Some i /\
                sync.done (once (t_cell ti) comp) = false).
  { destruct (t_pc ti); try discriminate; tauto. }
  destruct Hmd as (Hm & Hd).
  destruct (thread_ok_at s j tj c (ok_threads s Hok j tj Hj) Hcj)
    as (_ & comp' & Hc' & Hcl').
  assert (comp' = comp) as -> by congruence. rewrite Hcell in Hcl'.
  split.
  - destruct (t_pc tj); simpl in Hcj; try discriminate;
      injection Hcj as ->; try tauto; exfalso;
      intuition congruence.
  - intros Hpj r. unfold step_thread. rewrite Hj, Hpj, Hc, Hcell, Hm. reflexivity.
Qed.


(** *** Progress *)

(** A step moves exactly one caller, forward. *)
Lemma step_thread_moves i r s s' :
  step_thread i r s = Some s' ->
  exists t p', threads s !! i = Some t /\
    threads s' = <[i := at_pc t p']> (threads s) /\
    (rank p' < rank (t_pc t))%nat.
Proof.
  unfold step_thread. destruct (threads s !! i) as [t|] eqn:Hti; [|discriminate].
  intros Hstep.
  assert (Hmoves : exists p', threads s' = <[i := at_pc t p']> (threads s) /\
                              (rank p' < rank (t_pc t))%nat).
  { destruct (t_pc t) as [|c|c|c|c|c|c|c|c r0] eqn:Hpc; simpl;
      [unfold getComponent in Hstep;
       destruct (componentsByName s !! t_name t)
      |destruct (heap s !! c); [destruct (sync.done _)|discriminate]
      |destruct (heap s !! c); [destruct (sync.m _); [discriminate|]|discriminate]
      |destruct (heap s !! c); [destruct (sync.done _)|discriminate]
      |destruct (heap s !! c); [|discriminate]
      |destruct (heap s !! c); [|discriminate]
      |destruct (heap s !! c); [|discriminate]
      |destruct (heap s !! c); [|discriminate]
      |discriminate];
      injection Hstep as <-; eexists; (split; [reflexivity|]).
    all: simpl; clear; lia. }
  destruct Hmoves as (p' & Hth & Hrank). eauto.
Qed.

Lemma sum_list_insert {A} (f : A -> nat) (l : list A) i x y :
  l !! i = Some x ->
  (sum_list (f <$> <[i := y]> l) + f x = sum_list (f <$> l) + f y)%nat.
Proof.
  revert i. induction l as [|a l IH]; intros [|i]; csimpl; try discriminate.
  - intros [= ->]. lia.
  - intros Hi. specialize (IH i Hi). lia.
Qed.

Lemma work_left_decreases s s' : step s s' -> (work_left s' < work_left s)%nat.
Proof.
  intros (i & r & Hstep).
  destruct (step_thread_moves i r s s' Hstep) as (t & p' & Hti & Hth & Hrank).
  unfold work_left. rewrite Hth.
  pose proof (sum_list_insert (fun t => rank (t_pc t)) (threads s) i t
                (at_pc t p') Hti) as Hsum.
  simpl in Hsum. lia.
Qed.

(** A caller that has not returned can move, unless it waits for a mutex
    that is held; the holder then can. *)
Lemma can_step s i t c comp r :
  threads s !! i = Some t -> holds (t_pc t) = Some c ->
  heap s !! c = Some comp -> returned t = false ->
  (t_pc t = AtLock c -> sync.m (once (t_cell t) comp) = None) ->
  exists s', step_thread i r s = Some s'.
Proof.
  intros Hti Hh Hc Hret Hfree. unfold step_thread, returned in *. rewrite Hti.
  destruct (t_pc t); simpl in Hh; try discriminate; injection Hh as ->;
    rewrite Hc; eauto.
  - destruct (sync.done _); eauto.
  - rewrite Hfree by reflexivity. eauto.
  - destruct (sync.done _); eauto.
Qed.

Lemma no_deadlock s i t :
  process_ok s -> threads s !! i = Some t -> returned t = false ->
  exists j r s', step_thread j r s = Some s'.
Proof.
  intros Hok Hti Hret. set (r := (None, None) : outcome).
  destruct (holds (t_pc t)) as [c|] eqn:Hh.
  - destruct (thread_ok_at s i t c (ok_threads s Hok i t Hti) Hh)
      as (_ & comp & Hc & _).
    destruct (sync.m (once (t_cell t) comp)) as [j|] eqn:Hm.
    + destruct (ok_cells s Hok c comp (t_cell t) Hc) as (HH & _ & _).
      destruct (HH j Hm) as (tj & Htj & Hk & Hhj & Hsj).
      destruct (can_step s j tj c comp r Htj Hhj Hc) as [s' Hs'].
      * unfold returned. now destruct (t_pc tj).
      * intros Hpj. rewrite Hpj in Hsj. discriminate.
      * eauto.
    + destruct (can_step s i t c comp r Hti Hh Hc Hret) as [s' Hs']; eauto.
  - exists i, r. unfold step_thread. rewrite Hti.
    destruct (t_pc t); try discriminate.
    destruct (getComponent (t_name t) s). eauto.
Qed.


Ltac finish_cells :=
  repeat split; auto; first [discriminate | congruence | intros; congruence].

Lemma step_thread_cells i r s s' c comp :
  step_thread i r s = Some s' -> heap s !! c = Some comp ->
  exists t comp', threads s !! i = Some t /\ heap s' !! c = Some comp' /\
    forall k,
      (sync.done (once k comp) = true -> sync.done (once k comp') = true) /\
      (cached k comp' = cached k comp \/ (t_cell t = k /\ t_pc t = Running c)) /\
      (t_cell t = k -> t_pc t = Ran c -> sync.done (once k comp') = true).
Proof.
  unfold step_thread. destruct (threads s !! i) as [t|] eqn:Hti; [|discriminate].
  intros Hstep Hc. exists t.
  destruct (t_pc t) as [|c0|c0|c0|c0|c0|c0|c0|c0 r0] eqn:Hpc.
  - unfold getComponent in Hstep.
    destruct (componentsByName s !! t_name t); injection Hstep as <-; simpl.
    + exists comp. finish_cells.
    + exists comp. rewrite lookup_insert_ne; [finish_cells|].
      intros Heq. rewrite <- Heq in Hc.
      assert (heap s !! fresh (dom (heap s)) = None)
        by apply not_elem_of_dom, is_fresh.
      congruence.
  - destruct (heap s !! c0); [|discriminate].
    destruct (sync.done _); injection Hstep as <-; simpl;
      exists comp; finish_cells.
  - destruct (heap s !! c0) as [comp0|] eqn:Hc0; [|discriminate].
    destruct (sync.m _); [discriminate|]. injection Hstep as <-. simpl.
    destruct (decide (c0 = c)) as [->|Hne].
    + assert (comp0 = comp) as -> by congruence.
      eexists. rewrite lookup_insert_eq. split; [reflexivity|split; [reflexivity|]].
      intros k. rewrite once_set_once, cached_set_once.
      destruct (decide (t_cell t = k)) as [<-|]; simpl; finish_cells.
    + exists comp. rewrite lookup_insert_ne by exact Hne. finish_cells.
  - destruct (heap s !! c0); [|discriminate].
    destruct (sync.done _); injection Hstep as <-; simpl;
      exists comp; finish_cells.
  - destruct (heap s !! c0) as [comp0|] eqn:Hc0; [|discriminate].
    injection Hstep as <-. simpl.
    destruct (decide (c0 = c)) as [->|Hne].
    + assert (comp0 = comp) as -> by congruence.
      eexists. rewrite lookup_insert_eq. split; [reflexivity|split; [reflexivity|]].
      intros k. rewrite once_store.
      destruct (decide (t_cell t = k)) as [Hk|Hk].
      * finish_cells.
      * rewrite cached_store_ne by exact Hk. finish_cells.
    + exists comp. rewrite lookup_insert_ne by exact Hne. finish_cells.
  - destruct (heap s !! c0) as [comp0|] eqn:Hc0; [|discriminate].
    injection Hstep as <-. simpl.
    destruct (decide (c0 = c)) as [->|Hne].
    + assert (comp0 = comp) as -> by congruence.
      eexists. rewrite lookup_insert_eq. split; [reflexivity|split; [reflexivity|]].
      intros k. rewrite once_set_once, cached_set_once.
      destruct (decide (t_cell t = k)) as [<-|]; simpl; finish_cells.
    + exists comp. rewrite lookup_insert_ne by exact Hne. finish_cells.
  - destruct (heap s !! c0) as [comp0|] eqn:Hc0; [|discriminate].
    injection Hstep as <-. simpl.
    destruct (decide (c0 = c)) as [->|Hne].
    + assert (comp0 = comp) as -> by congruence.
      eexists. rewrite lookup_insert_eq. split; [reflexivity|split; [reflexivity|]].
      intros k. rewrite once_set_once, cached_set_once.
      destruct (decide (t_cell t = k)) as [<-|]; simpl; finish_cells.
    + exists comp. rewrite lookup_insert_ne by exact Hne. finish_cells.
  - destruct (heap s !! c0); [|discriminate]. injection Hstep as <-. simpl.
    exists comp. finish_cells.
  - discriminate.
Qed.


(** A completed cell stays completed, with the same result. *)
Lemma completed_step i r s s' c k r0 :
  process_ok s -> step_thread i r s = Some s' ->
  completed s c k r0 -> completed s' c k r0.
Proof.
  intros Hok Hstep (comp & Hc & Hr0 & Hruns & Hdone).
  pose proof (step_thread_ok i r s s' Hok Hstep) as Hok'.
  destruct (step_thread_cells i r s s' c comp Hstep Hc)
    as (t & comp' & Hti & Hc' & Hk).
  destruct (Hk k) as (Hmono & Hcached & Hran).
  destruct (step_thread_moves i r s s' Hstep) as (t0 & p' & Hti0 & Hth & _).
  assert (t0 = t) as -> by congruence.
  assert (Hkeeps : cached k comp' = cached k comp).
  { destruct Hcached as [Hsame|[Hcell Hpc]]; [exact Hsame|exfalso].
    destruct (thread_ok_at s i t c (ok_threads s Hok i t Hti))
      as (_ & comp0 & Hc0 & Hcl); [now rewrite Hpc|].
    assert (comp0 = comp) as -> by congruence.
    rewrite Hpc, Hcell in Hcl. destruct Hcl as (Hm & Hd & _).
    destruct Hdone as [Hd'|(i0 & t0 & Hti0' & Hcell0 & Hpc0)]; [congruence|].
    destruct (thread_ok_at s i0 t0 c (ok_threads s Hok i0 t0 Hti0'))
      as (_ & comp0 & Hc0' & Hcl0); [now rewrite Hpc0|].
    assert (comp0 = comp) as -> by congruence.
    rewrite Hpc0, Hcell0 in Hcl0. destruct Hcl0 as (Hm0 & _).
    assert (i0 = i) as -> by congruence. congruence. }
  assert (Hlater : sync.done (once k comp') = true \/
                   exists i0 t0, threads s' !! i0 = Some t0 /\ t_cell t0 = k /\
                                 t_pc t0 = Ran c).
  { destruct Hdone as [Hd|(i0 & t0 & Hti0' & Hcell0 & Hpc0)]; [auto|].
    destruct (decide (i0 = i)) as [->|Hne].
    - assert (t0 = t) as -> by congruence. auto.
    - right. exists i0, t0. rewrite Hth, lookup_thread_ne by exact Hne. auto. }
  exists comp'. split; [exact Hc'|]. split; [congruence|]. split; [|exact Hlater].
  destruct Hlater as [Hd|(i0 & t0 & Hti0' & Hcell0 & Hpc0)].
  - now apply (ok_cells s' Hok' c comp' k Hc').
  - destruct (thread_ok_at s' i0 t0 c (ok_threads s' Hok' i0 t0 Hti0'))
      as (_ & comp0 & Hc0 & Hcl); [now rewrite Hpc0|].
    rewrite Hpc0, Hcell0 in Hcl. tauto.
Qed.

Lemma completed_steps s s' c k r0 :
  process_ok s -> steps s s' -> completed s c k r0 -> completed s' c k r0.
Proof.
  intros Hok Hsteps. induction Hsteps as [s|s1 s2 s3 (i & r & H12) _ IH].
  - auto.
  - intros Hcomp. apply IH.
    + eauto using step_thread_ok.
    + eauto using completed_step.
Qed.

Lemma completed_returned s c k r0 i t r :
  process_ok s -> completed s c k r0 ->
  threads s !! i = Some t -> t_cell t = k -> t_pc t = Returned c r -> r = r0.
Proof.
  intros Hok (comp & Hc & Hr0 & _) Hti Hcell Hpc.
  destruct (returned_once s i t c r Hok Hti Hpc) as (_ & comp' & Hc' & _ & ->).
  congruence.
Qed.

(** The moment the initializer returns, the cell is completed with what it
    returned (as far as the cell has fields for it). *)
Lemma initFn_returns s i t c comp r s' :
  process_ok s -> threads s !! i = Some t -> t_pc t = Running c ->
  heap s !! c = Some comp -> step_thread i r s = Some s' ->
  completed s' c (t_cell t) (cached (t_cell t) (store (t_cell t) r comp)).
Proof.
  intros Hok Hti Hpc Hc Hstep.
  destruct (thread_ok_at s i t c (ok_threads s Hok i t Hti))
    as (_ & comp0 & Hc0 & Hcl); [now rewrite Hpc|].
  assert (comp0 = comp) as -> by congruence.
  rewrite Hpc in Hcl. destruct Hcl as (_ & _ & Hruns).
  unfold step_thread in Hstep. rewrite Hti, Hpc, Hc in Hstep.
  injection Hstep as <-.
  exists (store (t_cell t) r comp). simpl.
  rewrite lookup_insert_eq. repeat split; auto.
  right. exists i, (at_pc t (Ran c)). rewrite (lookup_thread_eq _ _ _ _ Hti). auto.
Qed.

(** *** The two claims about lazy cells *)

(** C1. For each of the four cells [k] of a component: the moment a caller's
    initializer returns [r], the cell is completed with what the cell's
    fields hold of [r], and that is: [r] itself for the implementation and
    the stub cell, which have a field for the value and one for the error;
    the error of [r] for the registration cell, which has no value field;
    the value of [r] for the client cell, which has no error field.  And
    once a cell is completed with a result [r0], it stays so in every later
    state: the fields hold [r0], the initializer has been run once and is
    not run again, every caller that has returned from the cell returned
    [r0], and a caller that has not returned yet is not stuck: some caller
    can move, and every move brings the callers closer to having
    returned. *)
Theorem lazy_cell_result_is_cached ts s :
  steps (init_process ts) s ->
  (forall i t c comp r s1,
     threads s !! i = Some t -> t_pc t = Running c ->
     heap s !! c = Some comp -> step_thread i r s = Some s1 ->
     completed s1 c (t_cell t) (cached (t_cell t) (store (t_cell t) r comp)) /\
     cached (t_cell t) (store (t_cell t) r comp)
     = match t_cell t with
       | registerCell => (None, r.2)
       | implCell | stubCell => r
       | clientCell => (r.1, None)
       end) /\
  (forall c k r0 s',
     completed s c k r0 -> steps s s' ->
     completed s' c k r0 /\
     runs_of s' c k = 1%nat /\
     (forall i t r, threads s' !! i = Some t -> t_cell t = k ->
                    t_pc t = Returned c r -> r = r0) /\
     (forall i t, threads s' !! i = Some t -> returned t = false ->
                  exists j r s'', step_thread j r s' = Some s'') /\
     (forall s'', step s' s'' -> (work_left s'' < work_left s')%nat)).
Proof.
  intros Hsteps.
  pose proof (steps_ok _ _ (init_process_ok ts) Hsteps) as Hok.
  split.
  - intros i t c comp r s1 Hti Hpc Hc Hstep. split.
    + now apply (initFn_returns s i t c comp r s1).
    + destruct r as [v e]. destruct (t_cell t); reflexivity.
  - intros c k r0 s' Hcomp Hlater.
    pose proof (steps_ok _ _ Hok Hlater) as Hok'.
    pose proof (completed_steps s s' c k r0 Hok Hlater Hcomp) as Hcomp'.
    split; [exact Hcomp'|]. split; [|split; [|split]].
    + destruct Hcomp' as (comp' & _ & _ & Hruns & _). exact Hruns.
    + intros i t r Hti Hcell Hpc.
      now apply (completed_returned s' c k r0 i t r).
    + intros i t Hti Hret. now apply (no_deadlock s' i t).
    + apply work_left_decreases.
Qed.

(** C2. Whatever the number of callers and the order of their steps:
    callers that resolve the same name hold the same component; the
    initializer of a cell is never started twice, and it has been started
    exactly once when a caller has returned from the cell; callers of the
    same name and cell that have returned, returned the same component and
    the same result; while one caller
    is inside the initializer, every other caller of that cell is still in
    front of [Do], and those waiting for the mutex cannot move; as long as a
    caller has not returned some caller can move, and every move brings the
    callers closer to having returned. *)
Theorem singleton_resolution_single_init ts s :
  steps (init_process ts) s ->
  (forall i j ti tj ci cj,
     threads s !! i = Some ti -> threads s !! j = Some tj ->
     t_name ti = t_name tj ->
     holds (t_pc ti) = Some ci -> holds (t_pc tj) = Some cj -> ci = cj) /\
  (forall c k, (runs_of s c k <= 1)%nat) /\
  (forall i ti c r,
     threads s !! i = Some ti -> t_pc ti = Returned c r ->
     runs_of s c (t_cell ti) = 1%nat) /\
  (forall i j ti tj ci cj ri rj,
     threads s !! i = Some ti -> threads s !! j = Some tj ->
     t_name ti = t_name tj -> t_cell ti = t_cell tj ->
     t_pc ti = Returned ci ri -> t_pc tj = Returned cj rj ->
     ci = cj /\ ri = rj) /\
  (forall i ti c j tj,
     threads s !! i = Some ti -> holds (t_pc ti) = Some c ->
     in_initFn (t_pc ti) = true ->
     j <> i -> threads s !! j = Some tj ->
     t_cell tj = t_cell ti -> holds (t_pc tj) = Some c ->
     (t_pc tj = AtDo c \/ t_pc tj = AtLock c) /\
     (t_pc tj = AtLock c -> forall r, step_thread j r s = None)) /\
  (forall i ti, threads s !! i = Some ti -> returned ti = false ->
                exists j r s', step_thread j r s = Some s') /\
  (forall s', step s s' -> (work_left s' < work_left s)%nat).
Proof.
  intros Hsteps.
  pose proof (steps_ok _ _ (init_process_ok ts) Hsteps) as Hok.
  split; [|split; [|split; [|split; [|split; [|split]]]]].
  - intros i j ti tj ci cj. now apply same_component.
  - intros c k. now apply runs_at_most_once.
  - intros i ti c r Hti Hpc. now destruct (returned_once s i ti c r Hok Hti Hpc).
  - intros i j ti tj ci cj ri rj. now apply same_result.
  - intros i ti c j tj. now apply others_wait.
  - intros i ti. now apply no_deadlock.
  - apply work_left_decreases.
Qed.

End LazyCells.

(** *** The sample run: a hundred callers, a failing factory *)

Lemma sample_run_mid :
  weaver.exec (weaver.sample_arrival 100 ++ weaver.sample_first)
    (weaver.init_process (weaver.sample_callers 100))
  = Some (weaver.sample_mid 100).
Proof. vm_compute. reflexivity. Qed.

Lemma sample_run_final :
  weaver.exec (weaver.sample_rest 100) (weaver.sample_mid 100)
  = Some (weaver.sample_final 100).
Proof. vm_compute. reflexivity. Qed.

Lemma sample_run_all :
  weaver.steps (weaver.init_process (weaver.sample_callers 100))
    (weaver.sample_final 100).
Proof.
  eapply rtc_trans.
  - exact (exec_steps _ _ _ sample_run_mid).
  - exact (exec_steps _ _ _ sample_run_final).
Qed.

Lemma sample_mid_completed :
  weaver.completed (weaver.sample_mid 100) 1%positive weaver.implCell
    weaver.sample_failure.
Proof.
  eexists. split; [vm_compute; reflexivity|].
  split; [reflexivity|]. split; [reflexivity|].
  right. exists O, (weaver.sample_caller (weaver.Ran 1%positive)).
  split; [reflexivity|]. split; reflexivity.
Qed.

Lemma lazy_cell_result_is_cached_witness :
  weaver.steps (weaver.init_process (weaver.sample_callers 100))
    (weaver.sample_mid 100) /\
  weaver.completed (weaver.sample_final 100) 1%positive weaver.implCell
    weaver.sample_failure /\
  weaver.runs_of (weaver.sample_final 100) 1%positive weaver.implCell = 1%nat /\
  (forall i t r,
     weaver.threads (weaver.sample_final 100) !! i = Some t ->
     weaver.t_cell t = weaver.implCell ->
     weaver.t_pc t = weaver.Returned 1%positive r ->
     r = weaver.sample_failure).
Proof.
  assert (Hmid : weaver.steps (weaver.init_process (weaver.sample_callers 100))
                   (weaver.sample_mid 100))
    by exact (exec_steps _ _ _ sample_run_mid).
  split; [exact Hmid|].
  destruct (proj2 (lazy_cell_result_is_cached (weaver.sample_callers 100)
                     (weaver.sample_mid 100) Hmid)
              1%positive weaver.implCell weaver.sample_failure
              (weaver.sample_final 100) sample_mid_completed
              (exec_steps _ _ _ sample_run_final))
    as (Hcompleted & Hruns & Hreturned & _).
  split; [exact Hcompleted|]. split; [exact Hruns|exact Hreturned].
Defined.

Lemma singleton_resolution_single_init_witness :
  weaver.steps (weaver.init_process (weaver.sample_callers 100))
    (weaver.sample_final 100) /\
  (forall i j ti tj ci cj,
     weaver.threads (weaver.sample_final 100) !! i = Some ti ->
     weaver.threads (weaver.sample_final 100) !! j = Some tj ->
     weaver.t_name ti = weaver.t_name tj ->
     weaver.holds (weaver.t_pc ti) = Some ci ->
     weaver.holds (weaver.t_pc tj) = Some cj -> ci = cj) /\
  (forall c k, (weaver.runs_of (weaver.sample_final 100) c k <= 1)%nat) /\
  (forall i ti c r,
     weaver.threads (weaver.sample_final 100) !! i = Some ti ->
     weaver.t_pc ti = weaver.Returned c r ->
     weaver.runs_of (weaver.sample_final 100) c (weaver.t_cell ti) = 1%nat).
Proof.
  split; [exact sample_run_all|].
  destruct (singleton_resolution_single_init (weaver.sample_callers 100)
              (weaver.sample_final 100) sample_run_all)
    as (Hsame & Hmost & Honce & _).
  split; [exact Hsame|]. split; [exact Hmost|exact Honce].
Defined.
